(** * IKEv2 message model of charon: message.c

    A shallow embedding of [Source/charon/message.c]: the rule table, the
    accessors, [add_payload], [generate], [parse_header], [parse_body] and the
    constructor, followed by the properties of the message specification.

    C objects reached through pointers live in a store (the [world]); the
    message itself is passed and returned as a record.  The byte layout of
    the individual payloads belongs to the generator and the parser, which
    are not part of message.c: they enter as the interface [Collaborators]. *)

From Stdlib Require Import ZArith NArith List Bool Lia String.
From stdpp Require Import base tactics option list strings.

(** ** Enumerations *)

(** Modelled from the spec: types.h is not among the sources.  The
    constructors are the status values message.c names, and [PARSE_ERROR]
    for the decode-failure kind of the error taxonomy. *)
Inductive status_t :=
  | SUCCESS | FAILED | OUT_OF_RES | NOT_SUPPORTED | NOT_FOUND
  | PARSE_ERROR | VERIFY_ERROR | INVALID_STATE.

(** Modelled from the spec: payloads/payload.h is not among the sources.
    The constructors are the payload types message.c names; every other
    value of the enumeration is kept by its number. *)
Inductive payload_type_t :=
  | NO_PAYLOAD | SECURITY_ASSOCIATION | KEY_EXCHANGE | NONCE | HEADER
  | PAYLOAD_TYPE_OTHER (code : N).

(** Modelled from the spec: the exchange types message.c names; every other
    exchange type is kept by its number. *)
Inductive exchange_type_t :=
  | EXCHANGE_TYPE_UNDEFINED | IKE_SA_INIT
  | EXCHANGE_TYPE_OTHER (code : N).

#[global] Instance status_t_eq_dec : EqDecision status_t.
Proof. solve_decision. Defined.
#[global] Instance payload_type_t_eq_dec : EqDecision payload_type_t.
Proof. solve_decision. Defined.
#[global] Instance exchange_type_t_eq_dec : EqDecision exchange_type_t.
Proof. solve_decision. Defined.

(** ** The rule table *)

Record supported_payload_entry_t := SupportedPayload {
  payload_type : payload_type_t;
  min_occurence : nat;
  max_occurence : nat
}.

Record message_rule_t := MessageRule {
  rule_exchange_type : exchange_type_t;
  rule_is_request : bool;
  supported_payloads : list supported_payload_entry_t
}.

Definition supported_ike_sa_init_i_payloads : list supported_payload_entry_t :=
  [ SupportedPayload SECURITY_ASSOCIATION 1 1;
    SupportedPayload KEY_EXCHANGE 1 1;
    SupportedPayload NONCE 1 1 ].

Definition supported_ike_sa_init_r_payloads : list supported_payload_entry_t :=
  [ SupportedPayload SECURITY_ASSOCIATION 1 1;
    SupportedPayload KEY_EXCHANGE 1 1;
    SupportedPayload NONCE 1 1 ].

Definition message_rules : list message_rule_t :=
  [ MessageRule IKE_SA_INIT true supported_ike_sa_init_i_payloads;
    MessageRule IKE_SA_INIT false supported_ike_sa_init_r_payloads ].

(** ** Objects *)

Abbreviation addr := nat (only parsing).

(** Opaque to message.c; only null-ness of the two packet fields matters. *)
Definition host_t := N.

Record ike_sa_id_t := IkeSaId {
  sa_initiator_spi : Z;
  sa_responder_spi : Z;
  sa_is_initiator : bool
}.

Record ike_header_t := IkeHeader {
  hdr_initiator_spi : Z;
  hdr_responder_spi : Z;
  hdr_next_payload : payload_type_t;
  hdr_maj_version : Z;
  hdr_min_version : Z;
  hdr_exchange_type : exchange_type_t;
  hdr_initiator_flag : bool;
  hdr_response_flag : bool;
  hdr_message_id : Z
}.

(** A payload other than the header, as message.c sees it: its type, the
    type of its successor and a body it never looks into. *)
Record body_payload_t := BodyPayload {
  bp_type : payload_type_t;
  bp_next_type : payload_type_t;
  bp_data : list Byte.byte
}.

(** [payload_t]: what a [payload_t *] may point at. *)
Inductive payload_t :=
  | Header (h : ike_header_t)
  | Body (p : body_payload_t).

Definition get_type (p : payload_t) : payload_type_t :=
  match p with
  | Header _ => HEADER
  | Body b => bp_type b
  end.

Definition get_next_type (p : payload_t) : payload_type_t :=
  match p with
  | Header h => hdr_next_payload h
  | Body b => bp_next_type b
  end.

Definition set_hdr_next_payload (t : payload_type_t) (h : ike_header_t) : ike_header_t :=
  IkeHeader (hdr_initiator_spi h) (hdr_responder_spi h) t (hdr_maj_version h)
    (hdr_min_version h) (hdr_exchange_type h) (hdr_initiator_flag h)
    (hdr_response_flag h) (hdr_message_id h).

Definition payload_set_next_type (t : payload_type_t) (p : payload_t) : payload_t :=
  match p with
  | Header h => Header (set_hdr_next_payload t h)
  | Body b => Body (BodyPayload (bp_type b) t (bp_data b))
  end.

Record packet_t := Packet {
  source : option host_t;
  destination : option host_t;
  data : option (list Byte.byte)
}.

(** Modelled from the spec: the parser is bound at construction to a byte
    buffer and keeps a read position; [reset_context] rewinds it. *)
Record parser_t := Parser {
  input : list Byte.byte;
  position : nat
}.

(** The integer fields hold what the C fields hold ([u_int8_t] versions, a
    [u_int32_t] message id, [u_int64_t] SPIs in the header and the
    ike_sa_id); message.c copies them and does no arithmetic on them. *)
Record private_message_t := Message {
  major_version : Z;
  minor_version : Z;
  first_payload : payload_type_t;
  exchange_type : exchange_type_t;
  is_request : bool;
  message_id : Z;
  ike_sa_id : option addr;
  packet : packet_t;
  payloads : list addr;
  parser : parser_t
}.

(** ** Logger *)

Inductive logger_level_t := CONTROL | ERROR | MORE | MOST.

Inductive log_arg :=
  | ArgCount (n : nat)
  | ArgType (t : payload_type_t).

Record log_entry := Log {
  log_level : list logger_level_t;
  log_format : string;
  log_args : list log_arg
}.

#[global] Instance logger_level_t_eq_dec : EqDecision logger_level_t.
Proof. solve_decision. Defined.

(** ** The store and the monad of the embedding *)

(** [objects]: payload and header objects by address, [None] once destroyed.
    [sa_ids]: the same for [ike_sa_id_t] objects.  [grants]: the answers the
    allocator gives to the coming requests, in order; once the list is used
    up every request is granted.  [log]: what the logger received, oldest
    first. *)
Record world := World {
  objects : list (option payload_t);
  sa_ids : list (option ike_sa_id_t);
  grants : list bool;
  log : list log_entry
}.

Inductive fault :=
  | NULL_POINTER      (* a null pointer is dereferenced *)
  | WILD_POINTER      (* a pointer to no live object is dereferenced *)
  | UNSET_RESULT      (* an out-parameter is read that the callee never wrote *)
  | BAD_CAST          (* an object that is no header is used as one *)
  | OUT_OF_FUEL.      (* the loop bound of the embedding is used up *)

Inductive outcome (A : Type) :=
  | Done (a : A) (w : world)
  | Fault (f : fault).
Arguments Done {A} a w.
Arguments Fault {A} f.

Definition M (A : Type) := world -> outcome A.

Definition ret {A} (a : A) : M A := fun w => Done a w.

Definition bind {A B} (m : M A) (k : A -> M B) : M B :=
  fun w => match m w with
           | Done a w' => k a w'
           | Fault f => Fault f
           end.

Definition crash {A} (f : fault) : M A := fun _ => Fault f.

Declare Scope m_scope.
Delimit Scope m_scope with M.
Notation "'let*' x := m 'in' k" := (bind m (fun x => k))
  (at level 10, x pattern, m at level 100, k at level 200) : m_scope.
Notation "m ;; k" := (bind m (fun _ => k))
  (at level 100, k at level 200, right associativity) : m_scope.
Local Open Scope m_scope.

Definition logger_log (lvl : list logger_level_t) (fmt : string) (args : list log_arg) : M unit :=
  fun w => Done tt (World (objects w) (sa_ids w) (grants w) (log w ++ [Log lvl fmt args])).

(** One request to the allocator. *)
Definition allocator_alloc : M bool :=
  fun w => Done (hd true (grants w))
             (World (objects w) (sa_ids w) (tl (grants w)) (log w)).

Definition load (a : addr) : M payload_t :=
  fun w => match objects w !! a with
           | Some (Some p) => Done p w
           | _ => Fault WILD_POINTER
           end.

Definition store (a : addr) (p : payload_t) : M unit :=
  fun w => match objects w !! a with
           | Some (Some _) =>
               Done tt (World (<[a := Some p]> (objects w)) (sa_ids w) (grants w) (log w))
           | _ => Fault WILD_POINTER
           end.

(** A new object at a fresh address. *)
Definition new_object (p : payload_t) : M addr :=
  fun w => Done (length (objects w))
             (World (objects w ++ [Some p]) (sa_ids w) (grants w) (log w)).

Definition payload_destroy (a : addr) : M unit :=
  fun w => match objects w !! a with
           | Some (Some _) =>
               Done tt (World (<[a := None]> (objects w)) (sa_ids w) (grants w) (log w))
           | _ => Fault WILD_POINTER
           end.

(** [payload->set_next_type(payload, t)] through a pointer. *)
Definition set_next_type (a : addr) (t : payload_type_t) : M unit :=
  let* p := load a in store a (payload_set_next_type t p).

Definition sa_load (a : addr) : M ike_sa_id_t :=
  fun w => match sa_ids w !! a with
           | Some (Some s) => Done s w
           | _ => Fault WILD_POINTER
           end.

Definition sa_destroy (a : addr) : M unit :=
  fun w => match sa_ids w !! a with
           | Some (Some _) =>
               Done tt (World (objects w) (<[a := None]> (sa_ids w)) (grants w) (log w))
           | _ => Fault WILD_POINTER
           end.

(** Modelled from the spec: ike_sa_id.c is not among the sources.
    [ike_sa_id_create] allocates an identifier from the two SPIs and the
    initiator flag and yields null when the allocator refuses. *)
Definition ike_sa_id_create (ispi rspi : Z) (initiator : bool) : M (option addr) :=
  let* ok := allocator_alloc in
  if ok then
    fun w => Done (Some (length (sa_ids w)))
               (World (objects w) (sa_ids w ++ [Some (IkeSaId ispi rspi initiator)])
                  (grants w) (log w))
  else ret None.

(** Modelled from the spec: [clone] is a deep copy, a new identifier with the
    contents of the old one; its out-parameter is written on success only. *)
Definition ike_sa_id_clone (a : addr) : M (status_t * option addr) :=
  let* s := sa_load a in
  let* c := ike_sa_id_create (sa_initiator_spi s) (sa_responder_spi s) (sa_is_initiator s) in
  match c with
  | Some a' => ret (SUCCESS, Some a')
  | None => ret (OUT_OF_RES, None)
  end.

(** ** The collaborators of message.c *)

(** What the parser makes of the bytes in front of it when asked for a
    payload of a given type: an object and the number of bytes it took, or
    the status it fails with. *)
Inductive parsed :=
  | Parsed (p : payload_t) (used : nat)
  | Rejected (s : status_t).

(** The generator, the parser and the payloads' [verify] are not part of
    message.c.  Modelled from the spec: the generator turns one payload into
    bytes or a failure status, the parser turns the front of a byte buffer
    into one payload of the expected type, [verify] answers with a status.
    A successful parse consumes at least one byte of what is left. *)
Class Collaborators := {
  encode : payload_t -> status_t * list Byte.byte;
  decode : payload_type_t -> list Byte.byte -> parsed;
  verify : payload_t -> status_t;
  decode_advances : forall t bs p n,
    decode t bs = Parsed p n -> 0 < n <= length bs
}.

Definition is_null {A} (p : option A) : bool :=
  match p with None => true | Some _ => false end.

(** *** linked_list_t, as message.c uses it *)

Definition get_count (l : list addr) : nat := length l.

Definition get_last (l : list addr) : status_t * option addr :=
  match last l with
  | Some a => (SUCCESS, Some a)
  | None => (NOT_FOUND, None)
  end.

Definition insert_last (l : list addr) (a : addr) : M (status_t * list addr) :=
  let* ok := allocator_alloc in
  if ok then ret (SUCCESS, l ++ [a]) else ret (OUT_OF_RES, l).

Definition create_iterator : M status_t :=
  let* ok := allocator_alloc in
  if ok then ret SUCCESS else ret OUT_OF_RES.

(** *** ike_header_t *)

(** Modelled from the spec: a new header carries protocol version 2.0 and
    nothing else. *)
Definition ike_header_default : ike_header_t :=
  IkeHeader 0 0 NO_PAYLOAD 2 0 EXCHANGE_TYPE_UNDEFINED false false 0.

Definition ike_header_create : M (option addr) :=
  let* ok := allocator_alloc in
  if ok then let* a := new_object (Header ike_header_default) in ret (Some a)
  else ret None.

Definition header_load (a : addr) : M ike_header_t :=
  let* p := load a in
  match p with
  | Header h => ret h
  | Body _ => crash BAD_CAST
  end.

Definition header_update (a : addr) (f : ike_header_t -> ike_header_t) : M unit :=
  let* h := header_load a in store a (Header (f h)).

Definition set_hdr_exchange_type (e : exchange_type_t) (h : ike_header_t) : ike_header_t :=
  IkeHeader (hdr_initiator_spi h) (hdr_responder_spi h) (hdr_next_payload h)
    (hdr_maj_version h) (hdr_min_version h) e (hdr_initiator_flag h)
    (hdr_response_flag h) (hdr_message_id h).

Definition set_hdr_message_id (i : Z) (h : ike_header_t) : ike_header_t :=
  IkeHeader (hdr_initiator_spi h) (hdr_responder_spi h) (hdr_next_payload h)
    (hdr_maj_version h) (hdr_min_version h) (hdr_exchange_type h)
    (hdr_initiator_flag h) (hdr_response_flag h) i.

Definition set_hdr_response_flag (b : bool) (h : ike_header_t) : ike_header_t :=
  IkeHeader (hdr_initiator_spi h) (hdr_responder_spi h) (hdr_next_payload h)
    (hdr_maj_version h) (hdr_min_version h) (hdr_exchange_type h)
    (hdr_initiator_flag h) b (hdr_message_id h).

Definition set_hdr_initiator_flag (b : bool) (h : ike_header_t) : ike_header_t :=
  IkeHeader (hdr_initiator_spi h) (hdr_responder_spi h) (hdr_next_payload h)
    (hdr_maj_version h) (hdr_min_version h) (hdr_exchange_type h)
    b (hdr_response_flag h) (hdr_message_id h).

Definition set_hdr_initiator_spi (s : Z) (h : ike_header_t) : ike_header_t :=
  IkeHeader s (hdr_responder_spi h) (hdr_next_payload h)
    (hdr_maj_version h) (hdr_min_version h) (hdr_exchange_type h)
    (hdr_initiator_flag h) (hdr_response_flag h) (hdr_message_id h).

Definition set_hdr_responder_spi (s : Z) (h : ike_header_t) : ike_header_t :=
  IkeHeader (hdr_initiator_spi h) s (hdr_next_payload h)
    (hdr_maj_version h) (hdr_min_version h) (hdr_exchange_type h)
    (hdr_initiator_flag h) (hdr_response_flag h) (hdr_message_id h).

(** *** packet_t *)

Definition packet_create : M (option packet_t) :=
  let* ok := allocator_alloc in
  if ok then ret (Some (Packet None None None)) else ret None.

(** [packet->clone(packet, &other)]: [other] is written on success only. *)
Definition packet_clone (p : packet_t) : M (status_t * option packet_t) :=
  let* ok := allocator_alloc in
  if ok then ret (SUCCESS, Some p) else ret (OUT_OF_RES, None).

(** *** Field updates of the message *)

Definition with_first_payload (t : payload_type_t) (m : private_message_t) :=
  Message (major_version m) (minor_version m) t (exchange_type m) (is_request m)
    (message_id m) (ike_sa_id m) (packet m) (payloads m) (parser m).

Definition with_ike_sa_id (i : option addr) (m : private_message_t) :=
  Message (major_version m) (minor_version m) (first_payload m) (exchange_type m)
    (is_request m) (message_id m) i (packet m) (payloads m) (parser m).

Definition with_packet (p : packet_t) (m : private_message_t) :=
  Message (major_version m) (minor_version m) (first_payload m) (exchange_type m)
    (is_request m) (message_id m) (ike_sa_id m) p (payloads m) (parser m).

Definition with_payloads (l : list addr) (m : private_message_t) :=
  Message (major_version m) (minor_version m) (first_payload m) (exchange_type m)
    (is_request m) (message_id m) (ike_sa_id m) (packet m) l (parser m).

Definition with_parser (p : parser_t) (m : private_message_t) :=
  Message (major_version m) (minor_version m) (first_payload m) (exchange_type m)
    (is_request m) (message_id m) (ike_sa_id m) (packet m) (payloads m) p.

Definition with_data (d : option (list Byte.byte)) (p : packet_t) :=
  Packet (source p) (destination p) d.

(** ** message.c *)

Section Message.

Context {col : Collaborators}.

(** *** generator_t and parser_t *)

(** Modelled from the spec: the generator accumulates serialized bytes. *)
Definition generator_t := list Byte.byte.

Definition generator_create : M (option generator_t) :=
  let* ok := allocator_alloc in
  if ok then ret (Some []) else ret None.

Definition generate_payload (g : generator_t) (p : payload_t) : status_t * generator_t :=
  let '(status, bytes) := encode p in (status, g ++ bytes).

Definition write_to_chunk (g : generator_t) : M (status_t * option (list Byte.byte)) :=
  let* ok := allocator_alloc in
  if ok then ret (SUCCESS, Some g) else ret (OUT_OF_RES, None).

Definition chunk_bytes (d : option (list Byte.byte)) : list Byte.byte :=
  match d with Some bs => bs | None => [] end.

Definition parser_create (d : option (list Byte.byte)) : M (option parser_t) :=
  let* ok := allocator_alloc in
  if ok then ret (Some (Parser (chunk_bytes d) 0)) else ret None.

Definition reset_context (ps : parser_t) : parser_t := Parser (input ps) 0.

(** [parser->parse_payload(parser, type, &payload)]: the status, the
    out-parameter (written on success only) and the parser afterwards. *)
Definition parse_payload (ps : parser_t) (t : payload_type_t)
  : M (status_t * option addr * parser_t) :=
  match decode t (drop (position ps) (input ps)) with
  | Parsed p n =>
      let* a := new_object p in
      ret (SUCCESS, Some a, Parser (input ps) (position ps + n))
  | Rejected s => ret (s, None, ps)
  end.

(** *** get_supported_payloads *)

Fixpoint find_rule (rules : list message_rule_t) (e : exchange_type_t) (r : bool)
  : status_t * list supported_payload_entry_t :=
  match rules with
  | [] => (NOT_FOUND, [])
  | rule :: rest =>
      if bool_decide (e = rule_exchange_type rule) && eqb r (rule_is_request rule)
      then (SUCCESS, supported_payloads rule)
      else find_rule rest e r
  end.

Definition get_supported_payloads (this : private_message_t)
  : status_t * list supported_payload_entry_t :=
  find_rule message_rules (exchange_type this) (is_request this).

(** *** Accessors *)

Definition this_ike_sa_id (this : private_message_t) : M ike_sa_id_t :=
  match ike_sa_id this with
  | None => crash NULL_POINTER
  | Some a => sa_load a
  end.

Definition set_ike_sa_id (this : private_message_t) (id : option addr)
  : M (status_t * private_message_t) :=
  match id with
  | None => crash NULL_POINTER
  | Some a =>
      let* (status, c) := ike_sa_id_clone a in
      match c with
      | Some a' => ret (status, with_ike_sa_id (Some a') this)
      | None => ret (status, this)
      end
  end.

Definition get_ike_sa_id (this : private_message_t) : M (status_t * option addr) :=
  match ike_sa_id this with
  | None => ret (FAILED, None)
  | Some a => ike_sa_id_clone a
  end.

Definition set_message_id (this : private_message_t) (id : Z) : status_t * private_message_t :=
  (SUCCESS,
   Message (major_version this) (minor_version this) (first_payload this)
     (exchange_type this) (is_request this) id (ike_sa_id this) (packet this)
     (payloads this) (parser this)).

Definition get_message_id (this : private_message_t) : Z := message_id this.

Definition set_major_version (this : private_message_t) (v : Z)
  : status_t * private_message_t :=
  (SUCCESS,
   Message v (minor_version this) (first_payload this) (exchange_type this)
     (is_request this) (message_id this) (ike_sa_id this) (packet this)
     (payloads this) (parser this)).

Definition get_major_version (this : private_message_t) : Z := major_version this.

Definition set_minor_version (this : private_message_t) (v : Z)
  : status_t * private_message_t :=
  (SUCCESS,
   Message (major_version this) v (first_payload this) (exchange_type this)
     (is_request this) (message_id this) (ike_sa_id this) (packet this)
     (payloads this) (parser this)).

Definition get_minor_version (this : private_message_t) : Z := minor_version this.

Definition set_exchange_type (this : private_message_t) (e : exchange_type_t)
  : status_t * private_message_t :=
  (SUCCESS,
   Message (major_version this) (minor_version this) (first_payload this)
     e (is_request this) (message_id this) (ike_sa_id this) (packet this)
     (payloads this) (parser this)).

Definition get_exchange_type (this : private_message_t) : exchange_type_t :=
  exchange_type this.

Definition set_request (this : private_message_t) (request : bool)
  : status_t * private_message_t :=
  (SUCCESS,
   Message (major_version this) (minor_version this) (first_payload this)
     (exchange_type this) request (message_id this) (ike_sa_id this) (packet this)
     (payloads this) (parser this)).

Definition get_request (this : private_message_t) : bool := is_request this.

Definition set_source (this : private_message_t) (host : option host_t)
  : status_t * private_message_t :=
  (SUCCESS,
   with_packet (Packet host (destination (packet this)) (data (packet this))) this).

Definition set_destination (this : private_message_t) (host : option host_t)
  : status_t * private_message_t :=
  (SUCCESS,
   with_packet (Packet (source (packet this)) host (data (packet this))) this).

Definition get_source (this : private_message_t) : status_t * option host_t :=
  (SUCCESS, source (packet this)).

Definition get_destination (this : private_message_t) : status_t * option host_t :=
  (SUCCESS, destination (packet this)).

(** The iterator is over the chain as it is when asked for. *)
Definition get_payload_iterator (this : private_message_t) : M (status_t * list addr) :=
  let* status := create_iterator in ret (status, payloads this).

(** *** add_payload *)

Definition add_payload (this : private_message_t) (payload : addr)
  : M (status_t * private_message_t) :=
  let '(got, last_payload) :=
    if 0 <? get_count (payloads this) then get_last (payloads this)
    else (SUCCESS, None) in
  if (0 <? get_count (payloads this)) && negb (bool_decide (got = SUCCESS))
  then ret (OUT_OF_RES, this)
  else
    let* (inserted, l) := insert_last (payloads this) payload in
    if negb (bool_decide (inserted = SUCCESS)) then ret (OUT_OF_RES, this)
    else
      let* p := load payload in
      let* this' :=
        if get_count l =? 1
        then ret (with_first_payload (get_type p) (with_payloads l this))
        else
          match last_payload with
          | Some lp =>
              set_next_type lp (get_type p);;
              ret (with_payloads l this)
          | None => crash UNSET_RESULT
          end in
      logger_log [CONTROL; MORE] "added payload of type %s to message"
        [ArgType (get_type p)];;
      ret (SUCCESS, this').

(** *** generate *)

(** The [while (iterator->has_next(iterator))] loop: [it] is what the
    iterator still has to visit, [payload] the object to serialize next. *)
Fixpoint generate_loop (it : list addr) (payload : addr) (generator : generator_t)
  : M (status_t * addr * generator_t) :=
  match it with
  | [] => ret (SUCCESS, payload, generator)
  | next_payload :: it' =>
      let* np := load next_payload in
      set_next_type payload (get_type np);;
      let* p := load payload in
      let '(status, generator') := generate_payload generator p in
      if negb (bool_decide (status = SUCCESS))
      then ret (status, payload, generator')
      else generate_loop it' next_payload generator'
  end.

Definition generate (this : private_message_t)
  : M (status_t * private_message_t * option packet_t) :=
  logger_log [CONTROL] "generating message, contains %d payloads"
    [ArgCount (get_count (payloads this))];;
  if bool_decide (exchange_type this = EXCHANGE_TYPE_UNDEFINED) then
    logger_log [ERROR] "exchange type is not defined" [];;
    ret (INVALID_STATE, this, None)
  else if is_null (source (packet this)) || is_null (destination (packet this)) then
    logger_log [ERROR] "source/destination not defined" [];;
    ret (INVALID_STATE, this, None)
  else
    let* created := ike_header_create in
    match created with
    | None => ret (OUT_OF_RES, this, None)
    | Some ike_header =>
        header_update ike_header (set_hdr_exchange_type (exchange_type this));;
        header_update ike_header (set_hdr_message_id (message_id this));;
        header_update ike_header (set_hdr_response_flag (negb (is_request this)));;
        let* id := this_ike_sa_id this in
        header_update ike_header (set_hdr_initiator_flag (sa_is_initiator id));;
        let* id := this_ike_sa_id this in
        header_update ike_header (set_hdr_initiator_spi (sa_initiator_spi id));;
        let* id := this_ike_sa_id this in
        header_update ike_header (set_hdr_responder_spi (sa_responder_spi id));;
        let* made := generator_create in
        match made with
        | None => ret (OUT_OF_RES, this, None)
        | Some generator =>
            let* iterating := create_iterator in
            if negb (bool_decide (iterating = SUCCESS)) then
              payload_destroy ike_header;;
              ret (OUT_OF_RES, this, None)
            else
              let* (status, payload, generator) :=
                generate_loop (payloads this) ike_header generator in
              if negb (bool_decide (status = SUCCESS)) then
                payload_destroy ike_header;;
                ret (status, this, None)
              else
                set_next_type payload NO_PAYLOAD;;
                let* p := load payload in
                let '(status, generator) := generate_payload generator p in
                if negb (bool_decide (status = SUCCESS)) then
                  payload_destroy ike_header;;
                  ret (status, this, None)
                else
                  payload_destroy ike_header;;
                  (* the old buffer of the packet is freed here *)
                  let* (status, chunk) := write_to_chunk generator in
                  let this' := with_packet (with_data chunk (packet this)) this in
                  if negb (bool_decide (status = SUCCESS)) then
                    ret (status, this', None)
                  else
                    let* (_, copy) := packet_clone (packet this') in
                    logger_log [CONTROL] "message generated successfully" [];;
                    ret (SUCCESS, this', copy)
        end
    end.

(** *** parse_header *)

Definition parse_header (this : private_message_t) : M (status_t * private_message_t) :=
  logger_log [CONTROL] "parsing header of message" [];;
  let* (status, parsed_header, ps) := parse_payload (reset_context (parser this)) HEADER in
  let this := with_parser ps this in
  if negb (bool_decide (status = SUCCESS)) then
    logger_log [ERROR] "Header could not be parsed" [];;
    ret (status, this)
  else
    match parsed_header with
    | None => crash UNSET_RESULT
    | Some ike_header =>
        let* h := load ike_header in
        let status := verify h in
        if negb (bool_decide (status = SUCCESS)) then
          logger_log [ERROR] "Header verification failed" [];;
          payload_destroy ike_header;;
          ret (status, this)
        else
          match ike_sa_id this with
          | Some old => sa_destroy old
          | None => ret tt
          end;;
          let* h := header_load ike_header in
          let* id := ike_sa_id_create (hdr_initiator_spi h) (hdr_responder_spi h)
                       (hdr_initiator_flag h) in
          let this := with_ike_sa_id id this in
          match id with
          | None =>
              logger_log [ERROR] "could not create ike_sa_id object" [];;
              payload_destroy ike_header;;
              ret (OUT_OF_RES, this)
          | Some _ =>
              let* h := header_load ike_header in
              let this :=
                Message (hdr_maj_version h) (hdr_min_version h) (hdr_next_payload h)
                  (hdr_exchange_type h) (negb (hdr_response_flag h)) (hdr_message_id h)
                  (ike_sa_id this) (packet this) (payloads this) (parser this) in
              logger_log [CONTROL] "parsing header successfully" [];;
              payload_destroy ike_header;;
              ret (SUCCESS, this)
          end
    end.

(** *** parse_body *)

(** The [for] loop that looks the current type up in the supported entries. *)
Fixpoint is_supported (supported : list supported_payload_entry_t) (t : payload_type_t) : bool :=
  match supported with
  | [] => false
  | e :: rest => if bool_decide (payload_type e = t) then true else is_supported rest t
  end.

(** The [while (current_payload_type != NO_PAYLOAD)] loop.  A round that
    goes on to the next has taken at least one byte from the parser, so one
    more than the number of bytes left bounds the rounds: [fuel] is such a
    bound. *)
Fixpoint parse_loop (fuel : nat) (supported : list supported_payload_entry_t)
    (current_payload_type : payload_type_t) (this : private_message_t)
  : M (status_t * private_message_t) :=
  if bool_decide (current_payload_type = NO_PAYLOAD) then ret (SUCCESS, this)
  else
    match fuel with
    | 0 => crash OUT_OF_FUEL
    | S fuel' =>
        logger_log [CONTROL; MORE] "start parsing payload of type %s"
          [ArgType current_payload_type];;
        if negb (is_supported supported current_payload_type)
           && negb (bool_decide (current_payload_type = NO_PAYLOAD))
        then
          logger_log [ERROR] "payload type %s not supported" [ArgType current_payload_type];;
          ret (NOT_SUPPORTED, this)
        else
          let* (status, parsed_payload, ps) := parse_payload (parser this) current_payload_type in
          let this := with_parser ps this in
          if negb (bool_decide (status = SUCCESS)) then
            logger_log [ERROR] "payload type %s could not be parsed"
              [ArgType current_payload_type];;
            ret (status, this)
          else
            match parsed_payload with
            | None => crash UNSET_RESULT
            | Some current_payload =>
                let* p := load current_payload in
                if negb (bool_decide (verify p = SUCCESS)) then
                  logger_log [ERROR] "payload type %s could not be verified"
                    [ArgType current_payload_type];;
                  ret (VERIFY_ERROR, this)
                else
                  let* (status, l) := insert_last (payloads this) current_payload in
                  let this := with_payloads l this in
                  if negb (bool_decide (status = SUCCESS)) then
                    logger_log [ERROR]
                      "Could not insert current payload to internal list cause of ressource exhausting" [];;
                    ret (status, this)
                  else parse_loop fuel' supported (get_next_type p) this
            end
    end.

(** The inner [while] of the occurrence check: one pass of the iterator over
    the chain for one payload type. *)
Fixpoint count_payloads (it : list addr) (type : payload_type_t)
    (max_occurence found_payloads : nat) : M (status_t * nat) :=
  match it with
  | [] => ret (SUCCESS, found_payloads)
  | a :: it' =>
      let* current_payload := load a in
      if bool_decide (get_type current_payload = type) then
        let found_payloads := S found_payloads in
        if max_occurence <? found_payloads then
          logger_log [ERROR]
            "Payload of type %s more than %d times (%d) occured in current message"
            [ArgType (get_type current_payload); ArgCount max_occurence;
             ArgCount found_payloads];;
          ret (NOT_SUPPORTED, found_payloads)
        else count_payloads it' type max_occurence found_payloads
      else count_payloads it' type max_occurence found_payloads
  end.

(** The outer [for] of the occurrence check, over the supported entries. *)
Fixpoint check_occurences (supported : list supported_payload_entry_t) (chain : list addr)
  : M status_t :=
  match supported with
  | [] => ret SUCCESS
  | e :: rest =>
      let* (status, found_payloads) :=
        count_payloads chain (payload_type e) (max_occurence e) 0 in
      if negb (bool_decide (status = SUCCESS)) then ret status
      else if found_payloads <? min_occurence e then
        logger_log [ERROR] "Payload of type %s not occured %d times"
          [ArgType (payload_type e); ArgCount (min_occurence e)];;
        ret NOT_SUPPORTED
      else check_occurences rest chain
  end.

Definition bytes_left (ps : parser_t) : nat := length (input ps) - position ps.

Definition parse_body (this : private_message_t) : M (status_t * private_message_t) :=
  let current_payload_type := first_payload this in
  logger_log [CONTROL] "parsing body of message" [];;
  let '(found, supported) := get_supported_payloads this in
  if negb (bool_decide (found = SUCCESS)) then
    logger_log [ERROR] "could not get supported payloads" [];;
    ret (FAILED, this)
  else
    let* (status, this) :=
      parse_loop (S (bytes_left (parser this))) supported current_payload_type this in
    if negb (bool_decide (status = SUCCESS)) then ret (status, this)
    else
      let* status := create_iterator in
      if negb (bool_decide (status = SUCCESS)) then
        logger_log [ERROR] "Could not create iterator to check supported payloads" [];;
        ret (status, this)
      else
        let* status := check_occurences supported (payloads this) in
        ret (status, this).

(** *** destroy *)

(** The [while (iterator->has_next(iterator))] loop of [destroy]. *)
Fixpoint destroy_payloads (it : list addr) : M unit :=
  match it with
  | [] => ret tt
  | a :: it' =>
      let* payload := load a in
      logger_log [CONTROL; MOST] "Destroying payload of type %s"
        [ArgType (get_type payload)];;
      payload_destroy a;;
      destroy_payloads it'
  end.

(** The packet, the list, the parser and the logger are values of the
    message here: destroying them leaves no trace in the store.  The status
    of [create_iterator] is not looked at; when the iterator was refused,
    [has_next] is called on a pointer nobody wrote. *)
Definition destroy (this : private_message_t) : M status_t :=
  match ike_sa_id this with
  | Some id => sa_destroy id
  | None => ret tt
  end;;
  let* created := create_iterator in
  if negb (bool_decide (created = SUCCESS)) then crash UNSET_RESULT
  else
    destroy_payloads (payloads this);;
    ret SUCCESS.

(** *** Constructors *)

(** The two version fields are left as allocated; the embedding reads 0. *)
Definition message_create_from_packet (given : option packet_t)
  : M (option private_message_t) :=
  let* ok := allocator_alloc in
  if negb ok then ret None
  else
    let* packet :=
      match given with
      | None => packet_create
      | Some p => ret (Some p)
      end in
    match packet with
    | None => ret None
    | Some packet =>
        let* ok := allocator_alloc in          (* linked_list_create *)
        if negb ok then ret None
        else
          let* made := parser_create (data packet) in
          match made with
          | None => ret None
          | Some parser =>
              let* ok := allocator_alloc in    (* create_logger *)
              if negb ok then ret None
              else
                ret (Some (Message 0 0 NO_PAYLOAD EXCHANGE_TYPE_UNDEFINED true 0
                             None packet [] parser))
          end
    end.

Definition message_create : M (option private_message_t) :=
  message_create_from_packet None.

End Message.


(** ** Auxiliary notions for the statements *)

(** The live object at an address, if any. *)
Definition object_at (w : world) (a : addr) : option payload_t :=
  match objects w !! a with
  | Some (Some p) => Some p
  | _ => None
  end.

Definition sa_at (w : world) (a : addr) : option ike_sa_id_t :=
  match sa_ids w !! a with
  | Some (Some s) => Some s
  | _ => None
  end.

(** The objects a chain of addresses points at. *)
Definition chain_objects (w : world) (chain : list addr) (objs : list payload_t) : Prop :=
  Forall2 (fun a o => object_at w a = Some o) chain objs.

(** The linkage of a chain: every element records the type of its successor,
    the last one [NO_PAYLOAD]. *)
Fixpoint chain_linked (w : world) (chain : list addr) : Prop :=
  match chain with
  | [] => True
  | a :: rest =>
      get_next_type <$> object_at w a =
        match rest with
        | [] => Some NO_PAYLOAD
        | b :: _ => get_type <$> object_at w b
        end
      /\ is_Some (object_at w a)
      /\ chain_linked w rest
  end.

(** No request to the allocator is refused. *)
Definition no_denials (w : world) : Prop := Forall (fun b => b = true) (grants w).

Definition add_log (entries : list log_entry) (w : world) : world :=
  World (objects w) (sa_ids w) (grants w) (log w ++ entries).

Definition update_object (a : addr) (p : option payload_t) (w : world) : world :=
  World (<[a := p]> (objects w)) (sa_ids w) (grants w) (log w).

(** All but the last of a chain, each relinked to its successor. *)
Fixpoint linked_prefix (cur : payload_t) (rest : list payload_t) : list payload_t :=
  match rest with
  | [] => []
  | n :: rest' => payload_set_next_type (get_type n) cur :: linked_prefix n rest'
  end.

Fixpoint link_chain (objs : list payload_t) : list payload_t :=
  match objs with
  | [] => []
  | o :: rest =>
      payload_set_next_type
        (match rest with [] => NO_PAYLOAD | n :: _ => get_type n end) o
      :: link_chain rest
  end.

(** The adjacent part of the linkage of a chain of payloads: every payload
    but the last records the type of its successor. *)
Fixpoint adjacent_linked (objs : list payload_t) : Prop :=
  match objs with
  | [] => True
  | o :: rest =>
      match rest with
      | [] => True
      | n :: _ => get_next_type o = get_type n
      end
      /\ adjacent_linked rest
  end.

(** A chain of payloads with the next-type of its last element set to [t]:
    what [add_payload] does to the chain it appends to. *)
Fixpoint relink_last (t : payload_type_t) (objs : list payload_t) : list payload_t :=
  match objs with
  | [] => []
  | o :: rest =>
      match rest with
      | [] => [payload_set_next_type t o]
      | _ :: _ => o :: relink_last t rest
      end
  end.

(** The header [generate] builds before it links it to the chain. *)
Definition generated_header (this : private_message_t) (id : ike_sa_id_t) : ike_header_t :=
  IkeHeader (sa_initiator_spi id) (sa_responder_spi id) NO_PAYLOAD 2 0
    (exchange_type this) (sa_is_initiator id) (negb (is_request this)) (message_id this).

(** The first [n] requests to the allocator are granted. *)
Definition granted (n : nat) (w : world) : Prop :=
  Forall (fun b => b = true) (take n (grants w)).

(** The bytes the generator writes for one payload. *)
Definition encoding {col : Collaborators} (o : payload_t) : list Byte.byte := (encode o).2.

(** A computation that never ends in the fault [f]. *)
Definition never {A} (f : fault) (m : M A) : Prop := forall w, m w <> Fault f.

(** What the parser finds in its buffer: asked for type [t] it yields the
    payloads [objs] one after the other, each of an admissible type and
    passing [verify], each naming the type of the next, the last one
    [NO_PAYLOAD]; it is left in state [ps_end]. *)
Fixpoint decodes_chain {col : Collaborators} (supported : list supported_payload_entry_t)
    (ps : parser_t) (t : payload_type_t) (objs : list payload_t) (ps_end : parser_t) : Prop :=
  match objs with
  | [] => t = NO_PAYLOAD /\ ps_end = ps
  | o :: rest =>
      t <> NO_PAYLOAD
      /\ is_supported supported t = true
      /\ exists n,
           decode t (drop (position ps) (input ps)) = Parsed o n
           /\ verify o = SUCCESS
           /\ decodes_chain supported (Parser (input ps) (position ps + n))
                (get_next_type o) rest ps_end
  end.

(** The types [parse_loop] asks the parser for on such a buffer. *)
Fixpoint expected_types (t : payload_type_t) (objs : list payload_t) : list payload_type_t :=
  match objs with
  | [] => []
  | o :: rest => t :: expected_types (get_next_type o) rest
  end.

Definition start_entry (t : payload_type_t) : log_entry :=
  Log [CONTROL; MORE] "start parsing payload of type %s" [ArgType t].

(** How often a type occurs among the types of a chain. *)
Fixpoint occurrences (t : payload_type_t) (types : list payload_type_t) : nat :=
  match types with
  | [] => 0
  | x :: rest => (if bool_decide (x = t) then 1 else 0) + occurrences t rest
  end.

Definition too_many (e : supported_payload_entry_t) : log_entry :=
  Log [ERROR] "Payload of type %s more than %d times (%d) occured in current message"
    [ArgType (payload_type e); ArgCount (max_occurence e); ArgCount (S (max_occurence e))].

Definition too_few (e : supported_payload_entry_t) : log_entry :=
  Log [ERROR] "Payload of type %s not occured %d times"
    [ArgType (payload_type e); ArgCount (min_occurence e)].

(** The first entry of the rule, in table order, that the types of a chain
    violate, as the error the occurrence check logs for it. *)
Fixpoint rules_verdict (supported : list supported_payload_entry_t)
    (types : list payload_type_t) : option log_entry :=
  match supported with
  | [] => None
  | e :: rest =>
      if max_occurence e <? occurrences (payload_type e) types then Some (too_many e)
      else if occurrences (payload_type e) types <? min_occurence e then Some (too_few e)
      else rules_verdict rest types
  end.

(** The entries of a log that were written at level [ERROR]. *)
Definition errors (l : list log_entry) : list log_entry :=
  filter (fun e => log_level e = [ERROR]) l.

Definition verdict_status (v : option log_entry) : status_t :=
  match v with None => SUCCESS | Some _ => NOT_SUPPORTED end.

Definition verdict_log (v : option log_entry) : list log_entry :=
  match v with None => [] | Some e => [e] end.

(** The codec contract for one payload: the generator accepts it, [verify]
    accepts it, and the parser reads it back from any buffer that starts
    with its encoding. *)
Definition round_trips {col : Collaborators} (o : payload_t) : Prop :=
  (encode o).1 = SUCCESS
  /\ verify o = SUCCESS
  /\ forall rest, decode (get_type o) (encoding o ++ rest) = Parsed o (length (encoding o)).

(** The type a chain starts with. *)
Definition first_type (objs : list payload_t) : payload_type_t :=
  match objs with
  | [] => NO_PAYLOAD
  | o :: _ => get_type o
  end.

Definition body_entry : log_entry := Log [CONTROL] "parsing body of message" [].

(** The front of what the parser finds: asked for type [t] it yields the
    payloads [objs], each admissible and verified; it is then in state
    [ps_mid] and the type named next is [t_mid]. *)
Fixpoint decodes_prefix {col : Collaborators} (supported : list supported_payload_entry_t)
    (ps : parser_t) (t : payload_type_t) (objs : list payload_t)
    (ps_mid : parser_t) (t_mid : payload_type_t) : Prop :=
  match objs with
  | [] => t_mid = t /\ ps_mid = ps
  | o :: rest =>
      t <> NO_PAYLOAD
      /\ is_supported supported t = true
      /\ exists n,
           decode t (drop (position ps) (input ps)) = Parsed o n
           /\ verify o = SUCCESS
           /\ decodes_prefix supported (Parser (input ps) (position ps + n))
                (get_next_type o) rest ps_mid t_mid
  end.

(** The message and the store after [parse_loop] has taken [objs]. *)
Definition after_parsing (objs : list payload_t) (ps : parser_t)
    (this : private_message_t) (w : world) : private_message_t :=
  with_payloads (payloads this ++ seq (length (objects w)) (length objs))
    (with_parser ps this).

Definition store_after_parsing (objs : list payload_t) (entries : list log_entry)
    (w : world) : world :=
  World (objects w ++ map Some objs) (sa_ids w) (drop (length objs) (grants w))
    (log w ++ entries).

(** The line [destroy] logs for a payload. *)
Definition destroy_entry (o : payload_t) : log_entry :=
  Log [CONTROL; MOST] "Destroying payload of type %s" [ArgType (get_type o)].

(** The opening line of [generate]. *)
Definition generating_entry (this : private_message_t) : log_entry :=
  Log [CONTROL] "generating message, contains %d payloads"
    [ArgCount (length (payloads this))].

(** ** A reference codec

    A small generator/parser pair in the wire format of the message
    specification, used to run the model on concrete messages: the fixed
    header of 28 bytes, and for every other payload the generic payload
    header (next type, reserved byte, length on two bytes) followed by the
    body. *)

Module Demo.

Definition byte_of_Z (z : Z) : Byte.byte :=
  match Byte.of_N (Z.to_N (z mod 256)) with
  | Some b => b
  | None => Byte.x00
  end.

Definition Z_of_byte (b : Byte.byte) : Z := Z.of_N (Byte.to_N b).

(** [n] bytes of [z], most significant first. *)
Fixpoint be_bytes (n : nat) (z : Z) : list Byte.byte :=
  match n with
  | 0 => []
  | S n' => be_bytes n' (z / 256) ++ [byte_of_Z z]
  end.

Definition be_value (bs : list Byte.byte) : Z :=
  fold_left (fun acc b => acc * 256 + Z_of_byte b)%Z bs 0%Z.

Definition payload_type_code (t : payload_type_t) : Z :=
  match t with
  | NO_PAYLOAD => 0
  | SECURITY_ASSOCIATION => 33
  | KEY_EXCHANGE => 34
  | NONCE => 40
  | HEADER => 140
  | PAYLOAD_TYPE_OTHER c => Z.of_N c
  end.

Definition payload_type_of_code (c : Z) : payload_type_t :=
  if (c =? 0)%Z then NO_PAYLOAD
  else if (c =? 33)%Z then SECURITY_ASSOCIATION
  else if (c =? 34)%Z then KEY_EXCHANGE
  else if (c =? 40)%Z then NONCE
  else if (c =? 140)%Z then HEADER
  else PAYLOAD_TYPE_OTHER (Z.to_N c).

Definition exchange_type_code (e : exchange_type_t) : Z :=
  match e with
  | EXCHANGE_TYPE_UNDEFINED => 255
  | IKE_SA_INIT => 34
  | EXCHANGE_TYPE_OTHER c => Z.of_N c
  end.

Definition exchange_type_of_code (c : Z) : exchange_type_t :=
  if (c =? 255)%Z then EXCHANGE_TYPE_UNDEFINED
  else if (c =? 34)%Z then IKE_SA_INIT
  else EXCHANGE_TYPE_OTHER (Z.to_N c).

Definition flags_byte (initiator response : bool) : Z :=
  ((if initiator then 8 else 0) + (if response then 32 else 0))%Z.

Definition demo_encode (p : payload_t) : status_t * list Byte.byte :=
  match p with
  | Header h =>
      (SUCCESS,
       be_bytes 8 (hdr_initiator_spi h) ++ be_bytes 8 (hdr_responder_spi h)
       ++ [byte_of_Z (payload_type_code (hdr_next_payload h));
           byte_of_Z (hdr_maj_version h * 16 + hdr_min_version h);
           byte_of_Z (exchange_type_code (hdr_exchange_type h));
           byte_of_Z (flags_byte (hdr_initiator_flag h) (hdr_response_flag h))]
       ++ be_bytes 4 (hdr_message_id h) ++ be_bytes 4 0)
  | Body b =>
      if (65536 <=? Z.of_nat (4 + length (bp_data b)))%Z then (FAILED, [])
      else
        (SUCCESS,
         [byte_of_Z (payload_type_code (bp_next_type b)); Byte.x00]
         ++ be_bytes 2 (Z.of_nat (4 + length (bp_data b))) ++ bp_data b)
  end.

Definition demo_decode (t : payload_type_t) (bs : list Byte.byte) : parsed :=
  if bool_decide (t = HEADER) then
    if length bs <? 28 then Rejected PARSE_ERROR
    else
      let flags := Z_of_byte (nth 19 bs Byte.x00) in
      let version := Z_of_byte (nth 17 bs Byte.x00) in
      Parsed
        (Header
           (IkeHeader (be_value (take 8 bs)) (be_value (take 8 (drop 8 bs)))
              (payload_type_of_code (Z_of_byte (nth 16 bs Byte.x00)))
              (version / 16) (version mod 16)
              (exchange_type_of_code (Z_of_byte (nth 18 bs Byte.x00)))
              (Z.testbit flags 3) (Z.testbit flags 5)
              (be_value (take 4 (drop 20 bs)))))
        28
  else
    if length bs <? 4 then Rejected PARSE_ERROR
    else
      let len := Z.to_nat (be_value (take 2 (drop 2 bs))) in
      if (len <? 4) || (length bs <? len) then Rejected PARSE_ERROR
      else
        Parsed
          (Body
             (BodyPayload t (payload_type_of_code (Z_of_byte (nth 0 bs Byte.x00)))
                (take (len - 4) (drop 4 bs))))
          len.

(** The header is refused without an initiator SPI. *)
Definition demo_verify (p : payload_t) : status_t :=
  match p with
  | Header h => if (hdr_initiator_spi h =? 0)%Z then FAILED else SUCCESS
  | Body _ => SUCCESS
  end.

Lemma demo_decode_advances t bs p n :
  demo_decode t bs = Parsed p n -> 0 < n <= length bs.
Proof.
  unfold demo_decode.
  case_bool_decide.
  - destruct (length bs <? 28) eqn:Hlen; [discriminate|].
    apply Nat.ltb_ge in Hlen. intros [= _ <-]. lia.
  - destruct (length bs <? 4) eqn:Hlen; [discriminate|].
    destruct (_ || _) eqn:Hor; [discriminate|].
    apply orb_false_iff in Hor as [H4 Hl].
    apply Nat.ltb_ge in H4, Hl. intros [= _ <-]. lia.
Qed.

#[export] Instance codec : Collaborators :=
  {| encode := demo_encode;
     decode := demo_decode;
     verify := demo_verify;
     decode_advances := demo_decode_advances |}.

(** *** Sample messages *)

Definition sa_payload : payload_t :=
  Body (BodyPayload SECURITY_ASSOCIATION NO_PAYLOAD [Byte.x01]).
Definition ke_payload : payload_t :=
  Body (BodyPayload KEY_EXCHANGE NO_PAYLOAD [Byte.x02; Byte.x03]).
Definition nonce_payload : payload_t :=
  Body (BodyPayload NONCE NO_PAYLOAD [Byte.x04]).

Definition sample_id : ike_sa_id_t := IkeSaId 77 0 true.

Definition empty_world : world := World [] [] [] [].

(** A store with the three payloads of an IKE_SA_INIT message and one
    ike_sa_id. *)
Definition sample_world : world :=
  World [Some sa_payload; Some ke_payload; Some nonce_payload] [Some sample_id] [] [].

(** An outbound IKE_SA_INIT request over that store, as [add_payload] and the
    setters leave it. *)
Definition sample_request : private_message_t :=
  Message 0 0 SECURITY_ASSOCIATION IKE_SA_INIT true 5 (Some 0)
    (Packet (Some 1%N) (Some 2%N) None) [0; 1; 2] (Parser [] 0).

(** The bytes of a chain of payloads. *)
Definition body_bytes (objs : list payload_t) : list Byte.byte :=
  concat (map encoding (link_chain objs)).

(** An inbound IKE_SA_INIT request whose header has been read: what is left
    in the buffer is [bytes], the header named [first] as first payload. *)
Definition inbound (first : payload_type_t) (bytes : list Byte.byte) : private_message_t :=
  Message 2 0 first IKE_SA_INIT true 0 None (Packet None None (Some bytes)) []
    (Parser bytes 0).

(** The bytes of a header, for a message still to be parsed. *)
Definition sample_header : ike_header_t :=
  IkeHeader 77 0 NO_PAYLOAD 2 0 IKE_SA_INIT true false 5.

Definition unparsed (bytes : list Byte.byte) (id : option addr) : private_message_t :=
  Message 0 0 NO_PAYLOAD EXCHANGE_TYPE_UNDEFINED true 0 id
    (Packet None None (Some bytes)) [] (Parser bytes 0).

(** A message of an exchange without rule (IKE_AUTH, number 35). *)
Definition auth_request : private_message_t :=
  Message 2 0 SECURITY_ASSOCIATION (EXCHANGE_TYPE_OTHER 35) true 1 None
    (Packet None None None) [] (Parser [] 0).

Definition two_nonce_body : list payload_t :=
  [sa_payload; ke_payload; nonce_payload; nonce_payload].

Definition no_ke_body : list payload_t := [sa_payload; nonce_payload].


(** A message that has an ike_sa_id, bound to a well-formed header, in a
    store whose allocator refuses the next request. *)
Definition header_bytes : list Byte.byte := encoding (Header sample_header).


(** The sample request without its ike_sa_id. *)
Definition anonymous_request : private_message_t := with_ike_sa_id None sample_request.

(** An inbound request that already holds a NONCE payload, bound to a body
    that is valid by itself. *)
Definition full_body : list payload_t := [sa_payload; ke_payload; nonce_payload].

Definition nonce_world : world := World [Some nonce_payload] [] [] [].

Definition preloaded : private_message_t :=
  with_payloads [0] (inbound SECURITY_ASSOCIATION (body_bytes full_body)).

(** A body with SECURITY_ASSOCIATION twice, NONCE once and no KEY_EXCHANGE. *)
Definition sa_twice_body : list payload_t := [sa_payload; sa_payload; nonce_payload].

(** A KEY_EXCHANGE payload that names NONCE as its successor, and a message
    under construction that holds the SECURITY_ASSOCIATION payload only. *)
Definition ke_then_nonce : payload_t :=
  Body (BodyPayload KEY_EXCHANGE NONCE [Byte.x02; Byte.x03]).

Definition half_built_world : world :=
  World [Some sa_payload; Some ke_then_nonce] [Some sample_id] [] [].

Definition half_built : private_message_t :=
  Message 0 0 SECURITY_ASSOCIATION IKE_SA_INIT true 5 (Some 0)
    (Packet (Some 1%N) (Some 2%N) None) [0] (Parser [] 0).

(** The sample request with one payload object on its chain twice. *)
Definition aliased_request : private_message_t := with_payloads [0; 0] sample_request.

(** The reference parser reports its failures with a status other than
    [SUCCESS]. *)
Lemma demo_decode_status t bs : demo_decode t bs <> Rejected SUCCESS.
Proof. unfold demo_decode. repeat case_match; discriminate. Qed.

(** A stricter [verify]: a payload without body is refused. *)
Definition strict_verify (p : payload_t) : status_t :=
  match p with
  | Header h => demo_verify p
  | Body b => if bool_decide (bp_data b = []) then FAILED else SUCCESS
  end.

Definition strict_codec : Collaborators :=
  {| encode := demo_encode;
     decode := demo_decode;
     verify := strict_verify;
     decode_advances := demo_decode_advances |}.

(** The store [w] with the allocator answering [gr]. *)
Definition answering (gr : list bool) (w : world) : world :=
  World (objects w) (sa_ids w) gr (log w).

(** SECURITY_ASSOCIATION payloads that name a successor. *)
Definition sa_then (t : payload_type_t) : payload_t :=
  Body (BodyPayload SECURITY_ASSOCIATION t [Byte.x01]).

Definition empty_sa : payload_t := Body (BodyPayload SECURITY_ASSOCIATION NO_PAYLOAD []).

(** A response of an exchange without rule that holds NONCE before
    SECURITY_ASSOCIATION. *)
Definition odd_response : private_message_t :=
  Message 0 0 NONCE (EXCHANGE_TYPE_OTHER 35) false 9 (Some 0)
    (Packet (Some 1%N) (Some 2%N) None) [2; 0] (Parser [] 0).

End Demo.

(** ** Properties *)

Section Properties.

Context {col : Collaborators}.

(** *** The store *)
Lemma object_at_Some w a p : object_at w a = Some p <-> objects w !! a = Some (Some p).
Proof.
  unfold object_at. destruct (objects w !! a) as [[q|]|]; split; intros; simplify_eq; done.
Qed.

Lemma load_Done w a p : object_at w a = Some p -> load a w = Done p w.
Proof. intros H%object_at_Some. unfold load. by rewrite H. Qed.

Lemma load_inv w a p w' : load a w = Done p w' -> w' = w /\ object_at w a = Some p.
Proof.
  unfold load, object_at. destruct (objects w !! a) as [[q|]|]; intros; simplify_eq; done.
Qed.

Lemma store_Done w a p q :
  object_at w a = Some q -> store a p w = Done tt (update_object a (Some p) w).
Proof. intros H%object_at_Some. unfold store. by rewrite H. Qed.

Lemma payload_destroy_Done w a q :
  object_at w a = Some q -> payload_destroy a w = Done tt (update_object a None w).
Proof. intros H%object_at_Some. unfold payload_destroy. by rewrite H. Qed.

Lemma set_next_type_Done w a t p :
  object_at w a = Some p ->
  set_next_type a t w = Done tt (update_object a (Some (payload_set_next_type t p)) w).
Proof.
  intros H. unfold set_next_type, bind. rewrite (load_Done _ _ _ H).
  by apply store_Done with p.
Qed.

Lemma object_at_update_eq w a p q :
  object_at w a = Some q -> object_at (update_object a p w) a = p.
Proof.
  intros H%object_at_Some. unfold object_at, update_object; simpl.
  rewrite list_lookup_insert_eq; [by destruct p|]. by eapply lookup_lt_Some.
Qed.

Lemma object_at_update_ne w a b p :
  a <> b -> object_at (update_object a p w) b = object_at w b.
Proof.
  intros H. unfold object_at, update_object; simpl.
  by rewrite list_lookup_insert_ne.
Qed.

Lemma chain_objects_update w a p chain objs :
  a ∉ chain -> chain_objects w chain objs -> chain_objects (update_object a p w) chain objs.
Proof.
  intros Hni Hc. induction Hc as [|b o chain objs Hb Hc IH]; constructor.
  - rewrite object_at_update_ne; [done|]. intros ->. apply Hni. left.
  - apply IH. intros Hin. apply Hni. by right.
Qed.

Lemma get_type_set_next t p : get_type (payload_set_next_type t p) = get_type p.
Proof. by destruct p. Qed.

Lemma get_next_type_set_next t p : get_next_type (payload_set_next_type t p) = t.
Proof. by destruct p. Qed.

Lemma generate_payload_ok g p :
  (encode p).1 = SUCCESS -> generate_payload g p = (SUCCESS, g ++ encoding p).
Proof. unfold generate_payload, encoding. destruct (encode p) as [s bs]; simpl. by intros ->. Qed.

Lemma last_cons {A} (l : list A) (a d : A) : List.last (a :: l) d = List.last l a.
Proof.
  revert a d. induction l as [|b l IH]; intros a d; [done|].
  change (List.last (a :: b :: l) d) with (List.last (b :: l) d).
  rewrite (IH b d), (IH b a). done.
Qed.

Lemma generate_loop_forward it : forall payload g w p0 objs,
  NoDup (payload :: it) ->
  object_at w payload = Some p0 ->
  chain_objects w it objs ->
  Forall (fun o => (encode o).1 = SUCCESS) (linked_prefix p0 objs) ->
  exists w',
    generate_loop it payload g w =
      Done (SUCCESS, List.last it payload,
            g ++ concat (map encoding (linked_prefix p0 objs))) w'
    /\ chain_objects w' (payload :: it) (linked_prefix p0 objs ++ [List.last objs p0])
    /\ (forall a, a ∉ payload :: it -> objects w' !! a = objects w !! a)
    /\ length (objects w') = length (objects w)
    /\ sa_ids w' = sa_ids w /\ grants w' = grants w /\ log w' = log w.
Proof.
  induction it as [|n it IH]; intros payload g w p0 objs Hnd Hp Hc Henc.
  - inversion Hc; subst. exists w. simpl. rewrite app_nil_r.
    repeat split; try done. by repeat constructor.
  - inversion Hc as [|? on ? objs' Hn Hc']; subst. simpl in Henc.
    apply Forall_cons in Henc as [Henc0 Henc].
    apply NoDup_cons in Hnd as [Hni Hnd].
    assert (payload <> n) as Hne by (intros ->; apply Hni; left).
    assert (payload ∉ it) as Hni' by (intros ?; apply Hni; by right).
    set (w1 := update_object payload (Some (payload_set_next_type (get_type on) p0)) w).
    destruct (IH n (g ++ encoding (payload_set_next_type (get_type on) p0)) w1 on objs')
      as (w' & Hrun & Hobjs & Hframe & Hlen & Hsa & Hgr & Hlog); try done.
    { unfold w1. by rewrite object_at_update_ne. }
    { by apply chain_objects_update. }
    exists w'. split; [|split; [|split; [|split]]].
    + rewrite last_cons. cbn [linked_prefix map concat generate_loop].
      unfold bind. rewrite (load_Done _ _ _ Hn).
      rewrite (set_next_type_Done _ _ _ _ Hp). fold w1.
      rewrite (load_Done w1 payload (payload_set_next_type (get_type on) p0)).
      2:{ unfold w1. by erewrite object_at_update_eq. }
      rewrite generate_payload_ok by done. simpl.
      rewrite Hrun. by rewrite <- app_assoc.
    + rewrite last_cons. cbn [linked_prefix app]. constructor; [|exact Hobjs].
      unfold object_at. rewrite Hframe.
      * fold (object_at w1 payload). unfold w1. by erewrite object_at_update_eq.
      * intros [->|?]%elem_of_cons; done.
    + intros a Ha. rewrite Hframe.
      * unfold w1, update_object; simpl. rewrite list_lookup_insert_ne; [done|].
        intros ->. apply Ha. left.
      * intros ?. apply Ha. by right.
    + rewrite Hlen. unfold w1, update_object; simpl. by rewrite length_insert.
    + done.
Qed.

Lemma chain_objects_update_inv w a p chain objs :
  a ∉ chain -> chain_objects (update_object a p w) chain objs -> chain_objects w chain objs.
Proof.
  intros Hni Hc. induction Hc as [|b o chain objs Hb Hc IH]; constructor.
  - rewrite object_at_update_ne in Hb; [done|]. intros ->. apply Hni. left.
  - apply IH. intros Hin. apply Hni. by right.
Qed.

Lemma generate_loop_success_inv it : forall payload g w p0 r w',
  object_at w payload = Some p0 ->
  NoDup (payload :: it) ->
  generate_loop it payload g w = Done r w' ->
  r.1.1 = SUCCESS ->
  exists objs,
    chain_objects w it objs
    /\ Forall (fun o => (encode o).1 = SUCCESS) (linked_prefix p0 objs).
Proof.
  induction it as [|n it IH]; intros payload g w p0 r w' Hp Hnd Hrun Hok.
  - exists []. split; constructor.
  - apply NoDup_cons in Hnd as [Hni Hnd].
    assert (payload <> n) as Hne by (intros ->; apply Hni; left).
    assert (payload ∉ it) as Hni' by (intros ?; apply Hni; by right).
    cbn [generate_loop] in Hrun. unfold bind in Hrun.
    destruct (load n w) as [on w0|] eqn:Hl; [|done].
    apply load_inv in Hl as [-> Hn].
    rewrite (set_next_type_Done _ _ _ _ Hp) in Hrun.
    set (w1 := update_object payload (Some (payload_set_next_type (get_type on) p0)) w) in *.
    rewrite (load_Done w1 payload (payload_set_next_type (get_type on) p0)) in Hrun.
    2:{ unfold w1. by erewrite object_at_update_eq. }
    unfold generate_payload in Hrun.
    destruct (encode (payload_set_next_type (get_type on) p0)) as [st bs] eqn:He.
    case_bool_decide as Hst; simpl in Hrun.
    + subst st. eapply IH in Hrun as (objs & Hc & Henc); try done.
      * exists (on :: objs). split.
        -- constructor; [done|]. by eapply chain_objects_update_inv.
        -- cbn [linked_prefix]. constructor; [by rewrite He|done].
      * unfold w1. by rewrite object_at_update_ne.
    + unfold ret in Hrun. by simplify_eq/=.
Qed.

Lemma granted_hd n g : Forall (fun b => b = true) (take (S n) g) -> hd true g = true.
Proof. destruct g as [|b g]; [done|]. simpl. by intros [-> _]%Forall_cons. Qed.

Lemma granted_tl n g :
  Forall (fun b => b = true) (take (S n) g) -> Forall (fun b => b = true) (take n (tl g)).
Proof.
  destruct g as [|b g]; simpl.
  - intros _. destruct n; constructor.
  - by intros [_ ?]%Forall_cons.
Qed.

Lemma no_denials_granted n w : no_denials w -> granted n w.
Proof. unfold no_denials, granted. intros H. by apply Forall_take. Qed.

Lemma sa_load_Done w s id : sa_at w s = Some id -> sa_load s w = Done id w.
Proof.
  unfold sa_at, sa_load. destruct (sa_ids w !! s) as [[q|]|]; intros; simplify_eq; done.
Qed.

Lemma header_update_fresh objs sas gr lg h f :
  header_update (length objs) f (World (objs ++ [Some (Header h)]) sas gr lg)
  = Done tt (World (objs ++ [Some (Header (f h))]) sas gr lg).
Proof.
  unfold header_update, header_load, load, store, bind, ret; simpl.
  rewrite list_lookup_middle by done. simpl.
  rewrite list_lookup_middle by done.
  rewrite insert_app_r_alt by done. by rewrite Nat.sub_diag.
Qed.

Lemma link_chain_snoc p0 objs :
  link_chain (p0 :: objs) =
    linked_prefix p0 objs ++ [payload_set_next_type NO_PAYLOAD (List.last objs p0)].
Proof.
  revert p0. induction objs as [|o objs IH]; intros p0; [done|].
  rewrite last_cons. cbn [linked_prefix app]. rewrite <- IH. done.
Qed.

Lemma chain_objects_update_last w l os a o o' :
  chain_objects w (l ++ [a]) (os ++ [o]) -> a ∉ l ->
  chain_objects (update_object a (Some o') w) (l ++ [a]) (os ++ [o']).
Proof.
  intros Hc Hni.
  assert (length l = length os) as Hlen.
  { apply Forall2_length in Hc. rewrite !length_app in Hc. simpl in Hc. lia. }
  apply Forall2_app_inv in Hc as [Hl Ha]; [|done].
  apply Forall2_app.
  - by apply chain_objects_update.
  - inversion Ha; subst. repeat constructor. by erewrite object_at_update_eq.
Qed.

Lemma snoc_last {A} (l : list A) (a : A) :
  a :: l = removelast (a :: l) ++ [List.last l a].
Proof.
  rewrite <- (last_cons l a a). by apply app_removelast_last.
Qed.

Lemma generate_forward this w s id objs :
  exchange_type this <> EXCHANGE_TYPE_UNDEFINED ->
  source (packet this) <> None ->
  destination (packet this) <> None ->
  ike_sa_id this = Some s ->
  sa_at w s = Some id ->
  granted 4 w ->
  NoDup (payloads this) ->
  chain_objects w (payloads this) objs ->
  Forall (fun o => (encode o).1 = SUCCESS)
    (link_chain (Header (generated_header this id) :: objs)) ->
  let bytes := concat (map encoding (link_chain (Header (generated_header this id) :: objs))) in
  let this' := with_packet (with_data (Some bytes) (packet this)) this in
  exists w',
    generate this w =
      Done (SUCCESS, this',
            if hd true (drop 4 (grants w)) then Some (packet this') else None) w'
    /\ chain_objects w' (payloads this) (link_chain objs)
    /\ (forall a, a < length (objects w) -> a ∉ payloads this ->
          objects w' !! a = objects w !! a)
    /\ length (objects w') = S (length (objects w))
    /\ sa_ids w' = sa_ids w
    /\ grants w' = drop 5 (grants w)
    /\ log w' = log w ++ [Log [CONTROL] "generating message, contains %d payloads"
                            [ArgCount (length (payloads this))];
                          Log [CONTROL] "message generated successfully" []].
Proof.
  intros Hex Hsrc Hdst Hid Hsa Hgr Hnd Hc Henc bytes this'.
  destruct w as [objs0 sas gr lg]. unfold granted in Hgr. simpl in Hgr.
  unfold generate. unfold bind at 1, logger_log at 1.
  rewrite bool_decide_eq_false_2 by done.
  destruct (source (packet this)) as [src|] eqn:Esrc; [|done].
  destruct (destination (packet this)) as [dst|] eqn:Edst; [|done].
  cbn [is_null orb].
  unfold bind at 1, ike_header_create, bind at 1, allocator_alloc.
  cbn [objects sa_ids grants log].
  rewrite (granted_hd _ _ Hgr). apply granted_tl in Hgr.
  unfold bind at 1, new_object, ret at 1. cbn [objects sa_ids grants log].
  unfold bind at 1. rewrite header_update_fresh.
  unfold bind at 1. rewrite header_update_fresh.
  unfold bind at 1. rewrite header_update_fresh.
  assert (forall o g l, sa_load s (World o sas g l) = Done id (World o sas g l)) as Hload.
  { intros. by apply sa_load_Done. }
  unfold this_ike_sa_id. rewrite Hid.
  unfold bind at 1. rewrite Hload.
  unfold bind at 1. rewrite header_update_fresh.
  unfold bind at 1. rewrite Hload.
  unfold bind at 1. rewrite header_update_fresh.
  unfold bind at 1. rewrite Hload.
  unfold bind at 1. rewrite header_update_fresh.
  cbn [set_hdr_exchange_type set_hdr_message_id set_hdr_response_flag
       set_hdr_initiator_flag set_hdr_initiator_spi set_hdr_responder_spi
       ike_header_default hdr_initiator_spi hdr_responder_spi hdr_next_payload
       hdr_maj_version hdr_min_version hdr_exchange_type hdr_initiator_flag
       hdr_response_flag hdr_message_id].
  change (set_hdr_responder_spi _ _) with (generated_header this id).
  set (h := length objs0) in *. set (H0 := Header (generated_header this id)) in *.
  (* generator_create, create_iterator *)
  unfold bind at 1, generator_create, bind at 1, allocator_alloc.
  cbn [objects sa_ids grants log].
  rewrite (granted_hd _ _ Hgr). apply granted_tl in Hgr. unfold ret at 1.
  unfold bind at 1, create_iterator, bind at 1, allocator_alloc.
  cbn [objects sa_ids grants log].
  rewrite (granted_hd _ _ Hgr). apply granted_tl in Hgr. unfold ret at 1.
  cbn [bool_decide decide_rel negb]. rewrite bool_decide_eq_true_2 by done. cbn [negb].
  (* the loop *)
  assert (Forall (fun a => a < h) (payloads this)) as Hlive.
  { clear -Hc. induction Hc as [|a o l os Ha _ IH]; constructor; [|done].
    apply object_at_Some in Ha. simpl in Ha. by eapply lookup_lt_Some. }
  assert (h ∉ payloads this) as Hh.
  { intros Hin. rewrite Forall_forall in Hlive. apply Hlive in Hin. lia. }
  rewrite link_chain_snoc in Henc. apply Forall_app in Henc as [Hpre Hlast].
  apply Forall_inv in Hlast.
  unfold bind at 1.
  match goal with |- context [generate_loop _ _ _ ?w1] => set (wh := w1) end.
  destruct (generate_loop_forward (payloads this) h [] wh H0 objs)
    as (wl & Hrun & Hobjs & Hframe & Hlen & Hsas & Hgrs & Hlog); try done.
  { by apply NoDup_cons. }
  { unfold object_at, wh; simpl. by rewrite list_lookup_middle. }
  { unfold wh. clear -Hc. induction Hc as [|a o l os Ha _ IH]; constructor; [|done].
    apply object_at_Some in Ha. apply object_at_Some. simpl in *.
    rewrite lookup_app_l; [done|]. by eapply lookup_lt_Some. }
  rewrite Hrun. rewrite bool_decide_eq_true_2 by done. cbn [negb].
  (* the last payload *)
  assert (NoDup (h :: payloads this)) as Hnd' by (by apply NoDup_cons).
  pose proof (snoc_last (payloads this) h) as Hsn.
  set (p' := List.last (payloads this) h) in *.
  set (front := removelast (h :: payloads this)) in *. clearbody front.
  rewrite Hsn in Hobjs, Hnd'.
  apply NoDup_app in Hnd' as (_ & Hp' & _).
  assert (p' ∉ front) as Hp'ni.
  { intros Hin. apply (Hp' _ Hin). left. }
  assert (object_at wl p' = Some (List.last objs H0)) as Hobj'.
  { apply Forall2_app_inv_l in Hobjs as (k1 & k2 & _ & Hk2 & Heq).
    inversion Hk2 as [|? y ? ? Hy Hnil]; subst. inversion Hnil; subst.
    apply app_inj_tail in Heq as [_ <-]. done. }
  unfold bind at 1. rewrite (set_next_type_Done _ _ _ _ Hobj').
  eapply chain_objects_update_last in Hobjs; [|exact Hp'ni].
  rewrite <- Hsn, <- link_chain_snoc in Hobjs.
  set (w2 := update_object p' _ wl) in *.
  unfold bind at 1. rewrite (load_Done w2 p' (payload_set_next_type NO_PAYLOAD (List.last objs H0))).
  2:{ unfold w2. by erewrite object_at_update_eq. }
  rewrite generate_payload_ok by exact Hlast.
  rewrite bool_decide_eq_true_2 by done. cbn [negb].
  (* the header is destroyed, the chunk written, the packet cloned *)
  cbn [link_chain] in Hobjs. inversion Hobjs as [|? ? ? ? Hhdr Htail]; subst.
  unfold bind at 1. rewrite (payload_destroy_Done _ _ _ Hhdr).
  unfold bind at 1, write_to_chunk, bind at 1, allocator_alloc.
  cbn [objects sa_ids grants log update_object].
  assert (grants w2 = tail (tail (tail gr))) as Hgw2 by (unfold w2; simpl; by rewrite Hgrs).
  assert (sa_ids w2 = sas) as Hsw2 by (unfold w2; simpl; by rewrite Hsas).
  assert (log w2 = log wh) as Hlw2 by (unfold w2; simpl; by rewrite Hlog).
  rewrite !Hgw2.
  rewrite (granted_hd _ _ Hgr). apply granted_tl in Hgr. unfold ret at 1.
  rewrite bool_decide_eq_true_2 by done. cbn [negb].
  unfold bind at 1, packet_clone, bind at 1, allocator_alloc.
  cbn [objects sa_ids grants log].
  assert (tail (tail (tail (tail gr))) = drop 4 gr) as ->.
  { clear. by destruct gr as [|? [|? [|? [|? ?]]]]. }
  assert (concat (map encoding (linked_prefix H0 objs))
          ++ encoding (payload_set_next_type NO_PAYLOAD (List.last objs H0)) = bytes) as Hbytes.
  { unfold bytes. rewrite link_chain_snoc, map_app, concat_app.
    cbn [map concat app]. by rewrite app_nil_r. }
  cbn [app]. rewrite Hbytes. fold this'.
  eexists. split; [|split; [|split; [|split; [|split; [|split]]]]].
  - destruct (hd true (drop 4 gr)); unfold ret, bind, logger_log; cbn [objects sa_ids grants log];
      reflexivity.
  - cbn [objects].
    change (chain_objects (update_object h None w2) (payloads this) (link_chain objs)).
    by apply chain_objects_update.
  - intros a Ha Hni. cbn [objects].
    rewrite list_lookup_insert_ne by (unfold h; lia).
    assert (a ∉ h :: payloads this) as Hni'.
    { intros [->|?]%elem_of_cons; [unfold h in Ha; lia|done]. }
    unfold w2, update_object; cbn [objects].
    rewrite list_lookup_insert_ne.
    2:{ intros <-. apply Hni'. rewrite Hsn. apply elem_of_app. right. left. }
    rewrite Hframe by done. unfold wh; simpl. by rewrite lookup_app_l.
  - cbn [objects]. unfold w2, update_object; cbn [objects].
    rewrite !length_insert, Hlen. unfold wh; simpl.
    rewrite length_app; simpl. unfold h. lia.
  - cbn [sa_ids]. done.
  - clear. by destruct gr as [|? [|? [|? [|? [|? ?]]]]].
  - cbn [log]. rewrite Hlw2. unfold wh; simpl. by rewrite <- app_assoc.
Qed.

Lemma sa_load_inv w s id w' : sa_load s w = Done id w' -> w' = w /\ sa_at w s = Some id.
Proof.
  unfold sa_load, sa_at. destruct (sa_ids w !! s) as [[q|]|]; intros; simplify_eq; done.
Qed.

Lemma chain_objects_functional w chain objs objs' :
  chain_objects w chain objs -> chain_objects w chain objs' -> objs = objs'.
Proof.
  intros H. revert objs'. induction H as [|a o l os Ha _ IH]; intros objs' H'.
  - by inversion H'.
  - inversion H' as [|? o' ? os' Ha' Hl']; subst. f_equal; [congruence|by apply IH].
Qed.

Lemma granted_cons n g :
  hd true g = true -> Forall (fun b => b = true) (take n (tl g)) ->
  Forall (fun b => b = true) (take (S n) g).
Proof. destruct g as [|b g]; simpl; [constructor|]. intros -> ?. by constructor. Qed.

Lemma chain_objects_fresh objs0 sas gr lg sas' gr' lg' x chain objs :
  chain_objects (World objs0 sas gr lg) chain objs ->
  chain_objects (World (objs0 ++ [x]) sas' gr' lg') chain objs.
Proof.
  intros Hc. induction Hc as [|a o l os Ha _ IH]; constructor; [|done].
  apply object_at_Some in Ha. apply object_at_Some. simpl in *.
  rewrite lookup_app_l; [done|]. by eapply lookup_lt_Some.
Qed.

Lemma chain_objects_bound w chain objs :
  chain_objects w chain objs -> Forall (fun a => a < length (objects w)) chain.
Proof.
  intros Hc. induction Hc as [|a o l os Ha _ IH]; constructor; [|done].
  apply object_at_Some in Ha. by eapply lookup_lt_Some.
Qed.

Lemma generate_success_inv this w objs this' pkt w' :
  NoDup (payloads this) ->
  chain_objects w (payloads this) objs ->
  generate this w = Done (SUCCESS, this', pkt) w' ->
  exists s id,
    exchange_type this <> EXCHANGE_TYPE_UNDEFINED
    /\ source (packet this) <> None /\ destination (packet this) <> None
    /\ ike_sa_id this = Some s /\ sa_at w s = Some id
    /\ granted 4 w
    /\ Forall (fun o => (encode o).1 = SUCCESS)
         (link_chain (Header (generated_header this id) :: objs)).
Proof.
  intros Hnd Hc H.
  destruct w as [objs0 sas gr lg].
  unfold generate in H. unfold bind at 1, logger_log at 1 in H.
  case_bool_decide as Hex.
  { unfold bind, logger_log, ret in H. simplify_eq. }
  destruct (source (packet this)) as [src|] eqn:Esrc.
  2:{ unfold bind, logger_log, ret in H. simplify_eq/=. }
  destruct (destination (packet this)) as [dst|] eqn:Edst.
  2:{ unfold bind, logger_log, ret in H. simplify_eq/=. }
  cbn [is_null orb] in H.
  unfold bind at 1, ike_header_create, bind at 1, allocator_alloc in H.
  cbn [objects sa_ids grants log] in H.
  destruct (hd true gr) eqn:G1; [|unfold ret in H; simplify_eq].
  unfold bind at 1, new_object, ret at 1 in H. cbn [objects sa_ids grants log] in H.
  unfold bind at 1 in H. rewrite header_update_fresh in H.
  unfold bind at 1 in H. rewrite header_update_fresh in H.
  unfold bind at 1 in H. rewrite header_update_fresh in H.
  unfold this_ike_sa_id in H.
  destruct (ike_sa_id this) as [s|] eqn:Hid; [|unfold bind, crash in H; simplify_eq].
  unfold bind at 1 in H.
  match type of H with context [sa_load s ?w1] =>
    destruct (sa_load s w1) as [id w2|] eqn:Hl; [|simplify_eq] end.
  apply sa_load_inv in Hl as [-> Hsa].
  assert (forall o g l, sa_load s (World o sas g l) = Done id (World o sas g l)) as Hload.
  { intros. by apply sa_load_Done. }
  unfold bind at 1 in H. rewrite header_update_fresh in H.
  unfold bind at 1 in H. rewrite Hload in H.
  unfold bind at 1 in H. rewrite header_update_fresh in H.
  unfold bind at 1 in H. rewrite Hload in H.
  unfold bind at 1 in H. rewrite header_update_fresh in H.
  change (set_hdr_responder_spi _ _) with (generated_header this id) in H.
  set (h := length objs0) in *. set (H0 := Header (generated_header this id)) in *.
  unfold bind at 1, generator_create, bind at 1, allocator_alloc in H.
  cbn [objects sa_ids grants log] in H.
  destruct (hd true (tail gr)) eqn:G2; [|unfold ret in H; simplify_eq].
  unfold ret at 1 in H.
  unfold bind at 1, create_iterator, bind at 1, allocator_alloc in H.
  cbn [objects sa_ids grants log] in H.
  destruct (hd true (tail (tail gr))) eqn:G3.
  2:{ unfold ret at 1 in H. rewrite bool_decide_eq_false_2 in H by done. cbn [negb] in H.
      unfold bind in H. destruct (payload_destroy _ _); unfold ret in H; simplify_eq. }
  unfold ret at 1 in H. rewrite bool_decide_eq_true_2 in H by done. cbn [negb] in H.
  unfold bind at 1 in H.
  match type of H with context [generate_loop _ _ _ ?w1] => set (wh := w1) in * end.
  destruct (generate_loop (payloads this) h [] wh) as [[[st p'] g'] wl|] eqn:Hloop;
    [|simplify_eq].
  case_bool_decide as Hst; cbn [negb] in H.
  2:{ unfold bind in H. destruct (payload_destroy _ _); unfold ret in H; simplify_eq. }
  subst st.
  assert (Forall (fun a => a < h) (payloads this)) as Hlive.
  { by apply chain_objects_bound in Hc. }
  assert (h ∉ payloads this) as Hh.
  { intros Hin. rewrite Forall_forall in Hlive. apply Hlive in Hin. lia. }
  assert (chain_objects wh (payloads this) objs) as Hc' by (by eapply chain_objects_fresh).
  assert (object_at wh h = Some H0) as Hh0.
  { unfold object_at, wh; simpl. by rewrite list_lookup_middle. }
  assert (NoDup (h :: payloads this)) as Hnd' by (by apply NoDup_cons).
  destruct (generate_loop_success_inv _ _ _ _ _ _ _ Hh0 Hnd' Hloop eq_refl)
    as (objs' & Hc'' & Hpre).
  rewrite (chain_objects_functional _ _ _ _ Hc'' Hc') in Hpre. clear objs' Hc''.
  destruct (generate_loop_forward (payloads this) h [] wh H0 objs)
    as (wl' & Hrun & Hobjs & _ & _ & _ & Hgrs & _); try done.
  rewrite Hrun in Hloop. injection Hloop as Hp' Hg' <-.
  (* the last payload *)
  pose proof (snoc_last (payloads this) h) as Hsn.
  rewrite Hp' in Hsn.
  set (front := removelast (h :: payloads this)) in *. clearbody front.
  rewrite Hsn in Hobjs.
  assert (object_at wl' p' = Some (List.last objs H0)) as Hobj'.
  { apply Forall2_app_inv_l in Hobjs as (k1 & k2 & _ & Hk2 & Heq).
    inversion Hk2 as [|? y ? ? Hy Hnil]; subst. inversion Hnil; subst.
    apply app_inj_tail in Heq as [_ <-]. done. }
  unfold bind at 1 in H. rewrite (set_next_type_Done _ _ _ _ Hobj') in H.
  set (w2 := update_object p' _ wl') in *.
  unfold bind at 1 in H.
  rewrite (load_Done w2 p' (payload_set_next_type NO_PAYLOAD (List.last objs H0))) in H.
  2:{ unfold w2. by erewrite object_at_update_eq. }
  unfold generate_payload in H.
  destruct (encode (payload_set_next_type NO_PAYLOAD (List.last objs H0))) as [st bs] eqn:He.
  case_bool_decide as Hst; cbn [negb] in H.
  2:{ unfold bind in H. destruct (payload_destroy _ _); unfold ret in H; simplify_eq. }
  subst st.
  unfold bind at 1 in H.
  destruct (payload_destroy h w2) as [[] w3|] eqn:Hd; [|simplify_eq].
  assert (grants w3 = tail (tail (tail gr))) as Hg3.
  { unfold payload_destroy in Hd. destruct (objects w2 !! h) as [[?|]|]; simplify_eq.
    cbn [grants]. unfold w2; simpl. by rewrite Hgrs. }
  unfold bind at 1, write_to_chunk, bind at 1, allocator_alloc in H.
  rewrite Hg3 in H.
  destruct (hd true (tail (tail (tail gr)))) eqn:G4.
  2:{ unfold ret at 1 in H. rewrite bool_decide_eq_false_2 in H by done. cbn [negb] in H.
      unfold ret in H. simplify_eq. }
  exists s, id. fold H0. repeat split; try done.
  - unfold granted. cbn [grants].
    repeat (apply granted_cons; [done|]). constructor.
  - rewrite link_chain_snoc. apply Forall_app. split; [done|].
    constructor; [cbv beta; by rewrite He|constructor].
Qed.

Lemma chain_objects_linked w objs : forall chain,
  chain_objects w chain (link_chain objs) -> chain_linked w chain.
Proof.
  induction objs as [|o objs IH]; intros chain Hc; inversion Hc as [|a ? chain' ? Ha Hc']; subst.
  - done.
  - cbn [chain_linked]. rewrite Ha. cbn [fmap option_fmap option_map].
    rewrite get_next_type_set_next. split; [|split; [by eexists|by apply IH]].
    destruct objs as [|n objs]; inversion Hc' as [|b ? ? ? Hb _]; subst; [done|].
    rewrite Hb. cbn. by rewrite get_type_set_next.
Qed.

Lemma generate_links this w objs this' pkt w' :
  NoDup (payloads this) ->
  chain_objects w (payloads this) objs ->
  generate this w = Done (SUCCESS, this', pkt) w' ->
  payloads this' = payloads this
  /\ chain_objects w' (payloads this') (link_chain objs)
  /\ chain_linked w' (payloads this').
Proof.
  intros Hnd Hc H.
  destruct (generate_success_inv _ _ _ _ _ _ Hnd Hc H)
    as (s & id & ? & ? & ? & ? & ? & ? & ?).
  destruct (generate_forward this w s id objs) as (w'' & Hrun & Hobjs & _); try done.
  rewrite Hrun in H. injection H as <- _ <-.
  cbn [payloads with_packet]. split; [done|]. split; [done|].
  by eapply chain_objects_linked.
Qed.

Lemma add_payload_spec this payload w this' w' :
  add_payload this payload w = Done (SUCCESS, this') w' ->
  exists p,
    object_at w payload = Some p
    /\ payloads this' = payloads this ++ [payload]
    /\ match last (payloads this) with
       | None =>
           first_payload this' = get_type p /\ objects w' = objects w
       | Some last_payload =>
           first_payload this' = first_payload this
           /\ exists q, object_at w last_payload = Some q
                /\ objects w' =
                     <[last_payload := Some (payload_set_next_type (get_type p) q)]> (objects w)
       end.
Proof.
  intros H. destruct w as [objs0 sas gr lg]. unfold add_payload, get_count, get_last in H.
  destruct (last (payloads this)) as [lp|] eqn:Hlast.
  - assert ((0 <? length (payloads this)) = true) as Hpos.
    { destruct (payloads this); [done|]. done. }
    rewrite Hpos in H. rewrite bool_decide_eq_true_2 in H by done. cbn [negb andb] in H.
    unfold bind at 1, insert_last, bind at 1, allocator_alloc in H.
    cbn [objects sa_ids grants log] in H.
    destruct (hd true gr); unfold ret at 1 in H.
    2:{ rewrite bool_decide_eq_false_2 in H by done. unfold ret in H. simplify_eq/=. }
    rewrite bool_decide_eq_true_2 in H by done. cbn [negb] in H.
    unfold bind at 1 in H.
    match type of H with context [load payload ?w1] =>
      destruct (load payload w1) as [p w2|] eqn:Hl; [|simplify_eq] end.
    apply load_inv in Hl as [-> Hp].
    assert ((length (payloads this ++ [payload]) =? 1) = false) as Hlen.
    { rewrite length_app. destruct (payloads this); [done|]. simpl. apply Nat.eqb_neq. lia. }
    rewrite Hlen in H. unfold bind at 1, bind at 1 in H.
    match type of H with context [set_next_type lp ?t ?w1] =>
      destruct (set_next_type lp t w1) as [[] w2|] eqn:Hs; [|simplify_eq] end.
    unfold set_next_type, bind in Hs.
    match type of Hs with context [load lp ?w1] =>
      destruct (load lp w1) as [q w3|] eqn:Hl; [|simplify_eq] end.
    apply load_inv in Hl as [-> Hq].
    rewrite (store_Done _ _ _ _ Hq) in Hs. injection Hs as <-.
    unfold ret, bind, logger_log in H. injection H as <- <-.
    exists p. split; [exact Hp|]. split; [done|]. split; [done|].
    exists q. split; [exact Hq|done].
  - assert (payloads this = []) as Hnil.
    { destruct (payloads this) as [|a l] using rev_ind; [done|]. by rewrite last_snoc in Hlast. }
    rewrite Hnil in H. cbn [length Nat.ltb Nat.leb andb app] in H.
    unfold bind at 1, insert_last, bind at 1, allocator_alloc in H.
    cbn [objects sa_ids grants log] in H.
    destruct (hd true gr); unfold ret at 1 in H.
    2:{ rewrite bool_decide_eq_false_2 in H by done. unfold ret in H. simplify_eq/=. }
    rewrite bool_decide_eq_true_2 in H by done. cbn [negb] in H.
    unfold bind at 1 in H.
    match type of H with context [load payload ?w1] =>
      destruct (load payload w1) as [p w2|] eqn:Hl; [|simplify_eq] end.
    apply load_inv in Hl as [-> Hp].
    cbn [length app Nat.eqb] in H.
    unfold ret, bind, logger_log in H. injection H as <- <-.
    exists p. split; [exact Hp|]. split; [by rewrite Hnil|]. done.
Qed.



(** [add_payload] succeeds when the payload and the last element of the chain
    are live and the allocator grants the list node. *)
Lemma add_payload_forward this payload w p :
  object_at w payload = Some p ->
  (forall a, last (payloads this) = Some a -> is_Some (object_at w a)) ->
  hd true (grants w) = true ->
  exists this' w', add_payload this payload w = Done (SUCCESS, this') w'.
Proof.
  intros Hp Hlast Hgr. destruct w as [objs0 sas gr lg]. cbn [grants] in Hgr.
  unfold add_payload, get_count, get_last.
  destruct (last (payloads this)) as [lp|] eqn:El.
  - destruct (Hlast lp eq_refl) as [q Hq].
    assert ((0 <? length (payloads this)) = true) as -> by (by destruct (payloads this)).
    rewrite bool_decide_eq_true_2 by done. cbn [negb andb].
    unfold bind at 1, insert_last, bind at 1, allocator_alloc.
    cbn [objects sa_ids grants log]. rewrite Hgr. unfold ret at 1.
    rewrite bool_decide_eq_true_2 by done. cbn [negb].
    unfold bind at 1. rewrite (load_Done _ _ p) by exact Hp.
    assert ((length (payloads this ++ [payload]) =? 1) = false) as ->.
    { rewrite length_app. destruct (payloads this); [done|]. simpl. apply Nat.eqb_neq. lia. }
    unfold bind at 1, bind at 1. rewrite (set_next_type_Done _ _ _ q) by exact Hq.
    unfold ret, bind, logger_log. by eexists _, _.
  - assert (payloads this = []) as ->.
    { destruct (payloads this) as [|a l] using rev_ind; [done|]. by rewrite last_snoc in El. }
    cbn [length Nat.ltb Nat.leb andb app].
    unfold bind at 1, insert_last, bind at 1, allocator_alloc.
    cbn [objects sa_ids grants log]. rewrite Hgr. unfold ret at 1.
    rewrite bool_decide_eq_true_2 by done. cbn [negb].
    unfold bind at 1. rewrite (load_Done _ _ p) by exact Hp.
    cbn [length app Nat.eqb]. unfold ret, bind, logger_log. by eexists _, _.
Qed.

(** The linkage of a chain in the store, read off its objects. *)
Lemma chain_linked_objects w chain objs :
  chain_objects w chain objs ->
  chain_linked w chain
  <-> adjacent_linked objs /\ (forall o, last objs = Some o -> get_next_type o = NO_PAYLOAD).
Proof.
  induction 1 as [|a o chain objs Ha Hc IH].
  - cbn. split; [|done]. intros _. split; [done|]. by intros o.
  - cbn [chain_linked adjacent_linked]. rewrite Ha. cbn [fmap option_fmap option_map].
    destruct Hc as [|b n chain objs Hb Hc].
    + cbn. split.
      * intros ([= Hn] & _ & _). split; [done|]. by intros o' [= <-].
      * intros [_ Hlast]. split; [|split; [by eexists|done]]. f_equal. by apply Hlast.
    + rewrite Hb. cbn [fmap option_fmap option_map]. rewrite IH.
      change (last (o :: n :: objs)) with (last (n :: objs)).
      split.
      * intros ([= Hn] & _ & Hadj & Hlast). done.
      * intros [[Hn Hadj] Hlast]. split; [by f_equal|]. split; [by eexists|done].
Qed.

Lemma relink_last_snoc t objs q :
  relink_last t (objs ++ [q]) = objs ++ [payload_set_next_type t q].
Proof.
  induction objs as [|o objs IH]; [done|].
  cbn [app relink_last]. rewrite IH.
  destruct objs; reflexivity.
Qed.

Lemma adjacent_linked_snoc2 objs q q' p :
  get_type q' = get_type q ->
  get_next_type q' = get_type p ->
  adjacent_linked ((objs ++ [q']) ++ [p]) <-> adjacent_linked (objs ++ [q]).
Proof.
  intros Ht Hn. induction objs as [|o objs IH].
  - cbn. split; [done|]. intros _. by rewrite Hn.
  - cbn [app adjacent_linked]. rewrite IH.
    destruct objs as [|n objs]; cbn [app]; [by rewrite Ht|done].
Qed.

Lemma adjacent_linked_relink p objs :
  adjacent_linked (relink_last (get_type p) objs ++ [p]) <-> adjacent_linked objs.
Proof.
  destruct objs as [|o objs] using rev_ind; [cbn; naive_solver|].
  rewrite relink_last_snoc. apply adjacent_linked_snoc2.
  - apply get_type_set_next.
  - apply get_next_type_set_next.
Qed.

Lemma first_type_relink p objs :
  first_type (relink_last (get_type p) objs ++ [p]) =
    match objs with [] => get_type p | o :: _ => get_type o end.
Proof.
  destruct objs as [|o [|n objs]]; cbn; [done| |done].
  apply get_type_set_next.
Qed.

Lemma chain_objects_ext w1 w2 chain objs :
  objects w1 = objects w2 -> chain_objects w1 chain objs -> chain_objects w2 chain objs.
Proof.
  intros Ho Hc. eapply Forall2_impl; [exact Hc|].
  intros a o. unfold object_at. by rewrite Ho.
Qed.

Lemma add_payload_objects this payload w objs this' w' :
  NoDup (payloads this) ->
  payload ∉ payloads this ->
  chain_objects w (payloads this) objs ->
  add_payload this payload w = Done (SUCCESS, this') w' ->
  exists p,
    object_at w payload = Some p
    /\ chain_objects w' (payloads this') (relink_last (get_type p) objs ++ [p]).
Proof.
  intros Hnd Hni Hc Hrun.
  destruct (add_payload_spec _ _ _ _ _ Hrun) as (p & Hp & Hchain & Hcase).
  exists p. split; [done|]. rewrite Hchain.
  destruct (payloads this) as [|lp front _] using rev_ind.
  - inversion Hc; subst. cbn in Hcase. destruct Hcase as [_ Hobjs].
    cbn. constructor; [|constructor].
    unfold object_at in *. by rewrite Hobjs.
  - rewrite last_snoc in Hcase. destruct Hcase as (_ & q & Hq & Hobjs).
    apply NoDup_app in Hnd as (_ & Hlp & _).
    assert (lp ∉ front) as Hlpni.
    { intros Hin. apply (Hlp _ Hin). left. }
    assert (payload <> lp) as Hne.
    { intros ->. apply Hni, elem_of_app. right. left. }
    destruct (proj1 (Forall2_app_inv_l _ _ _ _) Hc) as (ofront & olast & Hfront & Hlast & ->).
    inversion Hlast as [|? q' ? ? Hq' Hnil]; subst. inversion Hnil; subst.
    assert (q' = q) as -> by congruence.
    rewrite relink_last_snoc.
    apply (chain_objects_ext
             (update_object lp (Some (payload_set_next_type (get_type p) q)) w)).
    { by rewrite Hobjs. }
    apply Forall2_app.
    + by eapply chain_objects_update_last.
    + constructor; [|constructor]. by rewrite object_at_update_ne.
Qed.

(** *** Faults that cannot happen *)

Lemma never_ret {A} f (a : A) : never f (ret a).
Proof. intros w. unfold ret. congruence. Qed.

Lemma never_bind {A B} f (m : M A) (k : A -> M B) :
  never f m -> (forall a, never f (k a)) -> never f (bind m k).
Proof.
  intros Hm Hk w. unfold bind. specialize (Hm w).
  destruct (m w) as [a w'|f']; [apply Hk|congruence].
Qed.

Lemma never_bind_ret {A B C} f (m : M A) (g : A -> B) (k : B -> M C) :
  never f m -> (forall a, never f (k (g a))) ->
  never f (bind (bind m (fun a => ret (g a))) k).
Proof.
  intros Hm Hk w. unfold bind, ret. specialize (Hm w).
  destruct (m w) as [a w'|f']; [apply Hk|congruence].
Qed.

Lemma never_ret_bind {A B} f (x : A) (k : A -> M B) :
  never f (k x) -> never f (bind (ret x) k).
Proof. intros Hk w. apply Hk. Qed.

Ltac primitive_never :=
  intros ? ?;
  unfold load, store, new_object, payload_destroy, sa_load, sa_destroy,
    allocator_alloc, logger_log, crash, ret;
  repeat case_match; congruence.

Lemma never_load f a : f <> WILD_POINTER -> never f (load a).
Proof. primitive_never. Qed.
Lemma never_store f a p : f <> WILD_POINTER -> never f (store a p).
Proof. primitive_never. Qed.
Lemma never_new_object f p : never f (new_object p).
Proof. intros w. unfold new_object. congruence. Qed.
Lemma never_payload_destroy f a : f <> WILD_POINTER -> never f (payload_destroy a).
Proof. primitive_never. Qed.
Lemma never_sa_load f a : f <> WILD_POINTER -> never f (sa_load a).
Proof. primitive_never. Qed.
Lemma never_alloc f : never f allocator_alloc.
Proof. intros w. unfold allocator_alloc. congruence. Qed.
Lemma never_log f l s a : never f (logger_log l s a).
Proof. intros w. unfold logger_log. congruence. Qed.
Lemma never_crash {A} f f' : f <> f' -> never f (@crash A f').
Proof. intros Hne w. unfold crash. congruence. Qed.

Ltac never_step :=
  first
    [ apply never_ret
    | apply never_load; done | apply never_store; done | apply never_new_object
    | apply never_payload_destroy; done | apply never_sa_load; done
    | apply never_alloc | apply never_log
    | apply never_crash; done
    | match goal with H : context [never] |- _ => apply H; done end
    | apply never_bind; [|intros ?]
    | match goal with
      | |- never _ (match ?x with _ => _ end) => destruct x
      end ].

Lemma never_set_next_type f a t : f <> WILD_POINTER -> never f (set_next_type a t).
Proof. intros. unfold set_next_type. repeat never_step. Qed.

Lemma never_header_update f a g :
  f <> WILD_POINTER -> f <> BAD_CAST -> never f (header_update a g).
Proof. intros. unfold header_update, header_load. repeat never_step. Qed.

Lemma never_generate_loop f it : f <> WILD_POINTER -> forall payload g,
  never f (generate_loop it payload g).
Proof.
  intros Hf. induction it as [|n it IH]; intros payload g; cbn [generate_loop].
  - apply never_ret.
  - pose proof (never_set_next_type f). repeat never_step.
Qed.

Lemma never_null_generate this :
  ike_sa_id this <> None -> never NULL_POINTER (generate this).
Proof.
  intros Hid. unfold generate, this_ike_sa_id, ike_header_create, generator_create,
    create_iterator, write_to_chunk, packet_clone.
  destruct (ike_sa_id this) as [s|]; [|done].
  pose proof (never_set_next_type NULL_POINTER).
  pose proof (never_header_update NULL_POINTER).
  pose proof (never_generate_loop NULL_POINTER).
  repeat never_step.
Qed.

Lemma generate_null_ike_sa_id this w :
  exchange_type this <> EXCHANGE_TYPE_UNDEFINED ->
  source (packet this) <> None ->
  destination (packet this) <> None ->
  ike_sa_id this = None ->
  generate this w =
    if hd true (grants w) then Fault NULL_POINTER
    else Done (OUT_OF_RES, this, None)
           (World (objects w) (sa_ids w) (tl (grants w))
              (log w ++ [Log [CONTROL] "generating message, contains %d payloads"
                           [ArgCount (length (payloads this))]])).
Proof.
  intros Hex Hsrc Hdst Hid. destruct w as [objs0 sas gr lg].
  unfold generate. unfold bind at 1, logger_log at 1.
  rewrite bool_decide_eq_false_2 by done.
  destruct (source (packet this)); [|done]. destruct (destination (packet this)); [|done].
  cbn [is_null orb].
  unfold bind at 1, ike_header_create, bind at 1, allocator_alloc.
  cbn [objects sa_ids grants log].
  destruct (hd true gr); [|reflexivity].
  unfold bind at 1, new_object, ret at 1. cbn [objects sa_ids grants log].
  unfold bind at 1. rewrite header_update_fresh.
  unfold bind at 1. rewrite header_update_fresh.
  unfold bind at 1. rewrite header_update_fresh.
  unfold this_ike_sa_id. rewrite Hid. reflexivity.
Qed.

(** *** Early failures *)

Lemma find_rule_other (this : private_message_t) :
  exchange_type this <> IKE_SA_INIT ->
  get_supported_payloads this = (NOT_FOUND, []).
Proof.
  intros He. unfold get_supported_payloads, message_rules, find_rule.
  cbn [rule_exchange_type]. rewrite !bool_decide_eq_false_2 by done. reflexivity.
Qed.

(** *** Parsing *)
Lemma count_payloads_spec t max it : forall objs found w,
  chain_objects w it objs ->
  found <= max ->
  count_payloads it t max found w =
    if max <? found + occurrences t (map get_type objs)
    then Done (NOT_SUPPORTED, S max)
           (add_log [Log [ERROR]
                       "Payload of type %s more than %d times (%d) occured in current message"
                       [ArgType t; ArgCount max; ArgCount (S max)]] w)
    else Done (SUCCESS, found + occurrences t (map get_type objs)) w.
Proof.
  induction it as [|a it IH]; intros objs found w Hc Hf; inversion Hc as [|? o ? objs' Ha Hc']; subst.
  - simpl. rewrite Nat.add_0_r. by rewrite (proj2 (Nat.ltb_ge _ _) Hf).
  - cbn [count_payloads map occurrences]. unfold bind. rewrite (load_Done _ _ _ Ha).
    case_bool_decide as Ht.
    + destruct (max <? S found) eqn:Hmax.
      * apply Nat.ltb_lt in Hmax. assert (found = max) as -> by lia.
        rewrite (proj2 (Nat.ltb_lt _ _)) by lia.
        unfold bind, logger_log, ret, add_log. by rewrite Ht.
      * apply Nat.ltb_ge in Hmax. rewrite (IH objs' (S found) w) by done.
        replace (S found + occurrences t (map get_type objs'))
          with (found + (1 + occurrences t (map get_type objs'))) by lia. done.
    + rewrite (IH objs' found w) by done. done.
Qed.

Lemma check_occurences_spec supported : forall chain objs w,
  chain_objects w chain objs ->
  check_occurences supported chain w =
    Done (verdict_status (rules_verdict supported (map get_type objs)))
      (add_log (verdict_log (rules_verdict supported (map get_type objs))) w).
Proof.
  induction supported as [|e rest IH]; intros chain objs w Hc.
  - destruct w. simpl. unfold ret, add_log; simpl. by rewrite app_nil_r.
  - cbn [check_occurences rules_verdict]. unfold bind.
    rewrite (count_payloads_spec _ _ _ objs 0 w) by (done || lia).
    cbn [Nat.add].
    destruct (max_occurence e <? occurrences (payload_type e) (map get_type objs)) eqn:Hmax.
    + reflexivity.
    + rewrite bool_decide_eq_true_2 by done. cbn [negb].
      destruct (occurrences (payload_type e) (map get_type objs) <? min_occurence e) eqn:Hmin.
      * reflexivity.
      * by apply IH.
Qed.

Lemma parse_payload_parsed ps t o n objs0 sas gr lg :
  decode t (drop (position ps) (input ps)) = Parsed o n ->
  parse_payload ps t (World objs0 sas gr lg) =
    Done (SUCCESS, Some (length objs0), Parser (input ps) (position ps + n))
      (World (objs0 ++ [Some o]) sas gr lg).
Proof. intros H. unfold parse_payload. rewrite H. reflexivity. Qed.

Lemma object_at_fresh objs0 sas gr lg o :
  object_at (World (objs0 ++ [Some o]) sas gr lg) (length objs0) = Some o.
Proof. unfold object_at; simpl. by rewrite list_lookup_middle. Qed.

Lemma parse_loop_forward supported objs : forall fuel t this w ps_end,
  decodes_chain supported (parser this) t objs ps_end ->
  length objs <= fuel ->
  granted (length objs) w ->
  parse_loop fuel supported t this w =
    Done (SUCCESS,
          with_payloads (payloads this ++ seq (length (objects w)) (length objs))
            (with_parser ps_end this))
      (World (objects w ++ map Some objs) (sa_ids w) (drop (length objs) (grants w))
         (log w ++ map start_entry (expected_types t objs))).
Proof.
  induction objs as [|o objs IH]; intros fuel t this w ps_end Hd Hfuel Hgr.
  - destruct Hd as [-> ->]. destruct w as [objs0 sas gr lg], this.
    destruct fuel; simpl; unfold ret, with_payloads, with_parser; simpl;
      by rewrite !app_nil_r.
  - destruct Hd as (Ht & Hsup & n & Hdec & Hver & Hd).
    destruct fuel as [|fuel]; [simpl in Hfuel; lia|].
    destruct w as [objs0 sas gr lg]. unfold granted in Hgr. cbn [grants length] in Hgr.
    cbn [parse_loop]. rewrite bool_decide_eq_false_2 by done.
    unfold bind at 1, logger_log at 1. rewrite Hsup. cbn [negb andb objects sa_ids grants log].
    unfold bind at 1. rewrite (parse_payload_parsed _ _ _ _ _ _ _ _ Hdec).
    rewrite bool_decide_eq_true_2 by done. cbn [negb].
    unfold bind at 1. rewrite (load_Done _ _ o) by apply object_at_fresh.
    rewrite bool_decide_eq_true_2 by done. cbn [negb].
    unfold bind at 1, insert_last, bind at 1, allocator_alloc. cbn [objects sa_ids grants log].
    rewrite (granted_hd _ _ Hgr). apply granted_tl in Hgr. unfold ret at 1.
    rewrite bool_decide_eq_true_2 by done. cbn [negb].
    rewrite (IH fuel _ _ _ ps_end); [|exact Hd|simpl in Hfuel; lia|exact Hgr].
    cbn [objects sa_ids grants log length map expected_types seq].
    f_equal.
    + f_equal. unfold with_payloads, with_parser; cbn.
      rewrite <- app_assoc, length_app, Nat.add_1_r. reflexivity.
    + f_equal.
      * by rewrite <- app_assoc.
      * destruct gr; simpl; [by rewrite drop_nil|done].
      * by rewrite <- app_assoc.
Qed.

Lemma decodes_chain_length supported objs : forall ps t ps_end,
  decodes_chain supported ps t objs ps_end ->
  length objs <= bytes_left ps.
Proof.
  induction objs as [|o objs IH]; intros ps t ps_end Hd; [simpl; lia|].
  destruct Hd as (_ & _ & n & Hdec & _ & Hd).
  apply decode_advances in Hdec. rewrite length_drop in Hdec.
  apply IH in Hd. unfold bytes_left in *. simpl in *. lia.
Qed.

(** Whatever [parse_loop] does, it only appends to the chain and to the
    store, and leaves the rest of the message alone. *)
Lemma parse_loop_appends supported fuel : forall t this w st this' w',
  parse_loop fuel supported t this w = Done (st, this') w' ->
  exists new extra,
    with_payloads (payloads this) (with_parser (parser this) this') = this
    /\ payloads this' = payloads this ++ new
    /\ objects w' = objects w ++ extra
    /\ sa_ids w' = sa_ids w.
Proof.
  assert (forall this : private_message_t,
    with_payloads (payloads this) (with_parser (parser this) this) = this) as Hsame.
  { by intros []. }
  induction fuel as [|fuel IH]; intros t this w st this' w' H.
  - simpl in H. case_bool_decide; [|done]. unfold ret in H. injection H as <- <- <-.
    exists [], []. by rewrite !app_nil_r.
  - cbn [parse_loop] in H. case_bool_decide as Ht.
    { unfold ret in H. injection H as <- <- <-.
      exists [], []. by rewrite !app_nil_r. }
    unfold bind at 1, logger_log at 1 in H.
    destruct (negb (is_supported supported t) && _).
    { unfold bind, logger_log, ret in H. injection H as <- <- <-.
      exists [], []. by rewrite !app_nil_r. }
    destruct w as [objs0 sas gr lg]. cbn [objects sa_ids grants log] in H.
    unfold bind at 1, parse_payload in H.
    destruct (decode t _) as [o n|s].
    + unfold bind at 1, new_object, ret at 1 in H. cbn [objects sa_ids grants log] in H.
      rewrite bool_decide_eq_true_2 in H by done. cbn [negb] in H.
      unfold bind at 1 in H. rewrite (load_Done _ _ o) in H by apply object_at_fresh.
      case_bool_decide as Hv; cbn [negb] in H.
      * unfold bind at 1, insert_last, bind at 1, allocator_alloc in H.
        cbn [objects sa_ids grants log] in H.
        destruct (hd true gr); unfold ret at 1 in H.
        -- rewrite bool_decide_eq_true_2 in H by done. cbn [negb] in H.
           apply IH in H as (new & extra & Hm & Hp & Ho & Hs).
           exists (length objs0 :: new), (Some o :: extra). cbn in *.
           rewrite Hp, Ho, Hs, <- !app_assoc. split; [|done].
           destruct this, this'; cbn in *. by simplify_eq.
        -- rewrite bool_decide_eq_false_2 in H by done. cbn [negb] in H.
           unfold bind, logger_log, ret in H. injection H as <- <- <-.
           exists [], [Some o]. rewrite !app_nil_r. by destruct this.
      * unfold bind, logger_log, ret in H. injection H as <- <- <-.
        exists [], [Some o]. rewrite !app_nil_r. by destruct this.
    + unfold ret at 1 in H. destruct (bool_decide (s = SUCCESS)); cbn [negb] in H.
      * unfold crash in H. done.
      * unfold bind, logger_log, ret in H. injection H as <- <- <-.
        exists [], []. rewrite !app_nil_r. by destruct this.
Qed.

Lemma chain_objects_seq objs : forall objs0 sas gr lg,
  chain_objects (World (objs0 ++ map Some objs) sas gr lg)
    (seq (length objs0) (length objs)) objs.
Proof.
  induction objs as [|o objs IH]; intros objs0 sas gr lg; [constructor|].
  cbn [length seq map]. constructor.
  - unfold object_at; cbn [objects]. by rewrite list_lookup_middle.
  - specialize (IH (objs0 ++ [Some o]) sas gr lg).
    rewrite <- app_assoc, length_app, Nat.add_1_r in IH. exact IH.
Qed.

Lemma chain_objects_grown objs0 extra sas gr lg sas' gr' lg' chain objs :
  chain_objects (World objs0 sas gr lg) chain objs ->
  chain_objects (World (objs0 ++ extra) sas' gr' lg') chain objs.
Proof.
  intros Hc. induction Hc as [|a o l os Ha _ IH]; constructor; [|done].
  apply object_at_Some in Ha. apply object_at_Some. simpl in *.
  rewrite lookup_app_l; [done|]. by eapply lookup_lt_Some.
Qed.

Lemma granted_weaken n m w : n <= m -> granted m w -> granted n w.
Proof.
  unfold granted. intros Hle H. replace n with (min n m) by lia.
  rewrite <- take_take. by apply Forall_take.
Qed.

Lemma count_payloads_frame t max it : forall found w r w',
  count_payloads it t max found w = Done r w' ->
  objects w' = objects w /\ sa_ids w' = sa_ids w /\ grants w' = grants w.
Proof.
  induction it as [|a it IH]; intros found w r w' H; cbn [count_payloads] in H.
  - unfold ret in H. by injection H as <- <-.
  - unfold bind in H. destruct (load a w) as [p w1|] eqn:Hl; [|done].
    apply load_inv in Hl as [-> _].
    destruct (bool_decide _); [destruct (max <? S found)|]; try by eapply IH.
    unfold logger_log, ret in H. by injection H as <- <-.
Qed.

Lemma check_occurences_frame supported chain : forall w st w',
  check_occurences supported chain w = Done st w' ->
  objects w' = objects w /\ sa_ids w' = sa_ids w /\ grants w' = grants w.
Proof.
  induction supported as [|e rest IH]; intros w st w' H; cbn [check_occurences] in H.
  - unfold ret in H. by injection H as <- <-.
  - unfold bind in H.
    destruct (count_payloads chain _ _ 0 w) as [[st1 found] w1|] eqn:Hcount; [|done].
    apply count_payloads_frame in Hcount as (Ho & Hs & Hg).
    destruct (bool_decide (st1 = SUCCESS)); cbn [negb] in H.
    + destruct (found <? min_occurence e).
      * unfold logger_log, ret in H. injection H as <- <-. done.
      * apply IH in H as (-> & -> & ->). done.
    + unfold ret in H. by injection H as <- <-.
Qed.


Lemma parse_body_complete this w supported old objs ps_end :
  get_supported_payloads this = (SUCCESS, supported) ->
  decodes_chain supported (parser this) (first_payload this) objs ps_end ->
  chain_objects w (payloads this) old ->
  granted (S (length objs)) w ->
  parse_body this w =
    Done (verdict_status (rules_verdict supported (map get_type (old ++ objs))),
          with_payloads (payloads this ++ seq (length (objects w)) (length objs))
            (with_parser ps_end this))
      (World (objects w ++ map Some objs) (sa_ids w)
         (drop (S (length objs)) (grants w))
         (log w ++ body_entry :: map start_entry (expected_types (first_payload this) objs)
            ++ verdict_log (rules_verdict supported (map get_type (old ++ objs))))).
Proof.
  intros Hrule Hd Hc Hgr. destruct w as [objs0 sas gr lg].
  unfold granted in Hgr. cbn [grants] in Hgr.
  unfold parse_body. rewrite Hrule. unfold bind at 1, logger_log at 1.
  rewrite bool_decide_eq_true_2 by done. cbn [negb objects sa_ids grants log].
  unfold bind at 1.
  rewrite (parse_loop_forward supported objs _ _ _ _ ps_end Hd).
  2:{ apply decodes_chain_length in Hd. lia. }
  2:{ apply (granted_weaken (length objs) (S (length objs))); [lia|exact Hgr]. }
  rewrite bool_decide_eq_true_2 by done. cbn [negb objects sa_ids grants log].
  unfold bind at 1, create_iterator, bind at 1, allocator_alloc.
  cbn [objects sa_ids grants log].
  assert (hd true (drop (length objs) gr) = true) as ->.
  { clear -Hgr. revert gr Hgr. induction (length objs) as [|n IH]; intros gr Hgr.
    - rewrite drop_0. by eapply granted_hd.
    - destruct gr as [|b gr]; [done|]. cbn. apply IH. by apply Forall_cons in Hgr as [_ ?]. }
  unfold ret at 1. rewrite bool_decide_eq_true_2 by done. cbn [negb].
  unfold bind at 1.
  erewrite check_occurences_spec.
  2:{ cbn [payloads with_payloads]. apply Forall2_app.
      - eapply chain_objects_grown. exact Hc.
      - apply chain_objects_seq. }
  unfold ret, add_log. cbn [objects sa_ids grants log].
  f_equal. f_equal.
  - clear. revert gr. induction (length objs) as [|n IH]; intros gr.
    + by rewrite drop_0.
    + destruct gr as [|b gr]; [by rewrite !drop_nil|]. cbn. apply IH.
  - by rewrite <- !app_assoc.
Qed.

(** [parse_body] never takes anything off the chain. *)
Lemma parse_body_appends this w st this' w' :
  parse_body this w = Done (st, this') w' ->
  exists new extra,
    with_payloads (payloads this) (with_parser (parser this) this') = this
    /\ payloads this' = payloads this ++ new
    /\ objects w' = objects w ++ extra
    /\ sa_ids w' = sa_ids w.
Proof.
  intros H. unfold parse_body in H.
  destruct (get_supported_payloads this) as [found supported].
  unfold bind at 1, logger_log at 1 in H.
  destruct (bool_decide (found = SUCCESS)); cbn [negb] in H.
  - unfold bind at 1 in H.
    match type of H with context [parse_loop ?f ?s ?t ?m ?w1] =>
      destruct (parse_loop f s t m w1) as [[st1 this1] w1'|] eqn:Hloop; [|done] end.
    apply parse_loop_appends in Hloop as (new & extra & Hm & Hp & Ho & Hs).
    cbn [objects sa_ids] in Ho, Hs.
    exists new, extra.
    destruct (bool_decide (st1 = SUCCESS)); cbn [negb] in H.
    + destruct w1' as [o1 s1 g1 l1]. cbn [objects sa_ids] in Ho, Hs.
      unfold bind at 1, create_iterator, bind at 1, allocator_alloc in H.
      cbn [objects sa_ids grants log] in H.
      destruct (hd true g1); unfold ret at 1 in H.
      * rewrite bool_decide_eq_true_2 in H by done. cbn [negb] in H.
        unfold bind at 1 in H.
        match type of H with context [check_occurences ?s ?c ?w1] =>
          destruct (check_occurences s c w1) as [st2 w2|] eqn:Hcheck; [|done] end.
        unfold ret in H. injection H as <- <- <-.
        apply check_occurences_frame in Hcheck as (-> & -> & _). done.
      * rewrite bool_decide_eq_false_2 in H by done. cbn [negb] in H.
        unfold bind, logger_log, ret in H. injection H as <- <- <-. done.
    + unfold ret in H. injection H as <- <- <-. done.
  - unfold bind, logger_log, ret in H. injection H as <- <- <-.
    exists [], []. rewrite !app_nil_r. by destruct this.
Qed.

Lemma destroy_fresh objs0 sas gr lg o :
  payload_destroy (length objs0) (World (objs0 ++ [Some o]) sas gr lg)
  = Done tt (World (objs0 ++ [None]) sas gr lg).
Proof.
  unfold payload_destroy; simpl. rewrite list_lookup_middle by done.
  rewrite insert_app_r_alt by done. by rewrite Nat.sub_diag.
Qed.

Lemma header_load_fresh objs0 sas gr lg h :
  header_load (length objs0) (World (objs0 ++ [Some (Header h)]) sas gr lg)
  = Done h (World (objs0 ++ [Some (Header h)]) sas gr lg).
Proof.
  unfold header_load, bind. by rewrite (load_Done _ _ (Header h)) by apply object_at_fresh.
Qed.

(** [parse_header] on a message without ike_sa_id whose buffer starts with a
    header that passes [verify]. *)
Lemma parse_header_forward this w h n :
  decode HEADER (input (parser this)) = Parsed (Header h) n ->
  verify (Header h) = SUCCESS ->
  ike_sa_id this = None ->
  granted 1 w ->
  parse_header this w =
    Done (SUCCESS,
          Message (hdr_maj_version h) (hdr_min_version h) (hdr_next_payload h)
            (hdr_exchange_type h) (negb (hdr_response_flag h)) (hdr_message_id h)
            (Some (length (sa_ids w))) (packet this) (payloads this)
            (Parser (input (parser this)) n))
      (World (objects w ++ [None])
         (sa_ids w ++ [Some (IkeSaId (hdr_initiator_spi h) (hdr_responder_spi h)
                               (hdr_initiator_flag h))])
         (tl (grants w))
         (log w ++ [Log [CONTROL] "parsing header of message" [];
                    Log [CONTROL] "parsing header successfully" []])).
Proof.
  intros Hdec Hver Hid Hgr. destruct w as [objs0 sas gr lg].
  unfold granted in Hgr. cbn [grants] in Hgr.
  unfold parse_header. unfold bind at 1, logger_log at 1.
  unfold bind at 1. rewrite (parse_payload_parsed _ _ (Header h) n).
  2:{ by rewrite drop_0. }
  rewrite bool_decide_eq_true_2 by done. cbn [negb objects sa_ids grants log].
  unfold bind at 1. rewrite (load_Done _ _ (Header h)) by apply object_at_fresh.
  rewrite Hver. rewrite bool_decide_eq_true_2 by done. cbn [negb].
  cbn [ike_sa_id with_parser]. rewrite Hid.
  unfold bind at 1, ret at 1.
  unfold bind at 1. rewrite header_load_fresh.
  unfold bind at 1, ike_sa_id_create, bind at 1, allocator_alloc.
  cbn [objects sa_ids grants log]. rewrite (granted_hd _ _ Hgr).
  cbv beta iota. cbn [objects sa_ids grants log].
  unfold bind at 1. rewrite header_load_fresh.
  unfold bind at 1, logger_log at 1. cbn [objects sa_ids grants log].
  unfold bind at 1. rewrite destroy_fresh.
  unfold ret. cbn. by rewrite <- app_assoc.
Qed.


Lemma get_ike_sa_id_absent this w :
  ike_sa_id this = None -> get_ike_sa_id this w = Done (FAILED, None) w.
Proof. intros H. unfold get_ike_sa_id. by rewrite H. Qed.

Lemma get_ike_sa_id_present this w a s :
  ike_sa_id this = Some a ->
  sa_at w a = Some s ->
  hd true (grants w) = true ->
  let copy := length (sa_ids w) in
  exists w',
    get_ike_sa_id this w = Done (SUCCESS, Some copy) w'
    /\ copy <> a
    /\ sa_at w' copy = Some s
    /\ sa_at w' a = Some s
    /\ objects w' = objects w.
Proof.
  intros Hid Hs Hgr copy. destruct w as [objs0 sas gr lg]. cbn [grants] in Hgr.
  unfold get_ike_sa_id, ike_sa_id_clone. rewrite Hid.
  unfold bind at 1. rewrite (sa_load_Done _ _ _ Hs).
  unfold bind at 1, ike_sa_id_create, bind at 1, allocator_alloc.
  cbn [objects sa_ids grants log]. rewrite Hgr.
  cbv beta iota. cbn [objects sa_ids grants log]. unfold ret.
  eexists. split; [reflexivity|].
  assert (a < length sas) as Hlt.
  { unfold sa_at in Hs. cbn [sa_ids] in Hs.
    destruct (sas !! a) eqn:E; [|done]. by eapply lookup_lt_Some. }
  unfold copy, sa_at in *. cbn [objects sa_ids] in *.
  split; [lia|]. split; [|split; [|done]].
  - rewrite list_lookup_middle by done. by destruct s.
  - by rewrite lookup_app_l.
Qed.

(** The loop bound of the embedding is never used up: a round of
    [parse_loop] that goes on has moved the parser forward. *)
Lemma parse_loop_fuel supported fuel : forall t this,
  bytes_left (parser this) < fuel ->
  never OUT_OF_FUEL (parse_loop fuel supported t this).
Proof.
  induction fuel as [|fuel IH]; intros t this Hleft; [lia|].
  cbn [parse_loop]. case_bool_decide; [apply never_ret|].
  apply never_bind; [apply never_log|intros _].
  destruct (_ && _); [repeat never_step|].
  unfold parse_payload.
  destruct (decode t _) as [p n|s] eqn:Hdec.
  - apply decode_advances in Hdec. rewrite length_drop in Hdec.
    apply never_bind_ret; [apply never_new_object|intros a].
    repeat never_step. apply IH. unfold bytes_left in *. cbn. lia.
  - apply never_ret_bind. cbn beta iota. repeat never_step.
Qed.

Lemma never_count_payloads f t max it : f <> WILD_POINTER -> forall found,
  never f (count_payloads it t max found).
Proof.
  intros Hf. induction it as [|a it IH]; intros found; cbn [count_payloads].
  - apply never_ret.
  - repeat never_step.
Qed.

Lemma never_check_occurences f supported chain :
  f <> WILD_POINTER -> never f (check_occurences supported chain).
Proof.
  intros Hf. induction supported as [|e rest IH]; cbn [check_occurences].
  - apply never_ret.
  - pose proof (never_count_payloads f). repeat never_step.
Qed.

Lemma parse_body_fuel this : never OUT_OF_FUEL (parse_body this).
Proof.
  unfold parse_body, create_iterator. destruct (get_supported_payloads this) as [found supported].
  pose proof (never_check_occurences OUT_OF_FUEL).
  pose proof (parse_loop_fuel supported (S (bytes_left (parser this)))
                (first_payload this) this ltac:(lia)).
  repeat never_step.
Qed.

Lemma set_ike_sa_id_copies this w a s :
  sa_at w a = Some s ->
  hd true (grants w) = true ->
  exists w',
    set_ike_sa_id this (Some a) w =
      Done (SUCCESS, with_ike_sa_id (Some (length (sa_ids w))) this) w'
    /\ length (sa_ids w) <> a
    /\ sa_at w' (length (sa_ids w)) = Some s
    /\ sa_at w' a = Some s.
Proof.
  intros Hs Hgr. destruct w as [objs0 sas gr lg]. cbn [grants] in Hgr.
  unfold set_ike_sa_id, ike_sa_id_clone.
  unfold bind at 1, bind at 1. rewrite (sa_load_Done _ _ _ Hs).
  unfold bind at 1, ike_sa_id_create, bind at 1, allocator_alloc.
  cbn [objects sa_ids grants log]. rewrite Hgr.
  cbv beta iota. cbn [objects sa_ids grants log]. unfold ret.
  eexists. split; [reflexivity|].
  assert (a < length sas) as Hlt.
  { unfold sa_at in Hs. cbn [sa_ids] in Hs.
    destruct (sas !! a) eqn:E; [|done]. by eapply lookup_lt_Some. }
  unfold sa_at in *. cbn [objects sa_ids] in *.
  split; [lia|]. split.
  - rewrite list_lookup_middle by done. by destruct s.
  - by rewrite lookup_app_l.
Qed.

(** *** The round trip *)

Lemma link_chain_types objs : map get_type (link_chain objs) = map get_type objs.
Proof.
  induction objs as [|o objs IH]; [done|].
  cbn [link_chain map]. by rewrite get_type_set_next, IH.
Qed.

Lemma link_chain_length objs : length (link_chain objs) = length objs.
Proof. induction objs as [|o objs IH]; [done|]. cbn [link_chain length]. by rewrite IH. Qed.

Lemma decodes_linked supported objs : forall ps rest,
  Forall round_trips (link_chain objs) ->
  Forall (fun o => get_type o <> NO_PAYLOAD /\ is_supported supported (get_type o) = true) objs ->
  drop (position ps) (input ps) = concat (map encoding (link_chain objs)) ++ rest ->
  decodes_chain supported ps (first_type objs) (link_chain objs)
    (Parser (input ps) (position ps + length (concat (map encoding (link_chain objs))))).
Proof.
  induction objs as [|o objs IH]; intros ps rest Hrt Hsup Hbuf.
  - simpl. rewrite Nat.add_0_r. by destruct ps.
  - cbn [link_chain] in *. apply Forall_cons in Hrt as [(Henc & Hver & Hdec) Hrt].
    apply Forall_cons in Hsup as [[Hno Hs] Hsup].
    set (o' := payload_set_next_type _ o) in *.
    cbn [decodes_chain first_type]. split; [done|]. split; [done|].
    exists (length (encoding o')). split; [|split; [done|]].
    + rewrite Hbuf. cbn [map concat]. rewrite <- app_assoc.
      rewrite <- (get_type_set_next (match objs with [] => NO_PAYLOAD | n :: _ => get_type n end) o).
      apply Hdec.
    + replace (get_next_type o') with (first_type objs)
        by (unfold o'; by rewrite get_next_type_set_next).
      cbn [map concat]. rewrite length_app, Nat.add_assoc.
      apply (IH (Parser (input ps) (position ps + length (encoding o'))) rest); [done|done|].
      cbn [input position]. rewrite <- drop_drop, Hbuf. cbn [map concat].
      rewrite <- app_assoc. by rewrite drop_app_length.
Qed.

Lemma message_create_from_packet_granted p w :
  granted 4 w ->
  message_create_from_packet (Some p) w =
    Done (Some (Message 0 0 NO_PAYLOAD EXCHANGE_TYPE_UNDEFINED true 0 None p []
                  (Parser (chunk_bytes (data p)) 0)))
      (World (objects w) (sa_ids w) (drop 4 (grants w)) (log w)).
Proof.
  intros Hgr. destruct w as [objs0 sas gr lg]. unfold granted in Hgr. cbn [grants] in Hgr.
  unfold message_create_from_packet, parser_create.
  unfold bind at 1, allocator_alloc at 1. cbn [objects sa_ids grants log].
  rewrite (granted_hd _ _ Hgr). apply granted_tl in Hgr. cbn [negb].
  unfold bind at 1, ret at 1.
  unfold bind at 1, allocator_alloc at 1. cbn [objects sa_ids grants log].
  rewrite (granted_hd _ _ Hgr). apply granted_tl in Hgr. cbn [negb].
  unfold bind at 1, bind at 1, allocator_alloc at 1. cbn [objects sa_ids grants log].
  rewrite (granted_hd _ _ Hgr). apply granted_tl in Hgr. unfold ret at 1.
  unfold bind at 1, allocator_alloc at 1. cbn [objects sa_ids grants log].
  rewrite (granted_hd _ _ Hgr). cbn [negb]. unfold ret.
  do 2 f_equal. clear. by destruct gr as [|? [|? [|? [|? ?]]]].
Qed.

Lemma no_denials_drop n o s g l o' s' l' :
  no_denials (World o s g l) -> no_denials (World o' s' (drop n g) l').
Proof. unfold no_denials; cbn [grants]. apply Forall_drop. Qed.

Lemma find_rule_found this supported :
  get_supported_payloads this = (SUCCESS, supported) ->
  exchange_type this = IKE_SA_INIT /\ supported = supported_ike_sa_init_i_payloads.
Proof.
  unfold get_supported_payloads, message_rules, find_rule. cbn [rule_exchange_type].
  case_bool_decide as He; cbn [andb]; [|done].
  destruct (is_request this); cbn; intros [= <-]; done.
Qed.

Lemma ike_sa_init_supported t :
  is_supported supported_ike_sa_init_i_payloads t = true ->
  t = SECURITY_ASSOCIATION \/ t = KEY_EXCHANGE \/ t = NONCE.
Proof.
  unfold supported_ike_sa_init_i_payloads, is_supported. cbn [payload_type].
  repeat case_bool_decide; intros; subst; auto; done.
Qed.

Lemma occurrences_elem t types : t ∈ types -> 0 < occurrences t types.
Proof.
  induction 1 as [|x y l _ IH]; cbn [occurrences].
  - rewrite bool_decide_eq_true_2 by done. lia.
  - lia.
Qed.

Lemma occurrences_NoDup types :
  (forall t, t ∈ types -> occurrences t types <= 1) -> NoDup types.
Proof.
  induction types as [|x types IH]; intros H; constructor.
  - intros Hin. pose proof (H x ltac:(left)) as Hx. cbn [occurrences] in Hx.
    rewrite bool_decide_eq_true_2 in Hx by done.
    apply occurrences_elem in Hin. lia.
  - apply IH. intros t Ht. pose proof (H t ltac:(by right)) as Hx.
    cbn [occurrences] in Hx. lia.
Qed.

Lemma ike_sa_init_valid_NoDup types :
  Forall (fun t => is_supported supported_ike_sa_init_i_payloads t = true) types ->
  rules_verdict supported_ike_sa_init_i_payloads types = None ->
  NoDup types.
Proof.
  intros Hsup Hv. apply occurrences_NoDup. intros t Ht.
  rewrite Forall_forall in Hsup. apply Hsup, ike_sa_init_supported in Ht.
  unfold supported_ike_sa_init_i_payloads, rules_verdict in Hv.
  cbn [payload_type max_occurence min_occurence] in Hv.
  repeat match type of Hv with
         | (if ?b then _ else _) = _ => destruct b eqn:?; [done|]
         end.
  repeat match goal with H : (_ <? _) = false |- _ => apply Nat.ltb_ge in H end.
  destruct Ht as [->|[->| ->]]; done.
Qed.

Lemma chain_objects_NoDup w chain objs :
  chain_objects w chain objs -> NoDup objs -> NoDup chain.
Proof.
  intros Hc. induction Hc as [|a o l os Ha Hc IH]; intros Hnd; [constructor|].
  apply NoDup_cons in Hnd as [Hni Hnd]. constructor; [|by apply IH].
  intros Hin. apply Hni. apply list_elem_of_lookup in Hin as [i Hi].
  destruct (Forall2_lookup_l _ _ _ _ _ Hc Hi) as (o' & Ho' & Hobj).
  assert (o' = o) as -> by congruence.
  apply list_elem_of_lookup. by exists i.
Qed.


(** *** The claims of the message specification *)

Lemma find_rule_ike_sa_init this :
  exchange_type this = IKE_SA_INIT ->
  get_supported_payloads this = (SUCCESS, supported_ike_sa_init_i_payloads).
Proof.
  intros He. unfold get_supported_payloads, message_rules, find_rule.
  cbn [rule_exchange_type rule_is_request supported_payloads].
  rewrite !bool_decide_eq_true_2 by done. by destruct (is_request this).
Qed.

Lemma occurrences_absent t types : t ∉ types -> occurrences t types = 0.
Proof.
  induction types as [|x types IH]; intros Hni; [done|]. cbn [occurrences].
  rewrite bool_decide_eq_false_2.
  - apply IH. intros ?. apply Hni. by right.
  - intros ->. apply Hni. left.
Qed.

(** C1: a message with a rule for its exchange type and direction, source,
    destination and ike_sa_id set, whose chain is valid for that rule, is
    generated, and a fresh message bound to the produced packet parses its
    header and its body with success; the parsed chain holds the payloads of
    the original chain in the same order (as [generate] relinked them, so
    with the same types), and exchange type, message id, direction and the
    ike_sa_id contents are those of the original.  The generator and the
    parser are collaborators: the theorem assumes of them that every object
    [generate] emits round-trips, and of the allocator that it refuses
    nothing. *)
Theorem generate_parse_round_trip this w s id objs supported :
  get_supported_payloads this = (SUCCESS, supported) ->
  Forall (fun o => is_supported supported (get_type o) = true) objs ->
  rules_verdict supported (map get_type objs) = None ->
  source (packet this) <> None ->
  destination (packet this) <> None ->
  ike_sa_id this = Some s ->
  sa_at w s = Some id ->
  chain_objects w (payloads this) objs ->
  no_denials w ->
  Forall round_trips (link_chain (Header (generated_header this id) :: objs)) ->
  exists this1 pkt w1 fresh w2 fresh1 w3 fresh2 w4 s',
    generate this w = Done (SUCCESS, this1, Some pkt) w1
    /\ message_create_from_packet (Some pkt) w1 = Done (Some fresh) w2
    /\ parse_header fresh w2 = Done (SUCCESS, fresh1) w3
    /\ parse_body fresh1 w3 = Done (SUCCESS, fresh2) w4
    /\ chain_objects w4 (payloads fresh2) (link_chain objs)
    /\ map get_type (link_chain objs) = map get_type objs
    /\ exchange_type fresh2 = exchange_type this
    /\ message_id fresh2 = message_id this
    /\ is_request fresh2 = is_request this
    /\ ike_sa_id fresh2 = Some s'
    /\ sa_at w4 s' = Some id.
Proof.
  intros Hrule Hsup Hvalid Hsrc Hdst Hid Hsa Hc Hno Hrt.
  destruct (find_rule_found _ _ Hrule) as [Hex ->].
  assert (NoDup (payloads this)) as Hnd.
  { eapply chain_objects_NoDup; [exact Hc|]. apply (NoDup_fmap_1 get_type).
    change (NoDup (map get_type objs)).
    apply ike_sa_init_valid_NoDup; [|exact Hvalid].
    clear -Hsup. induction Hsup; constructor; done. }
  (* generate *)
  destruct (generate_forward this w s id objs) as (w1 & Hgen & Hobjs1 & _ & _ & Hsa1 & Hgr1 & _);
    try done.
  { by rewrite Hex. }
  { by apply no_denials_granted. }
  { eapply Forall_impl; [exact Hrt|]. by intros o (? & _). }
  assert (hd true (drop 4 (grants w)) = true) as Hclone.
  { apply (granted_hd 0). apply Forall_take. by apply Forall_drop. }
  rewrite Hclone in Hgen.
  set (bytes := concat (map encoding (link_chain (Header (generated_header this id) :: objs)))) in *.
  set (this1 := with_packet (with_data (Some bytes) (packet this)) this) in *.
  assert (no_denials w1) as Hno1.
  { unfold no_denials. rewrite Hgr1. by apply Forall_drop. }
  (* the fresh message *)
  pose proof (message_create_from_packet_granted (packet this1) w1
                (no_denials_granted 4 _ Hno1)) as Hnew.
  set (fresh := Message 0 0 NO_PAYLOAD EXCHANGE_TYPE_UNDEFINED true 0 None (packet this1) []
                  (Parser (chunk_bytes (data (packet this1))) 0)) in *.
  set (w2 := World (objects w1) (sa_ids w1) (drop 4 (grants w1)) (log w1)) in *.
  assert (no_denials w2) as Hno2 by (destruct w1; by eapply no_denials_drop).
  (* parse_header *)
  cbn [link_chain] in Hrt. apply Forall_cons in Hrt as [(_ & Hhver & Hhdec) Hrt].
  set (h' := set_hdr_next_payload
               (match objs with [] => NO_PAYLOAD | n :: _ => get_type n end)
               (generated_header this id)) in *.
  assert (bytes = encoding (Header h') ++ concat (map encoding (link_chain objs))) as Hbytes.
  { reflexivity. }
  pose proof (parse_header_forward fresh w2 h' (length (encoding (Header h')))) as Hhead.
  cbn [parser fresh input] in Hhead.
  assert (chunk_bytes (data (packet this1)) = bytes) as Hchunk by reflexivity.
  rewrite Hchunk, Hbytes in Hhead.
  specialize (Hhead (Hhdec _) Hhver eq_refl (no_denials_granted 1 _ Hno2)).
  rewrite <- Hbytes in Hhead.
  match type of Hhead with _ = Done (_, ?m) ?w => set (fresh1 := m) in *; set (w3 := w) in * end.
  assert (no_denials w3) as Hno3.
  { unfold w3, no_denials. cbn [grants]. change (tail ?l) with (drop 1 l). by apply Forall_drop. }
  (* parse_body *)
  assert (get_supported_payloads fresh1 = (SUCCESS, supported_ike_sa_init_i_payloads)) as Hrule1.
  { rewrite <- Hrule. unfold get_supported_payloads, fresh1, h'.
    cbn [exchange_type is_request hdr_exchange_type hdr_response_flag set_hdr_next_payload
         generated_header]. by rewrite negb_involutive. }
  assert (Forall (fun o => get_type o <> NO_PAYLOAD
                           /\ is_supported supported_ike_sa_init_i_payloads (get_type o) = true) objs)
    as Hsup'.
  { eapply Forall_impl; [exact Hsup|]. intros o Ho. split; [|done].
    apply ike_sa_init_supported in Ho as [->|[->| ->]]; done. }
  pose proof (decodes_linked supported_ike_sa_init_i_payloads objs
                (parser fresh1) [] Hrt Hsup') as Hdecodes.
  cbn [parser fresh1 input position] in Hdecodes.
  rewrite Hbytes, drop_app_length, app_nil_r in Hdecodes. specialize (Hdecodes eq_refl).
  rewrite <- Hbytes in Hdecodes.
  pose proof (parse_body_complete fresh1 w3 _ [] (link_chain objs) _ Hrule1 Hdecodes
                ltac:(constructor) (no_denials_granted _ _ Hno3)) as Hbody.
  cbn [app] in Hbody. rewrite link_chain_types, Hvalid in Hbody.
  cbn [verdict_status verdict_log] in Hbody.
  match type of Hbody with _ = Done (_, ?m) ?w => set (fresh2 := m) in *; set (w4 := w) in * end.
  exists this1, (packet this1), w1, fresh, w2, fresh1, w3, fresh2, w4, (length (sa_ids w2)).
  split; [exact Hgen|]. split; [exact Hnew|]. split; [exact Hhead|]. split; [exact Hbody|].
  split.
  { unfold fresh2, w4. cbn [payloads with_payloads with_parser fresh1 app].
    rewrite link_chain_length, <- (link_chain_length objs) at 1.
    destruct w3 as [o3 s3 g3 l3] eqn:Hw3. cbn [objects]. apply chain_objects_seq. }
  split; [apply link_chain_types|].
  split; [reflexivity|]. split; [reflexivity|]. split.
  { unfold fresh2, fresh1, h'. cbn. apply negb_involutive. }
  split; [reflexivity|].
  unfold sa_at, w4, w3. cbn [sa_ids]. rewrite list_lookup_middle by done.
  by destruct id.
Qed.

(** C2, as amended: for a message whose exchange type is not IKE_SA_INIT the
    rule table has no entry, the lookup answers [NOT_FOUND], and [parse_body]
    fails with [FAILED] before it asks the parser for anything: the message,
    its chain and its parser are as before, nothing is allocated, and the
    two log entries are all that happened. *)
Theorem parse_body_without_rule (this : private_message_t) (w : world) :
  exchange_type this <> IKE_SA_INIT ->
  get_supported_payloads this = (NOT_FOUND, [])
  /\ parse_body this w =
       Done (FAILED, this)
         (add_log [Log [CONTROL] "parsing body of message" [];
                   Log [ERROR] "could not get supported payloads" []] w).
Proof.
  intros He. split; [by apply find_rule_other|].
  unfold parse_body. rewrite find_rule_other by done.
  unfold bind, logger_log, ret, add_log; simpl. rewrite <- app_assoc. reflexivity.
Qed.


(** C4, as amended: for an IKE_SA_INIT body that decodes completely and whose
    chain then holds no KEY_EXCHANGE payload, [parse_body] fails with
    [NOT_SUPPORTED]; the decode loop appends every payload and logs no
    error, the failure is the verdict of the occurrence scan over the complete
    chain, which reports the first rule violated in table order: the
    KEY_EXCHANGE minimum when SECURITY_ASSOCIATION occurs exactly once, the
    SECURITY_ASSOCIATION maximum when it occurs more often, the
    SECURITY_ASSOCIATION minimum when it does not occur. *)
Theorem parse_body_missing_key_exchange this w old objs ps_end :
  exchange_type this = IKE_SA_INIT ->
  decodes_chain supported_ike_sa_init_i_payloads (parser this) (first_payload this)
    objs ps_end ->
  chain_objects w (payloads this) old ->
  granted (S (length objs)) w ->
  KEY_EXCHANGE ∉ map get_type (old ++ objs) ->
  exists verdict,
    parse_body this w =
      Done (NOT_SUPPORTED,
            with_payloads (payloads this ++ seq (length (objects w)) (length objs))
              (with_parser ps_end this))
        (World (objects w ++ map Some objs) (sa_ids w)
           (drop (S (length objs)) (grants w))
           (log w ++ body_entry
              :: map start_entry (expected_types (first_payload this) objs) ++ [verdict]))
    /\ (occurrences SECURITY_ASSOCIATION (map get_type (old ++ objs)) = 1 ->
        verdict = too_few (SupportedPayload KEY_EXCHANGE 1 1))
    /\ (1 < occurrences SECURITY_ASSOCIATION (map get_type (old ++ objs)) ->
        verdict = too_many (SupportedPayload SECURITY_ASSOCIATION 1 1))
    /\ (occurrences SECURITY_ASSOCIATION (map get_type (old ++ objs)) = 0 ->
        verdict = too_few (SupportedPayload SECURITY_ASSOCIATION 1 1)).
Proof.
  intros He Hd Hc Hgr Hke. apply occurrences_absent in Hke.
  rewrite (parse_body_complete this w _ old objs ps_end (find_rule_ike_sa_init _ He) Hd Hc Hgr).
  unfold supported_ike_sa_init_i_payloads, rules_verdict.
  cbn [payload_type max_occurence min_occurence]. rewrite Hke.
  repeat match goal with
         | |- context [if ?b then _ else _] => destruct b eqn:?
         end;
    try (eexists; split; [reflexivity|]);
    repeat match goal with
           | H : (_ <? _) = true |- _ => apply Nat.ltb_lt in H
           | H : (_ <? _) = false |- _ => apply Nat.ltb_ge in H
           end;
    try done; try (repeat split; intros; (done || lia)); lia.
Qed.

(** C5: with the exchange type undefined, or without source or destination,
    [generate] fails with [INVALID_STATE]; it has logged its opening line and
    one complaint and done nothing else: no request to the allocator, so no
    header and no generator, no object touched, the message and the byte
    buffer of its packet as before, no packet produced. *)
Theorem generate_invalid_state (this : private_message_t) (w : world) :
  exchange_type this = EXCHANGE_TYPE_UNDEFINED
  \/ source (packet this) = None \/ destination (packet this) = None ->
  generate this w =
    Done (INVALID_STATE, this, None)
      (add_log [Log [CONTROL] "generating message, contains %d payloads"
                  [ArgCount (length (payloads this))];
                Log [ERROR]
                  (if bool_decide (exchange_type this = EXCHANGE_TYPE_UNDEFINED)
                   then "exchange type is not defined"
                   else "source/destination not defined") []] w).
Proof.
  intros Hpre. unfold generate, bind, logger_log, ret, add_log; cbn.
  case_bool_decide as Hex.
  - simpl. rewrite <- app_assoc. reflexivity.
  - destruct Hpre as [?|Hnull]; [done|].
    assert (is_null (source (packet this)) || is_null (destination (packet this)) = true) as ->.
    { destruct Hnull as [-> | ->]; cbn; [done | apply orb_true_r]. }
    simpl. rewrite <- app_assoc. reflexivity.
Qed.

(** C6, as amended: after a successful [generate] of a message whose chain
    points at live, pairwise distinct payloads, every payload of the chain
    records the type of its successor and the last one [NO_PAYLOAD], types and
    bodies being untouched.  A successful [add_payload] appends the payload,
    recording its type as first-payload-type when the chain was empty and
    otherwise setting the next-type of the previous last element to it; it
    does succeed when the payload and the last element are live and the
    allocator grants the list node.  On a chain of live, pairwise distinct
    payloads that does not hold the new one it keeps the adjacent part of the
    linkage and the first-payload-type, and it never writes the next-type of
    the payload it appends: the chain is completely linked afterwards exactly
    when its adjacent pairs were linked before and the appended payload
    already names [NO_PAYLOAD]. *)
Theorem chain_linkage :
  (forall this w objs this' pkt w',
      NoDup (payloads this) ->
      chain_objects w (payloads this) objs ->
      generate this w = Done (SUCCESS, this', pkt) w' ->
      payloads this' = payloads this
      /\ chain_objects w' (payloads this') (link_chain objs)
      /\ chain_linked w' (payloads this'))
  /\ (forall this payload w this' w',
        add_payload this payload w = Done (SUCCESS, this') w' ->
        exists p,
          object_at w payload = Some p
          /\ payloads this' = payloads this ++ [payload]
          /\ match last (payloads this) with
             | None =>
                 first_payload this' = get_type p /\ objects w' = objects w
             | Some last_payload =>
                 first_payload this' = first_payload this
                 /\ exists q, object_at w last_payload = Some q
                      /\ objects w' =
                           <[last_payload := Some (payload_set_next_type (get_type p) q)]>
                             (objects w)
             end)
  /\ (forall this payload w p,
        object_at w payload = Some p ->
        (forall a, last (payloads this) = Some a -> is_Some (object_at w a)) ->
        hd true (grants w) = true ->
        exists this' w', add_payload this payload w = Done (SUCCESS, this') w')
  /\ (forall this payload w objs this' w',
        NoDup (payloads this) ->
        payload ∉ payloads this ->
        chain_objects w (payloads this) objs ->
        add_payload this payload w = Done (SUCCESS, this') w' ->
        exists p,
          object_at w payload = Some p
          /\ chain_objects w' (payloads this') (relink_last (get_type p) objs ++ [p])
          /\ (adjacent_linked (relink_last (get_type p) objs ++ [p]) <-> adjacent_linked objs)
          /\ ((objs <> [] -> first_payload this = first_type objs) ->
              first_payload this' = first_type (relink_last (get_type p) objs ++ [p]))
          /\ (chain_linked w' (payloads this')
              <-> adjacent_linked objs /\ get_next_type p = NO_PAYLOAD)).
Proof.
  split; [|split; [|split]].
  - intros. by eapply generate_links.
  - intros. by eapply add_payload_spec.
  - intros. by eapply add_payload_forward.
  - intros this payload w objs this' w' Hnd Hni Hc Hrun.
    destruct (add_payload_objects _ _ _ _ _ _ Hnd Hni Hc Hrun) as (p & Hp & Hc').
    exists p. split; [done|]. split; [done|]. split; [apply adjacent_linked_relink|].
    split.
    + intros Hfirst. rewrite first_type_relink.
      destruct (add_payload_spec _ _ _ _ _ Hrun) as (p' & Hp' & _ & Hcase).
      assert (p' = p) as -> by congruence.
      destruct Hc as [|a o chain objs Ha Hc].
      * cbn in Hcase. by destruct Hcase.
      * destruct (last (a :: chain)) as [lp|] eqn:Hlast.
        -- destruct Hcase as [-> _]. by apply Hfirst.
        -- by destruct chain using rev_ind; [|rewrite app_comm_cons, last_snoc in Hlast].
    + rewrite (chain_linked_objects _ _ _ Hc'), adjacent_linked_relink, last_snoc.
      split.
      * intros [Hadj Hlast]. split; [done|]. by apply Hlast.
      * intros [Hadj Hlast]. split; [done|]. by intros o [= <-].
Qed.


(** C8, as amended: without ike_sa_id [get_ike_sa_id] fails with [FAILED] and
    changes nothing; with a live ike_sa_id, and the allocator willing, it
    yields a new identifier at a fresh address, with the contents of the
    message's own, which stays where it was; [set_ike_sa_id] likewise keeps
    a copy of what it is given, not the caller's instance. *)
Theorem get_ike_sa_id_copy this w :
  (ike_sa_id this = None -> get_ike_sa_id this w = Done (FAILED, None) w)
  /\ (forall a s,
        ike_sa_id this = Some a ->
        sa_at w a = Some s ->
        hd true (grants w) = true ->
        exists w',
          get_ike_sa_id this w = Done (SUCCESS, Some (length (sa_ids w))) w'
          /\ length (sa_ids w) <> a
          /\ sa_at w' (length (sa_ids w)) = Some s
          /\ sa_at w' a = Some s
          /\ objects w' = objects w)
  /\ (forall a s,
        sa_at w a = Some s ->
        hd true (grants w) = true ->
        exists w',
          set_ike_sa_id this (Some a) w =
            Done (SUCCESS, with_ike_sa_id (Some (length (sa_ids w))) this) w'
          /\ length (sa_ids w) <> a
          /\ sa_at w' (length (sa_ids w)) = Some s
          /\ sa_at w' a = Some s).
Proof.
  split; [|split].
  - apply get_ike_sa_id_absent.
  - intros a s Hid Hs Hgr. by apply get_ike_sa_id_present.
  - intros a s Hs Hgr. by apply set_ike_sa_id_copies.
Qed.

(** C9: the checks of [generate] do not look at the ike_sa_id.  A message
    with exchange type, source and destination set and no ike_sa_id passes
    them and, unless the allocator refuses the header, dereferences the null
    ike_sa_id; with an ike_sa_id set, [generate] dereferences no null
    pointer at all. *)
Theorem generate_ike_sa_id_unchecked :
  (forall this w,
      exchange_type this <> EXCHANGE_TYPE_UNDEFINED ->
      source (packet this) <> None ->
      destination (packet this) <> None ->
      ike_sa_id this = None ->
      generate this w =
        if hd true (grants w) then Fault NULL_POINTER
        else Done (OUT_OF_RES, this, None)
               (World (objects w) (sa_ids w) (tl (grants w))
                  (log w ++ [Log [CONTROL] "generating message, contains %d payloads"
                               [ArgCount (length (payloads this))]])))
  /\ (forall this w, ike_sa_id this <> None -> generate this w <> Fault NULL_POINTER).
Proof.
  split.
  - apply generate_null_ike_sa_id.
  - intros this w Hid. by apply never_null_generate.
Qed.

(** C10: [parse_body] never takes a payload off the chain: whatever its
    outcome, the chain afterwards is the chain before followed by the newly
    parsed payloads, and the objects of the store are where they were; and
    when the body decodes completely, the status is the verdict of the rule
    on the types of the old and the new payloads taken together.  The loop
    bound of the embedding is never what ends [parse_body]. *)
Theorem parse_body_keeps_chain :
  (forall this w st this' w',
      parse_body this w = Done (st, this') w' ->
      exists new extra,
        with_payloads (payloads this) (with_parser (parser this) this') = this
        /\ payloads this' = payloads this ++ new
        /\ objects w' = objects w ++ extra
        /\ sa_ids w' = sa_ids w)
  /\ (forall this w supported old objs ps_end,
        get_supported_payloads this = (SUCCESS, supported) ->
        decodes_chain supported (parser this) (first_payload this) objs ps_end ->
        chain_objects w (payloads this) old ->
        granted (S (length objs)) w ->
        exists w',
          parse_body this w =
            Done (verdict_status (rules_verdict supported (map get_type (old ++ objs))),
                  with_payloads (payloads this ++ seq (length (objects w)) (length objs))
                    (with_parser ps_end this)) w'
          /\ chain_objects w' (payloads this ++ seq (length (objects w)) (length objs))
               (old ++ objs))
  /\ (forall this w, parse_body this w <> Fault OUT_OF_FUEL).
Proof.
  split; [|split].
  - intros. by eapply parse_body_appends.
  - intros this w supported old objs ps_end Hrule Hd Hc Hgr.
    eexists. split; [by eapply parse_body_complete|].
    destruct w as [objs0 sas gr lg]. cbn [objects]. apply Forall2_app.
    + by eapply chain_objects_grown.
    + apply chain_objects_seq.
  - intros this. apply parse_body_fuel.
Qed.

End Properties.

(** ** Further properties of message.c *)

Section Further.
Context {col : Collaborators}.

Lemma parse_loop_prefix supported objs : forall fuel t this w ps_mid t_mid,
  decodes_prefix supported (parser this) t objs ps_mid t_mid ->
  granted (length objs) w ->
  parse_loop (length objs + fuel) supported t this w =
    parse_loop fuel supported t_mid (after_parsing objs ps_mid this w)
      (store_after_parsing objs (map start_entry (expected_types t objs)) w).
Proof.
  induction objs as [|o objs IH]; intros fuel t this w ps_mid t_mid Hd Hgr.
  - destruct Hd as [-> ->]. destruct w as [objs0 sas gr lg], this.
    unfold after_parsing, store_after_parsing, with_payloads, with_parser; simpl.
    by rewrite !app_nil_r.
  - destruct Hd as (Ht & Hsup & n & Hdec & Hver & Hd).
    destruct w as [objs0 sas gr lg]. unfold granted in Hgr. cbn [grants length] in Hgr.
    cbn [length Nat.add parse_loop]. rewrite bool_decide_eq_false_2 by done.
    unfold bind at 1, logger_log at 1. rewrite Hsup. cbn [negb andb objects sa_ids grants log].
    unfold bind at 1. rewrite (parse_payload_parsed _ _ _ _ _ _ _ _ Hdec).
    rewrite bool_decide_eq_true_2 by done. cbn [negb].
    unfold bind at 1. rewrite (load_Done _ _ o) by apply object_at_fresh.
    rewrite bool_decide_eq_true_2 by done. cbn [negb].
    unfold bind at 1, insert_last, bind at 1, allocator_alloc. cbn [objects sa_ids grants log].
    rewrite (granted_hd _ _ Hgr). apply granted_tl in Hgr. unfold ret at 1.
    rewrite bool_decide_eq_true_2 by done. cbn [negb].
    rewrite (IH fuel _ _ _ ps_mid t_mid); [|exact Hd|exact Hgr].
    unfold after_parsing, store_after_parsing.
    cbn [objects sa_ids grants log length map expected_types seq payloads parser
         with_payloads with_parser].
    f_equal.
    + unfold with_payloads, with_parser; cbn.
      rewrite <- app_assoc, length_app, Nat.add_1_r. reflexivity.
    + f_equal.
      * by rewrite <- app_assoc.
      * destruct gr; simpl; [by rewrite drop_nil|done].
      * by rewrite <- app_assoc.
Qed.

Lemma decodes_prefix_left supported objs : forall ps t ps_mid t_mid,
  decodes_prefix supported ps t objs ps_mid t_mid ->
  length objs + bytes_left ps_mid <= bytes_left ps.
Proof.
  induction objs as [|o objs IH]; intros ps t ps_mid t_mid Hd.
  - destruct Hd as [_ ->]. simpl. lia.
  - destruct Hd as (_ & _ & n & Hdec & _ & Hd).
    apply decode_advances in Hdec. rewrite length_drop in Hdec.
    apply IH in Hd. unfold bytes_left in *. simpl in *. lia.
Qed.

(** [parse_body] up to the round of [parse_loop] that follows a decoded
    prefix. *)
Lemma parse_body_prefix this w supported objs ps_mid t_mid :
  get_supported_payloads this = (SUCCESS, supported) ->
  decodes_prefix supported (parser this) (first_payload this) objs ps_mid t_mid ->
  granted (length objs) w ->
  exists fuel,
    parse_body this w =
      (let* (status, this) :=
         parse_loop (S fuel) supported t_mid (after_parsing objs ps_mid this w) in
       if negb (bool_decide (status = SUCCESS)) then ret (status, this)
       else
         let* status := create_iterator in
         if negb (bool_decide (status = SUCCESS)) then
           logger_log [ERROR] "Could not create iterator to check supported payloads" [];;
           ret (status, this)
         else
           let* status := check_occurences supported (payloads this) in
           ret (status, this))
        (store_after_parsing objs
           (body_entry :: map start_entry (expected_types (first_payload this) objs)) w).
Proof.
  intros Hrule Hd Hgr.
  pose proof (decodes_prefix_left _ _ _ _ _ _ Hd) as Hleft.
  exists (bytes_left (parser this) - length objs).
  unfold parse_body. rewrite Hrule. unfold bind at 1, logger_log at 1.
  rewrite bool_decide_eq_true_2 by done. cbn [negb].
  replace (S (bytes_left (parser this)))
    with (length objs + S (bytes_left (parser this) - length objs)) by lia.
  unfold bind at 1.
  rewrite (parse_loop_prefix supported objs _ _ _ _ ps_mid t_mid Hd).
  2:{ destruct w; exact Hgr. }
  destruct w as [objs0 sas gr lg].
  unfold bind at 1, after_parsing, store_after_parsing.
  cbn [objects sa_ids grants log]. rewrite <- app_assoc. reflexivity.
Qed.

(** X1: a payload type that the rule does not list ends [parse_body] with
    [NOT_SUPPORTED] before the parser is asked for it: the parser stands
    where the payloads before it left it, those payloads stay on the chain,
    and the occurrence check is not run. *)
Theorem parse_body_unsupported_type this w supported objs ps_mid t_mid :
  get_supported_payloads this = (SUCCESS, supported) ->
  decodes_prefix supported (parser this) (first_payload this) objs ps_mid t_mid ->
  granted (length objs) w ->
  t_mid <> NO_PAYLOAD ->
  is_supported supported t_mid = false ->
  parse_body this w =
    Done (NOT_SUPPORTED, after_parsing objs ps_mid this w)
      (store_after_parsing objs
         (body_entry :: map start_entry (expected_types (first_payload this) objs)
            ++ [start_entry t_mid;
                Log [ERROR] "payload type %s not supported" [ArgType t_mid]]) w).
Proof.
  intros Hrule Hd Hgr Hno Hsup.
  destruct (parse_body_prefix _ _ _ _ _ _ Hrule Hd Hgr) as [fuel ->].
  destruct w as [objs0 sas gr lg]. unfold store_after_parsing.
  cbn [objects sa_ids grants log].
  unfold bind at 1. cbn [parse_loop]. rewrite bool_decide_eq_false_2 by done.
  rewrite Hsup. cbn [negb andb].
  unfold bind, logger_log, ret. cbn [objects sa_ids grants log negb bool_decide].
  rewrite bool_decide_eq_false_2 by done. cbn [negb].
  do 2 f_equal. rewrite <- !app_assoc. reflexivity.
Qed.

(** X2: when the parser refuses a payload, [parse_body] ends with the
    parser's own status; the payloads decoded before stay on the chain and
    the occurrence check is not run. *)
Theorem parse_body_parser_failure this w supported objs ps_mid t_mid s :
  get_supported_payloads this = (SUCCESS, supported) ->
  decodes_prefix supported (parser this) (first_payload this) objs ps_mid t_mid ->
  granted (length objs) w ->
  t_mid <> NO_PAYLOAD ->
  is_supported supported t_mid = true ->
  decode t_mid (drop (position ps_mid) (input ps_mid)) = Rejected s ->
  s <> SUCCESS ->
  parse_body this w =
    Done (s, after_parsing objs ps_mid this w)
      (store_after_parsing objs
         (body_entry :: map start_entry (expected_types (first_payload this) objs)
            ++ [start_entry t_mid;
                Log [ERROR] "payload type %s could not be parsed" [ArgType t_mid]]) w).
Proof.
  intros Hrule Hd Hgr Hno Hsup Hdec Hs.
  destruct (parse_body_prefix _ _ _ _ _ _ Hrule Hd Hgr) as [fuel ->].
  destruct w as [objs0 sas gr lg]. unfold store_after_parsing.
  cbn [objects sa_ids grants log].
  unfold bind at 1. cbn [parse_loop]. rewrite bool_decide_eq_false_2 by done.
  rewrite Hsup. cbn [negb andb].
  unfold bind at 1, logger_log at 1. cbn [objects sa_ids grants log].
  unfold bind at 1, parse_payload.
  cbn [parser after_parsing with_payloads with_parser]. rewrite Hdec.
  unfold ret at 1. rewrite (bool_decide_eq_false_2 _ Hs). cbn [negb].
  unfold bind, logger_log, ret. cbn [objects sa_ids grants log].
  rewrite (bool_decide_eq_false_2 _ Hs). cbn [negb].
  do 2 f_equal. rewrite <- !app_assoc. reflexivity.
Qed.

(** X3: a decoded payload that fails its own verification ends
    [parse_body] with [VERIFY_ERROR], whatever status the verification gave;
    the payload is not put on the chain and is not destroyed either: it stays
    in the store with no owner. *)
Theorem parse_body_verify_failure this w supported objs ps_mid t_mid o n :
  get_supported_payloads this = (SUCCESS, supported) ->
  decodes_prefix supported (parser this) (first_payload this) objs ps_mid t_mid ->
  granted (length objs) w ->
  t_mid <> NO_PAYLOAD ->
  is_supported supported t_mid = true ->
  decode t_mid (drop (position ps_mid) (input ps_mid)) = Parsed o n ->
  verify o <> SUCCESS ->
  exists w',
    parse_body this w =
      Done (VERIFY_ERROR,
            after_parsing objs (Parser (input ps_mid) (position ps_mid + n)) this w) w'
    /\ object_at w' (length (objects w) + length objs) = Some o
    /\ (Forall (fun a => a < length (objects w)) (payloads this) ->
        (length (objects w) + length objs)%nat
          ∉ payloads (after_parsing objs (Parser (input ps_mid) (position ps_mid + n)) this w))
    /\ grants w' = drop (length objs) (grants w)
    /\ log w' = log w ++ body_entry
                  :: map start_entry (expected_types (first_payload this) objs)
                  ++ [start_entry t_mid;
                      Log [ERROR] "payload type %s could not be verified" [ArgType t_mid]].
Proof.
  intros Hrule Hd Hgr Hno Hsup Hdec Hver.
  destruct (parse_body_prefix _ _ _ _ _ _ Hrule Hd Hgr) as [fuel ->].
  destruct w as [objs0 sas gr lg]. unfold store_after_parsing.
  cbn [objects sa_ids grants log].
  unfold bind at 1. cbn [parse_loop]. rewrite bool_decide_eq_false_2 by done.
  rewrite Hsup. cbn [negb andb].
  unfold bind at 1, logger_log at 1. cbn [objects sa_ids grants log].
  unfold bind at 1, parse_payload.
  cbn [parser after_parsing with_payloads with_parser]. rewrite Hdec.
  unfold bind at 1, new_object at 1, ret at 1. cbn [objects sa_ids grants log].
  rewrite bool_decide_eq_true_2 by done. cbn [negb].
  unfold bind at 1, load at 1. cbn [objects sa_ids grants log].
  rewrite (list_lookup_middle _ [] (Some o)) by done.
  rewrite (bool_decide_eq_false_2 _ Hver). cbn [negb].
  unfold bind, logger_log, ret. cbn [objects sa_ids grants log].
  eexists. split; [reflexivity|].
  cbn [objects sa_ids grants log payloads].
  repeat split.
  - unfold object_at. cbn [objects].
    replace (length objs0 + length objs) with (length (objs0 ++ map Some objs))
      by (by rewrite length_app, length_map).
    by rewrite (list_lookup_middle _ [] (Some o)).
  - intros Hbound [Hin|Hin]%elem_of_app.
    + rewrite Forall_forall in Hbound. apply Hbound in Hin. lia.
    + apply elem_of_seq in Hin. simpl in Hin. lia.
  - rewrite <- !app_assoc. reflexivity.
Qed.

(** X4: when the list refuses the decoded and verified payload,
    [parse_body] ends with [OUT_OF_RES]; the payload is on no chain and is
    not destroyed: it stays in the store with no owner. *)
Theorem parse_body_insert_refused this w supported objs ps_mid t_mid o n :
  get_supported_payloads this = (SUCCESS, supported) ->
  decodes_prefix supported (parser this) (first_payload this) objs ps_mid t_mid ->
  granted (length objs) w ->
  t_mid <> NO_PAYLOAD ->
  is_supported supported t_mid = true ->
  decode t_mid (drop (position ps_mid) (input ps_mid)) = Parsed o n ->
  verify o = SUCCESS ->
  grants w !! length objs = Some false ->
  exists w',
    parse_body this w =
      Done (OUT_OF_RES,
            after_parsing objs (Parser (input ps_mid) (position ps_mid + n)) this w) w'
    /\ object_at w' (length (objects w) + length objs) = Some o
    /\ (Forall (fun a => a < length (objects w)) (payloads this) ->
        (length (objects w) + length objs)%nat
          ∉ payloads (after_parsing objs (Parser (input ps_mid) (position ps_mid + n)) this w))
    /\ grants w' = drop (S (length objs)) (grants w)
    /\ log w' = log w ++ body_entry
                  :: map start_entry (expected_types (first_payload this) objs)
                  ++ [start_entry t_mid;
                      Log [ERROR]
                        "Could not insert current payload to internal list cause of ressource exhausting"
                        []].
Proof.
  intros Hrule Hd Hgr Hno Hsup Hdec Hver Hrefused.
  destruct (parse_body_prefix _ _ _ _ _ _ Hrule Hd Hgr) as [fuel ->].
  destruct w as [objs0 sas gr lg]. unfold store_after_parsing.
  cbn [objects sa_ids grants log] in *.
  unfold bind at 1. cbn [parse_loop]. rewrite bool_decide_eq_false_2 by done.
  rewrite Hsup. cbn [negb andb].
  unfold bind at 1, logger_log at 1. cbn [objects sa_ids grants log].
  unfold bind at 1, parse_payload.
  cbn [parser after_parsing with_payloads with_parser]. rewrite Hdec.
  unfold bind at 1, new_object at 1, ret at 1. cbn [objects sa_ids grants log].
  rewrite bool_decide_eq_true_2 by done. cbn [negb].
  unfold bind at 1, load at 1. cbn [objects sa_ids grants log].
  rewrite (list_lookup_middle _ [] (Some o)) by done.
  rewrite (bool_decide_eq_true_2 _ Hver). cbn [negb].
  unfold bind at 1, insert_last at 1, bind at 1, allocator_alloc at 1.
  cbn [objects sa_ids grants log].
  assert (hd true (drop (length objs) gr) = false) as ->.
  { pose proof (lookup_drop gr (length objs) 0) as Hhd.
    rewrite Nat.add_0_r, Hrefused in Hhd.
    by destruct (drop (length objs) gr); simplify_eq/=. }
  unfold ret at 1. rewrite bool_decide_eq_false_2 by done. cbn [negb].
  unfold bind, logger_log, ret. cbn [objects sa_ids grants log].
  eexists. split; [reflexivity|].
  cbn [objects sa_ids grants log payloads].
  repeat split.
  - unfold object_at. cbn [objects].
    replace (length objs0 + length objs) with (length (objs0 ++ map Some objs))
      by (by rewrite length_app, length_map).
    by rewrite (list_lookup_middle _ [] (Some o)).
  - intros Hbound [Hin|Hin]%elem_of_app.
    + rewrite Forall_forall in Hbound. apply Hbound in Hin. lia.
    + apply elem_of_seq in Hin. simpl in Hin. lia.
  - change (S (length objs)) with (1 + length objs). rewrite Nat.add_comm, <- drop_drop.
    by destruct (drop (length objs) gr).
  - rewrite <- !app_assoc. reflexivity.
Qed.

Lemma decodes_chain_prefix supported objs : forall ps t ps_end,
  decodes_chain supported ps t objs ps_end ->
  decodes_prefix supported ps t objs ps_end NO_PAYLOAD.
Proof.
  induction objs as [|o objs IH]; intros ps t ps_end Hd.
  - destruct Hd as [-> ->]. by split.
  - destruct Hd as (Ht & Hsup & n & Hdec & Hver & Hd).
    split; [done|]. split; [done|]. exists n. eauto.
Qed.

Lemma grant_refused n gr :
  gr !! n = Some false ->
  hd true (drop n gr) = false /\ tl (drop n gr) = drop (S n) gr.
Proof.
  intros Hrefused.
  pose proof (lookup_drop gr n 0) as Hhd. rewrite Nat.add_0_r, Hrefused in Hhd.
  change (S n) with (1 + n). rewrite Nat.add_comm, <- drop_drop.
  by destruct (drop n gr); simplify_eq/=.
Qed.

(** X5: when the buffer is decoded to its end but the iterator for the
    occurrence check is refused, [parse_body] ends with [OUT_OF_RES]: the
    payloads are on the chain and the rule has not been applied to them. *)
Theorem parse_body_iterator_refused this w supported objs ps_end :
  get_supported_payloads this = (SUCCESS, supported) ->
  decodes_chain supported (parser this) (first_payload this) objs ps_end ->
  granted (length objs) w ->
  grants w !! length objs = Some false ->
  parse_body this w =
    Done (OUT_OF_RES, after_parsing objs ps_end this w)
      (World (objects w ++ map Some objs) (sa_ids w)
         (drop (S (length objs)) (grants w))
         (log w ++ body_entry
            :: map start_entry (expected_types (first_payload this) objs)
            ++ [Log [ERROR] "Could not create iterator to check supported payloads" []])).
Proof.
  intros Hrule Hd%decodes_chain_prefix Hgr Hrefused.
  destruct (parse_body_prefix _ _ _ _ _ _ Hrule Hd Hgr) as [fuel ->].
  destruct w as [objs0 sas gr lg]. unfold store_after_parsing.
  cbn [objects sa_ids grants log] in *.
  destruct (grant_refused _ _ Hrefused) as [Hhd Htl].
  unfold bind at 1. cbn [parse_loop]. rewrite bool_decide_eq_true_2 by done.
  unfold ret at 1. rewrite bool_decide_eq_true_2 by done. cbn [negb].
  unfold bind at 1, create_iterator, bind at 1, allocator_alloc.
  cbn [objects sa_ids grants log]. rewrite Hhd, Htl.
  unfold ret at 1. rewrite bool_decide_eq_false_2 by done. cbn [negb].
  unfold bind, logger_log, ret. cbn [objects sa_ids grants log].
  do 2 f_equal. rewrite <- !app_assoc. reflexivity.
Qed.

Lemma count_payloads_success_inv t max it : forall found w n w',
  count_payloads it t max found w = Done (SUCCESS, n) w' ->
  exists objs, chain_objects w it objs.
Proof.
  induction it as [|a it IH]; intros found w n w' Hrun.
  - exists []. constructor.
  - cbn [count_payloads] in Hrun. unfold bind at 1 in Hrun.
    destruct (load a w) as [p w1|f] eqn:Hload; [|discriminate].
    apply load_inv in Hload as [-> Hobj].
    assert (exists objs, chain_objects w it objs) as [objs Hobjs].
    { case_bool_decide.
      - destruct (max <? S found) eqn:Hmax.
        + unfold bind, logger_log, ret in Hrun. discriminate.
        + by eapply IH.
      - by eapply IH. }
    exists (p :: objs). by constructor.
Qed.

Lemma check_occurences_success_inv e supported chain w w' :
  check_occurences (e :: supported) chain w = Done SUCCESS w' ->
  exists objs, chain_objects w chain objs.
Proof.
  cbn [check_occurences]. unfold bind at 1.
  destruct (count_payloads chain _ _ 0 w) as [[st n] w1|f] eqn:Hcount; [|discriminate].
  case_bool_decide as Hst.
  - subst st. intros _. by eapply count_payloads_success_inv.
  - cbn [negb]. unfold ret. congruence.
Qed.

Lemma rules_verdict_ike_sa_init types :
  rules_verdict supported_ike_sa_init_i_payloads types = None ->
  occurrences SECURITY_ASSOCIATION types = 1
  /\ occurrences KEY_EXCHANGE types = 1
  /\ occurrences NONCE types = 1.
Proof.
  unfold supported_ike_sa_init_i_payloads. cbn [rules_verdict payload_type max_occurence min_occurence].
  repeat match goal with
         | |- context [?a <? ?b] => destruct (Nat.ltb_spec a b); [discriminate|]
         end.
  intros _. lia.
Qed.

(** X6: [SUCCESS] of [parse_body] is sound for the rule: the message is an
    IKE_SA_INIT message and its chain, the payloads it had before included,
    holds exactly one SECURITY_ASSOCIATION, one KEY_EXCHANGE and one NONCE
    payload. *)
Theorem parse_body_success_sound this w this' w' :
  parse_body this w = Done (SUCCESS, this') w' ->
  exchange_type this = IKE_SA_INIT
  /\ exists objs,
       chain_objects w' (payloads this') objs
       /\ occurrences SECURITY_ASSOCIATION (map get_type objs) = 1
       /\ occurrences KEY_EXCHANGE (map get_type objs) = 1
       /\ occurrences NONCE (map get_type objs) = 1.
Proof.
  unfold parse_body. intros Hrun.
  destruct (get_supported_payloads this) as [found supported] eqn:Hrule.
  unfold bind at 1, logger_log at 1 in Hrun.
  case_bool_decide as Hfound; cbn [negb] in Hrun.
  2:{ unfold bind, logger_log, ret in Hrun. discriminate. }
  subst found. apply find_rule_found in Hrule as [Hex ->]. split; [done|].
  unfold bind at 1 in Hrun.
  destruct (parse_loop _ _ _ _ _) as [[st this1] w1|f]; [|discriminate].
  case_bool_decide as Hst; cbn [negb] in Hrun.
  2:{ unfold ret in Hrun. congruence. }
  unfold bind at 1, create_iterator, bind at 1, allocator_alloc in Hrun.
  destruct (hd true (grants w1)); unfold ret at 1 in Hrun; cbn [negb] in Hrun.
  2:{ rewrite bool_decide_eq_false_2 in Hrun by done.
      unfold bind, logger_log, ret in Hrun. discriminate. }
  rewrite bool_decide_eq_true_2 in Hrun by done. cbn [negb] in Hrun.
  unfold bind at 1 in Hrun.
  destruct (check_occurences _ _ _) as [st2 w2|f] eqn:Hcheck; [|discriminate].
  unfold ret in Hrun. injection Hrun as -> -> ->.
  destruct (check_occurences_success_inv _ _ _ _ _ Hcheck) as [objs Hobjs].
  rewrite (check_occurences_spec _ _ _ _ Hobjs) in Hcheck.
  destruct (rules_verdict supported_ike_sa_init_i_payloads (map get_type objs)) eqn:Hv;
    [discriminate Hcheck|].
  injection Hcheck as <-.
  exists objs. split; [exact Hobjs|].
  by apply rules_verdict_ike_sa_init.
Qed.

Lemma live_grown objs0 extra sas gr lg sas' gr' lg' chain :
  Forall (fun a => is_Some (object_at (World objs0 sas gr lg) a)) chain ->
  Forall (fun a => is_Some (object_at (World (objs0 ++ extra) sas' gr' lg') a)) chain.
Proof.
  intros Hlive. eapply Forall_impl; [exact Hlive|]. intros a [o Ho]. exists o.
  unfold object_at in *. cbn [objects] in *.
  destruct (objs0 !! a) as [x|] eqn:Hl; [|done].
  by rewrite (lookup_app_l_Some _ _ _ _ Hl).
Qed.

Lemma live_chain_objects w chain :
  Forall (fun a => is_Some (object_at w a)) chain ->
  exists objs, chain_objects w chain objs.
Proof.
  induction 1 as [|a chain [o Ho] _ [objs IH]].
  - exists []. constructor.
  - exists (o :: objs). by constructor.
Qed.

Lemma parse_loop_returns supported fuel : forall t this w,
  (forall t bs, decode t bs <> Rejected SUCCESS) ->
  bytes_left (parser this) < fuel ->
  Forall (fun a => is_Some (object_at w a)) (payloads this) ->
  exists st this' w',
    parse_loop fuel supported t this w = Done (st, this') w'
    /\ Forall (fun a => is_Some (object_at w' a)) (payloads this').
Proof.
  intros t this w Hparser. revert t this w.
  induction fuel as [|fuel IH]; intros t this w Hfuel Hlive; [lia|].
  cbn [parse_loop]. case_bool_decide as Ht.
  { by eexists _, _, _. }
  unfold bind at 1, logger_log at 1.
  destruct w as [objs0 sas gr lg]. cbn [objects sa_ids grants log].
  destruct (negb (is_supported supported t) && _).
  { unfold bind, logger_log, ret. eexists _, _, _. split; [reflexivity|].
    eapply Forall_impl; [exact Hlive|]. by intros a. }
  unfold bind at 1, parse_payload.
  destruct (decode t _) as [o n|s] eqn:Hdec.
  - unfold bind at 1, new_object, ret at 1. cbn [objects sa_ids grants log].
    rewrite bool_decide_eq_true_2 by done. cbn [negb].
    unfold bind at 1. rewrite (load_Done _ _ o) by apply object_at_fresh.
    apply (live_grown _ [Some o] _ _ _ sas gr
             (lg ++ [Log [CONTROL; MORE] "start parsing payload of type %s" [ArgType t]]))
      in Hlive.
    case_bool_decide as Hv; cbn [negb].
    + unfold bind at 1, insert_last, bind at 1, allocator_alloc.
      cbn [objects sa_ids grants log].
      destruct (hd true gr); unfold ret at 1.
      * rewrite bool_decide_eq_true_2 by done. cbn [negb].
        apply IH.
        -- apply decode_advances in Hdec. rewrite length_drop in Hdec.
           unfold bytes_left in *. destruct this; cbn in *. lia.
        -- destruct this; simpl in *.
           apply Forall_app. split.
           ++ eapply Forall_impl; [exact Hlive|]. by intros a.
           ++ constructor; [|constructor]. exists o. apply object_at_fresh.
      * rewrite bool_decide_eq_false_2 by done. cbn [negb].
        unfold bind, logger_log, ret. eexists _, _, _. split; [reflexivity|].
        destruct this; simpl in *.
        eapply Forall_impl; [exact Hlive|]. by intros a.
    + unfold bind, logger_log, ret. eexists _, _, _. split; [reflexivity|].
      destruct this; simpl in *.
      eapply Forall_impl; [exact Hlive|]. by intros a.
  - unfold ret at 1. rewrite bool_decide_eq_false_2.
    2:{ intros ->. by apply Hparser in Hdec. }
    cbn [negb]. unfold bind, logger_log, ret. eexists _, _, _. split; [reflexivity|].
    destruct this; simpl in *.
    eapply Forall_impl; [exact Hlive|]. by intros a.
Qed.

(** X7: [parse_body] always comes back with a status: as long as the chain
    it starts from holds live payloads and the parser reports its failures
    with a status other than [SUCCESS], it follows no dangling or unset
    pointer and its loop ends. *)
Theorem parse_body_returns this w :
  (forall t bs, decode t bs <> Rejected SUCCESS) ->
  Forall (fun a => is_Some (object_at w a)) (payloads this) ->
  exists st this' w', parse_body this w = Done (st, this') w'.
Proof.
  intros Hparser Hlive. unfold parse_body.
  destruct (get_supported_payloads this) as [found supported].
  unfold bind at 1, logger_log at 1.
  destruct (negb (bool_decide (found = SUCCESS))).
  { unfold bind, logger_log, ret. by eexists _, _, _. }
  destruct w as [objs0 sas gr lg]. cbn [objects sa_ids grants log].
  destruct (parse_loop_returns supported (S (bytes_left (parser this)))
              (first_payload this) this
              (World objs0 sas gr (lg ++ [Log [CONTROL] "parsing body of message" []]))
              Hparser) as (st & this1 & w1 & Hloop & Hlive1).
  { lia. }
  { eapply Forall_impl; [exact Hlive|]. by intros a. }
  unfold bind at 1. rewrite Hloop.
  destruct (negb (bool_decide (st = SUCCESS))).
  { unfold ret. by eexists _, _, _. }
  unfold bind at 1, create_iterator, bind at 1, allocator_alloc.
  destruct (hd true (grants w1)); unfold ret at 1.
  - rewrite bool_decide_eq_true_2 by done. cbn [negb].
    destruct (live_chain_objects
                (World (objects w1) (sa_ids w1) (tl (grants w1)) (log w1))
                (payloads this1)) as [objs Hobjs].
    { eapply Forall_impl; [exact Hlive1|]. by intros a. }
    unfold bind at 1. rewrite (check_occurences_spec _ _ _ _ Hobjs).
    unfold ret. by eexists _, _, _.
  - rewrite bool_decide_eq_false_2 by done. cbn [negb].
    unfold bind, logger_log, ret. by eexists _, _, _.
Qed.

Lemma occurrences_Permutation t types types' :
  types ≡ₚ types' -> occurrences t types = occurrences t types'.
Proof.
  induction 1 as [|x l l' _ IH|x y l|l l' l'' _ IH1 _ IH2]; cbn [occurrences];
    [done|by rewrite IH|lia|congruence].
Qed.

Lemma rules_verdict_Permutation supported types types' :
  types ≡ₚ types' -> rules_verdict supported types = rules_verdict supported types'.
Proof.
  intros Hp. induction supported as [|e supported IH]; [done|].
  cbn [rules_verdict]. by rewrite IH, (occurrences_Permutation _ _ _ Hp).
Qed.

(** X8: the occurrence check does not look at the order of the payloads:
    two chains whose payload types are a permutation of each other get the
    same status and the same log entry. *)
Theorem check_occurences_order supported w chain chain' objs objs' :
  chain_objects w chain objs ->
  chain_objects w chain' objs' ->
  map get_type objs ≡ₚ map get_type objs' ->
  check_occurences supported chain w = check_occurences supported chain' w.
Proof.
  intros Hc Hc' Hp.
  rewrite (check_occurences_spec _ _ _ _ Hc), (check_occurences_spec _ _ _ _ Hc').
  by rewrite (rules_verdict_Permutation _ _ _ Hp).
Qed.

(** X9: [parse_header] on a buffer that starts with a verified header,
    wherever the parser stood before: the message takes its fields from the
    header, [is_request] being the negated response flag; it gets a new
    ike_sa_id made of the header's SPIs and initiator flag, the ike_sa_id it
    had is destroyed, and the decoded header object is destroyed. *)
Theorem parse_header_success this w h n :
  decode HEADER (input (parser this)) = Parsed (Header h) n ->
  verify (Header h) = SUCCESS ->
  (forall old, ike_sa_id this = Some old -> is_Some (sa_at w old)) ->
  granted 1 w ->
  parse_header this w =
    Done (SUCCESS,
          Message (hdr_maj_version h) (hdr_min_version h) (hdr_next_payload h)
            (hdr_exchange_type h) (negb (hdr_response_flag h)) (hdr_message_id h)
            (Some (length (sa_ids w))) (packet this) (payloads this)
            (Parser (input (parser this)) n))
      (World (objects w ++ [None])
         (match ike_sa_id this with
          | Some old => <[old := None]> (sa_ids w)
          | None => sa_ids w
          end ++ [Some (IkeSaId (hdr_initiator_spi h) (hdr_responder_spi h)
                          (hdr_initiator_flag h))])
         (tl (grants w))
         (log w ++ [Log [CONTROL] "parsing header of message" [];
                    Log [CONTROL] "parsing header successfully" []])).
Proof.
  intros Hdec Hver Hid Hgr. destruct w as [objs0 sas gr lg].
  unfold granted in Hgr. cbn [grants] in Hgr.
  unfold parse_header. unfold bind at 1, logger_log at 1.
  unfold bind at 1. rewrite (parse_payload_parsed _ _ (Header h) n).
  2:{ by rewrite drop_0. }
  rewrite bool_decide_eq_true_2 by done. cbn [negb objects sa_ids grants log].
  unfold bind at 1. rewrite (load_Done _ _ (Header h)) by apply object_at_fresh.
  rewrite Hver. rewrite bool_decide_eq_true_2 by done. cbn [negb].
  cbn [ike_sa_id with_parser].
  destruct (ike_sa_id this) as [old|] eqn:Hold.
  - destruct (Hid old eq_refl) as [s Hs].
    unfold sa_at in Hs. cbn [sa_ids] in Hs.
    destruct (sas !! old) as [[s'|]|] eqn:Hlook; try discriminate.
    unfold bind at 1, sa_destroy at 1. cbn [objects sa_ids grants log]. rewrite Hlook.
    unfold bind at 1. rewrite header_load_fresh.
    unfold bind at 1, ike_sa_id_create, bind at 1, allocator_alloc.
    cbn [objects sa_ids grants log]. rewrite (granted_hd _ _ Hgr).
    cbv beta iota. cbn [objects sa_ids grants log].
    unfold bind at 1. rewrite header_load_fresh.
    unfold bind at 1, logger_log at 1. cbn [objects sa_ids grants log].
    unfold bind at 1. rewrite destroy_fresh.
    unfold ret. cbn. by rewrite <- app_assoc, length_insert.
  - unfold bind at 1, ret at 1.
    unfold bind at 1. rewrite header_load_fresh.
    unfold bind at 1, ike_sa_id_create, bind at 1, allocator_alloc.
    cbn [objects sa_ids grants log]. rewrite (granted_hd _ _ Hgr).
    cbv beta iota. cbn [objects sa_ids grants log].
    unfold bind at 1. rewrite header_load_fresh.
    unfold bind at 1, logger_log at 1. cbn [objects sa_ids grants log].
    unfold bind at 1. rewrite destroy_fresh.
    unfold ret. cbn. by rewrite <- app_assoc.
Qed.

Lemma destroy_payloads_frees chain : forall objs w,
  NoDup chain ->
  chain_objects w chain objs ->
  exists w',
    destroy_payloads chain w = Done tt w'
    /\ (forall a, object_at w' a = if bool_decide (a ∈ chain) then None else object_at w a)
    /\ sa_ids w' = sa_ids w
    /\ grants w' = grants w
    /\ log w' = log w ++ map destroy_entry objs.
Proof.
  induction chain as [|a chain IH]; intros objs w Hnd Hc.
  - inversion Hc; subst. exists w. cbn [destroy_payloads map]. rewrite app_nil_r.
    split; [done|]. split; [|done]. intros a. by rewrite bool_decide_eq_false_2 by apply not_elem_of_nil.
  - inversion Hc as [|? o ? objs' Ha Hc']; subst.
    apply NoDup_cons in Hnd as [Hni Hnd].
    cbn [destroy_payloads]. unfold bind at 1. rewrite (load_Done _ _ _ Ha).
    unfold bind at 1, logger_log at 1.
    set (w0 := World (objects w) (sa_ids w) (grants w) (log w ++ _)).
    assert (object_at w0 a = Some o) as Ha0 by exact Ha.
    unfold bind at 1. rewrite (payload_destroy_Done _ _ _ Ha0).
    destruct (IH objs' (update_object a None w0) Hnd) as (w' & Hrun & Hobj & Hsa & Hgr & Hlog).
    { apply chain_objects_update; [done|]. exact Hc'. }
    exists w'. split; [exact Hrun|]. split; [|split; [done|split; [done|]]].
    + intros b. rewrite Hobj.
      destruct (decide (b = a)) as [->|Hne].
      * rewrite (bool_decide_eq_true_2 (a ∈ a :: chain)) by left.
        rewrite bool_decide_eq_false_2 by done. by apply object_at_update_eq with o.
      * rewrite object_at_update_ne by done.
        destruct (decide (b ∈ chain)) as [Hin|Hnin].
        -- rewrite !bool_decide_eq_true_2; [done|by right|done].
        -- rewrite !bool_decide_eq_false_2; [done| |done].
           by intros [?|?]%elem_of_cons.
    + rewrite Hlog. cbn [map log update_object w0]. by rewrite <- app_assoc.
Qed.

(** X10: [destroy] of a message whose chain points at live, pairwise
    distinct payloads, when the iterator is granted: it ends with [SUCCESS],
    every payload of the chain and the ike_sa_id of the message are destroyed,
    and no other object and no other ike_sa_id is touched. *)
Theorem destroy_frees this w objs :
  NoDup (payloads this) ->
  chain_objects w (payloads this) objs ->
  (forall id, ike_sa_id this = Some id -> is_Some (sa_at w id)) ->
  granted 1 w ->
  exists w',
    destroy this w = Done SUCCESS w'
    /\ (forall a, object_at w' a =
                    if bool_decide (a ∈ payloads this) then None else object_at w a)
    /\ (forall id, sa_at w' id =
                     if bool_decide (ike_sa_id this = Some id) then None else sa_at w id)
    /\ grants w' = tl (grants w)
    /\ log w' = log w ++ map destroy_entry objs.
Proof.
  intros Hnd Hc Hid Hgr. unfold destroy.
  assert (exists w0,
    match ike_sa_id this with Some id => sa_destroy id | None => ret tt end w = Done tt w0
    /\ objects w0 = objects w /\ grants w0 = grants w /\ log w0 = log w
    /\ forall id, sa_at w0 id =
                    if bool_decide (ike_sa_id this = Some id) then None else sa_at w id)
    as (w0 & Hsa & Hobj0 & Hgr0 & Hlog0 & Hsa0).
  { destruct (ike_sa_id this) as [old|].
    - destruct (Hid old eq_refl) as [s Hs]. unfold sa_at in Hs.
      destruct (sa_ids w !! old) as [[s'|]|] eqn:Hlook; try discriminate.
      unfold sa_destroy. rewrite Hlook. eexists. split; [reflexivity|].
      cbn [objects grants log sa_ids]. repeat split.
      intros id. unfold sa_at. cbn [sa_ids]. case_bool_decide as Heq.
      + injection Heq as <-. rewrite list_lookup_insert_eq; [done|].
        by eapply lookup_lt_Some.
      + rewrite list_lookup_insert_ne; [done|]. congruence.
    - exists w. split; [done|]. by repeat split. }
  unfold bind at 1. rewrite Hsa.
  unfold bind at 1, create_iterator, bind at 1, allocator_alloc.
  unfold granted in Hgr. rewrite Hgr0, (granted_hd _ _ Hgr). unfold ret at 1.
  rewrite bool_decide_eq_true_2 by done. cbn [negb].
  destruct (destroy_payloads_frees (payloads this) objs
              (World (objects w0) (sa_ids w0) (tl (grants w)) (log w0)) Hnd)
    as (w' & Hrun & Hobj & Hsas & Hgrs & Hlog).
  { eapply Forall2_impl; [exact Hc|]. intros a o. unfold object_at. cbn [objects].
    by rewrite Hobj0. }
  unfold bind at 1. rewrite Hrun. unfold ret. exists w'. split; [done|].
  split; [|split; [|split]].
  - intros a. rewrite Hobj. unfold object_at. cbn [objects]. by rewrite Hobj0.
  - intros id. rewrite <- Hsa0. unfold sa_at. by rewrite Hsas.
  - by rewrite Hgrs.
  - by rewrite Hlog, <- Hlog0.
Qed.

Lemma destroy_payloads_dead a chain : forall w,
  a ∈ chain -> object_at w a = None -> exists f, destroy_payloads chain w = Fault f.
Proof.
  induction chain as [|b chain IH]; intros w Hin Hdead.
  - by apply elem_of_nil in Hin.
  - cbn [destroy_payloads]. unfold bind at 1.
    destruct (load b w) as [p w0|f] eqn:Hload; [|by eexists].
    apply load_inv in Hload as [-> Hb].
    apply elem_of_cons in Hin as [->|Hin]; [congruence|].
    assert (a <> b) as Hne by congruence.
    unfold bind at 1, logger_log at 1.
    set (w0 := World (objects w) (sa_ids w) (grants w) (log w ++ _)).
    assert (object_at w0 b = Some p) as Hb0 by exact Hb.
    unfold bind at 1. rewrite (payload_destroy_Done _ _ _ Hb0).
    apply IH; [done|]. by rewrite object_at_update_ne.
Qed.

Lemma destroy_payloads_aliased chain : forall w,
  ~ NoDup chain -> exists f, destroy_payloads chain w = Fault f.
Proof.
  induction chain as [|a chain IH]; intros w Hdup.
  - destruct Hdup. constructor.
  - cbn [destroy_payloads]. unfold bind at 1.
    destruct (load a w) as [p w0|f] eqn:Hload; [|by eexists].
    apply load_inv in Hload as [-> Ha].
    unfold bind at 1, logger_log at 1.
    set (w0 := World (objects w) (sa_ids w) (grants w) (log w ++ _)).
    assert (object_at w0 a = Some p) as Ha0 by exact Ha.
    unfold bind at 1. rewrite (payload_destroy_Done _ _ _ Ha0).
    destruct (decide (a ∈ chain)) as [Hin|Hni].
    + apply (destroy_payloads_dead a); [done|]. by apply object_at_update_eq with p.
    + apply IH. intros Hnd. apply Hdup. by apply NoDup_cons.
Qed.

(** X11: [destroy] does not survive a chain that holds one payload object
    twice, whatever the store: it ends in a fault, at the latest when the
    second visit finds the object already destroyed. *)
Theorem destroy_aliased this w :
  ~ NoDup (payloads this) -> exists f, destroy this w = Fault f.
Proof.
  intros Hdup. unfold destroy. unfold bind at 1.
  destruct (match ike_sa_id this with Some id => sa_destroy id | None => ret tt end w)
    as [[] w0|f]; [|by eexists].
  unfold bind at 1, create_iterator, bind at 1, allocator_alloc.
  destruct (hd true (grants w0)); unfold ret at 1.
  - rewrite bool_decide_eq_true_2 by done. cbn [negb].
    unfold bind at 1.
    match goal with |- context [destroy_payloads _ ?w1] =>
      destruct (destroy_payloads_aliased (payloads this) w1 Hdup) as [f ->] end.
    by eexists.
  - rewrite bool_decide_eq_false_2 by done. cbn [negb]. unfold crash. by eexists.
Qed.

(** X12: [generate] running out of resources before its loop.  Refused the
    header, it has touched nothing; refused the generator, it returns
    without destroying the header it has built, which stays in the store
    with no owner; refused the iterator, it destroys the header first. *)
Theorem generate_out_of_resources this w s id :
  exchange_type this <> EXCHANGE_TYPE_UNDEFINED ->
  source (packet this) <> None ->
  destination (packet this) <> None ->
  ike_sa_id this = Some s ->
  sa_at w s = Some id ->
  (grants w !! 0 = Some false ->
   generate this w =
     Done (OUT_OF_RES, this, None)
       (World (objects w) (sa_ids w) (drop 1 (grants w)) (log w ++ [generating_entry this])))
  /\ (granted 1 w -> grants w !! 1 = Some false ->
      generate this w =
        Done (OUT_OF_RES, this, None)
          (World (objects w ++ [Some (Header (generated_header this id))]) (sa_ids w)
             (drop 2 (grants w)) (log w ++ [generating_entry this])))
  /\ (granted 2 w -> grants w !! 2 = Some false ->
      generate this w =
        Done (OUT_OF_RES, this, None)
          (World (objects w ++ [None]) (sa_ids w)
             (drop 3 (grants w)) (log w ++ [generating_entry this]))).
Proof.
  intros Hex Hsrc Hdst Hid Hsa. destruct w as [objs0 sas gr lg].
  cbn [objects sa_ids grants log].
  assert (forall o g l, sa_load s (World o sas g l) = Done id (World o sas g l)) as Hload.
  { intros. by apply sa_load_Done. }
  assert (is_null (source (packet this)) || is_null (destination (packet this)) = false)
    as Hnull.
  { destruct (source (packet this)); [|done]. by destruct (destination (packet this)). }
  split; [|split].
  - intros Hg. destruct gr as [|[] gr]; try discriminate.
    unfold generate. unfold bind at 1, logger_log at 1.
    rewrite bool_decide_eq_false_2 by done. rewrite Hnull.
    unfold bind at 1, ike_header_create, bind at 1, allocator_alloc.
    cbn [objects sa_ids grants log hd tl drop].
    unfold ret. by rewrite drop_0.
  - intros Hg1 Hg2. unfold granted in Hg1. cbn [grants] in Hg1.
    pose proof (granted_hd _ _ Hg1) as Hhd.
    destruct gr as [|g0 [|[] gr]]; try discriminate. cbn [hd] in Hhd. subst g0.
    unfold generate. unfold bind at 1, logger_log at 1.
    rewrite bool_decide_eq_false_2 by done. rewrite Hnull.
    unfold bind at 1, ike_header_create, bind at 1, allocator_alloc.
    cbn [objects sa_ids grants log hd tl].
    unfold bind at 1, new_object, ret at 1. cbn [objects sa_ids grants log hd tl].
    do 3 (unfold bind at 1; rewrite header_update_fresh).
    unfold this_ike_sa_id. rewrite Hid.
    do 3 (unfold bind at 1; rewrite Hload; unfold bind at 1; rewrite header_update_fresh).
    unfold bind at 1, generator_create, bind at 1, allocator_alloc.
    cbn [objects sa_ids grants log hd tl drop]. unfold ret. by rewrite drop_0.
  - intros Hg1 Hg2. unfold granted in Hg1. cbn [grants] in Hg1.
    pose proof (granted_hd _ _ Hg1) as Hhd0. apply granted_tl in Hg1.
    pose proof (granted_hd _ _ Hg1) as Hhd1.
    destruct gr as [|g0 [|g1 [|[] gr]]]; try discriminate. cbn [hd tl] in Hhd0, Hhd1.
    subst g0 g1.
    unfold generate. unfold bind at 1, logger_log at 1.
    rewrite bool_decide_eq_false_2 by done. rewrite Hnull.
    unfold bind at 1, ike_header_create, bind at 1, allocator_alloc.
    cbn [objects sa_ids grants log hd tl].
    unfold bind at 1, new_object, ret at 1. cbn [objects sa_ids grants log hd tl].
    do 3 (unfold bind at 1; rewrite header_update_fresh).
    unfold this_ike_sa_id. rewrite Hid.
    do 3 (unfold bind at 1; rewrite Hload; unfold bind at 1; rewrite header_update_fresh).
    unfold bind at 1, generator_create, bind at 1, allocator_alloc.
    cbn [objects sa_ids grants log hd tl]. unfold ret at 1.
    unfold bind at 1, create_iterator, bind at 1, allocator_alloc.
    cbn [objects sa_ids grants log hd tl drop]. unfold ret at 1.
    rewrite bool_decide_eq_false_2 by done. cbn [negb].
    unfold bind at 1. rewrite destroy_fresh. unfold ret. by rewrite drop_0.
Qed.

(** X13: what a successful [generate] writes.  For any exchange type but
    the undefined one and any chain of live, pairwise distinct payloads, in
    any order and number, the rule table not being looked at: the buffer of
    the message's packet is the header, naming the type of the first payload
    (or [NO_PAYLOAD]), followed by the payloads in chain order, each naming
    the type of its successor; source and destination stay; the packet handed
    out is a copy of the message's packet, and there is none, although the
    status is [SUCCESS], when the copy is refused. *)
Theorem generate_wire_layout this w s id objs :
  exchange_type this <> EXCHANGE_TYPE_UNDEFINED ->
  source (packet this) <> None ->
  destination (packet this) <> None ->
  ike_sa_id this = Some s ->
  sa_at w s = Some id ->
  granted 4 w ->
  NoDup (payloads this) ->
  chain_objects w (payloads this) objs ->
  Forall (fun o => (encode o).1 = SUCCESS)
    (link_chain (Header (generated_header this id) :: objs)) ->
  exists this' pkt w',
    generate this w = Done (SUCCESS, this', pkt) w'
    /\ data (packet this') =
         Some (encoding (Header (set_hdr_next_payload (first_type objs)
                                   (generated_header this id)))
               ++ concat (map encoding (link_chain objs)))
    /\ source (packet this') = source (packet this)
    /\ destination (packet this') = destination (packet this)
    /\ with_packet (packet this) this' = this
    /\ pkt = (if hd true (drop 4 (grants w)) then Some (packet this') else None).
Proof.
  intros Hex Hsrc Hdst Hid Hsa Hgr Hnd Hc Henc.
  destruct (generate_forward this w s id objs Hex Hsrc Hdst Hid Hsa Hgr Hnd Hc Henc)
    as (w' & Hrun & _).
  eexists _, _, _. split; [exact Hrun|].
  cbn [packet with_packet with_data data source destination].
  split; [|split; [done|split; [done|split; [by destruct this|done]]]].
  by destruct objs.
Qed.

(** X14: the rule lookup goes by the exchange type alone.  IKE_SA_INIT
    messages, requests and responses alike, get the three entries
    SECURITY_ASSOCIATION, KEY_EXCHANGE and NONCE, each exactly once; for any
    other exchange type the lookup answers [NOT_FOUND] with no entries. *)
Theorem get_supported_payloads_rule this :
  get_supported_payloads this =
    if bool_decide (exchange_type this = IKE_SA_INIT)
    then (SUCCESS, [SupportedPayload SECURITY_ASSOCIATION 1 1;
                    SupportedPayload KEY_EXCHANGE 1 1;
                    SupportedPayload NONCE 1 1])
    else (NOT_FOUND, []).
Proof.
  case_bool_decide as He.
  - by rewrite find_rule_ike_sa_init.
  - by rewrite find_rule_other.
Qed.

(** X15: [add_payload] refused the list node: it answers [OUT_OF_RES] and
    has changed neither the message nor any payload, and it has not looked at
    the payload it was given; that is its one way to fail. *)
Theorem add_payload_refused this payload w :
  (hd true (grants w) = false ->
   add_payload this payload w =
     Done (OUT_OF_RES, this) (World (objects w) (sa_ids w) (tl (grants w)) (log w)))
  /\ (forall st this' w',
        add_payload this payload w = Done (st, this') w' ->
        st <> SUCCESS ->
        st = OUT_OF_RES /\ hd true (grants w) = false).
Proof.
  assert (forall l : list addr, l <> [] -> get_last l = (SUCCESS, last l)
                                          /\ is_Some (last l)) as Hlast.
  { intros l Hl. unfold get_last. destruct l as [|a l] using rev_ind; [done|].
    rewrite last_snoc. split; [done|by eexists]. }
  split.
  - intros Hgr. unfold add_payload, get_count.
    destruct (payloads this) as [|a l] eqn:Hp.
    + cbn [length Nat.ltb Nat.leb andb].
      unfold bind at 1, insert_last, bind at 1, allocator_alloc. rewrite Hgr.
      unfold ret at 1. by rewrite bool_decide_eq_false_2 by done.
    + destruct (Hlast (a :: l)) as [-> _]; [done|].
      cbn [length Nat.ltb Nat.leb]. rewrite bool_decide_eq_true_2 by done. cbn [negb andb].
      unfold bind at 1, insert_last, bind at 1, allocator_alloc. rewrite Hgr.
      unfold ret at 1. by rewrite bool_decide_eq_false_2 by done.
  - intros st this' w' Hrun Hst. unfold add_payload, get_count in Hrun.
    assert ((let* (inserted, l) := insert_last (payloads this) payload in
             if negb (bool_decide (inserted = SUCCESS)) then ret (OUT_OF_RES, this)
             else
               let* p := load payload in
               let* this' :=
                 if length l =? 1
                 then ret (with_first_payload (get_type p) (with_payloads l this))
                 else
                   match (if 0 <? length (payloads this) then get_last (payloads this)
                          else (SUCCESS, None)).2 with
                   | Some lp => set_next_type lp (get_type p);; ret (with_payloads l this)
                   | None => crash UNSET_RESULT
                   end in
               logger_log [CONTROL; MORE] "added payload of type %s to message"
                 [ArgType (get_type p)];;
               ret (SUCCESS, this')) w = Done (st, this') w') as Hrun'.
    { destruct (payloads this) as [|a l] eqn:Hp.
      - exact Hrun.
      - destruct (Hlast (a :: l)) as [Hl _]; [done|]. rewrite Hl in Hrun |- *.
        cbn [length Nat.ltb Nat.leb] in Hrun |- *.
        rewrite bool_decide_eq_true_2 in Hrun by done. exact Hrun. }
    clear Hrun. unfold bind at 1, insert_last, bind at 1, allocator_alloc in Hrun'.
    destruct (hd true (grants w)); unfold ret at 1 in Hrun'.
    + rewrite bool_decide_eq_true_2 in Hrun' by done. cbn [negb] in Hrun'.
      unfold bind at 1 in Hrun'.
      destruct (load payload _) as [p w1|]; [|done].
      unfold bind at 1 in Hrun'.
      match type of Hrun' with
      | match ?m with _ => _ end = _ => destruct m as [this1 w2|]; [|done]
      end.
      unfold bind, logger_log, ret in Hrun'. by simplify_eq.
    + rewrite bool_decide_eq_false_2 in Hrun' by done. cbn [negb] in Hrun'.
      unfold ret in Hrun'. by simplify_eq.
Qed.

(** X16: [set_ike_sa_id] followed by [get_ike_sa_id]: the message holds a
    copy of the ike_sa_id it was given and hands out a copy of that copy,
    three distinct objects of equal contents; the ike_sa_id the message held
    before is not destroyed by [set_ike_sa_id]. *)
Theorem set_get_ike_sa_id this w a s :
  sa_at w a = Some s ->
  granted 2 w ->
  let mine := length (sa_ids w) in
  exists this' w1 w2,
    set_ike_sa_id this (Some a) w = Done (SUCCESS, this') w1
    /\ this' = with_ike_sa_id (Some mine) this
    /\ get_ike_sa_id this' w1 = Done (SUCCESS, Some (S mine)) w2
    /\ a < mine
    /\ sa_at w2 a = Some s /\ sa_at w2 mine = Some s /\ sa_at w2 (S mine) = Some s
    /\ (forall old, old < mine -> sa_at w2 old = sa_at w old)
    /\ objects w2 = objects w.
Proof.
  intros Hs Hgr mine. destruct w as [objs0 sas gr lg].
  unfold granted in Hgr. cbn [grants] in Hgr. cbn [sa_ids] in mine.
  assert (a < length sas) as Hlt.
  { unfold sa_at in Hs. cbn [sa_ids] in Hs.
    destruct (sas !! a) as [x|] eqn:Hl; [|done]. by eapply lookup_lt_Some. }
  assert (forall extra o g l i, i < length sas ->
            sa_at (World o (sas ++ extra) g l) i = sa_at (World objs0 sas gr lg) i) as Hold.
  { intros extra o g l i Hi. unfold sa_at. cbn [sa_ids]. by rewrite lookup_app_l. }
  unfold set_ike_sa_id, ike_sa_id_clone.
  unfold bind at 1, bind at 1. rewrite (sa_load_Done _ _ _ Hs).
  unfold bind at 1, ike_sa_id_create, bind at 1, allocator_alloc.
  cbn [objects sa_ids grants log]. rewrite (granted_hd _ _ Hgr). apply granted_tl in Hgr.
  cbv beta iota. cbn [objects sa_ids grants log]. unfold ret at 1. cbv beta iota.
  unfold ret at 1.
  eexists _, _, _. split; [reflexivity|]. split; [reflexivity|].
  unfold get_ike_sa_id. cbn [ike_sa_id with_ike_sa_id]. unfold ike_sa_id_clone.
  unfold bind at 1.
  rewrite (sa_load_Done _ mine s).
  2:{ unfold sa_at. cbn [sa_ids]. unfold mine. rewrite list_lookup_middle by done.
      by destruct s. }
  unfold bind at 1, ike_sa_id_create, bind at 1, allocator_alloc.
  cbn [objects sa_ids grants log]. rewrite (granted_hd _ _ Hgr).
  cbv beta iota. cbn [objects sa_ids grants log]. unfold ret at 1.
  rewrite length_app. cbn [length]. rewrite Nat.add_1_r. fold mine.
  split; [reflexivity|]. split; [done|].
  rewrite <- app_assoc. cbn [app].
  split; [by rewrite Hold|].
  split.
  { unfold sa_at. cbn [sa_ids]. unfold mine.
    rewrite (list_lookup_middle sas _ _ (length sas)) by done. by destruct s. }
  split.
  { unfold sa_at. cbn [sa_ids]. unfold mine.
    rewrite lookup_app_r by lia. replace (S (length sas) - length sas) with 1 by lia.
    cbn. by destruct s. }
  split; [|done]. intros old Hlt'. by rewrite Hold.
Qed.


End Further.

(** ** The properties at work on concrete messages *)

Import Demo.

Ltac round_trips_demo :=
  split; [reflexivity | split; [reflexivity | intros rest; reflexivity]].

(** The round trip at the sample request, with the reference codec. *)
Lemma generate_parse_round_trip_witness :
  exists this1 pkt w1 fresh w2 fresh1 w3 fresh2 w4 s',
    generate sample_request sample_world = Done (SUCCESS, this1, Some pkt) w1
    /\ message_create_from_packet (Some pkt) w1 = Done (Some fresh) w2
    /\ parse_header fresh w2 = Done (SUCCESS, fresh1) w3
    /\ parse_body fresh1 w3 = Done (SUCCESS, fresh2) w4
    /\ chain_objects w4 (payloads fresh2) (link_chain [sa_payload; ke_payload; nonce_payload])
    /\ map get_type (link_chain [sa_payload; ke_payload; nonce_payload])
       = map get_type [sa_payload; ke_payload; nonce_payload]
    /\ exchange_type fresh2 = exchange_type sample_request
    /\ message_id fresh2 = message_id sample_request
    /\ is_request fresh2 = is_request sample_request
    /\ ike_sa_id fresh2 = Some s'
    /\ sa_at w4 s' = Some sample_id.
Proof.
  apply (generate_parse_round_trip sample_request sample_world 0 sample_id
           [sa_payload; ke_payload; nonce_payload] supported_ike_sa_init_i_payloads).
  - reflexivity.
  - repeat constructor.
  - reflexivity.
  - discriminate.
  - discriminate.
  - reflexivity.
  - reflexivity.
  - repeat constructor.
  - constructor.
  - repeat (constructor; [round_trips_demo|]). constructor.
Defined.

(** An IKE_AUTH request: no rule, [FAILED], nothing touched. *)
Lemma parse_body_without_rule_witness :
  get_supported_payloads auth_request = (NOT_FOUND, [])
  /\ parse_body auth_request empty_world =
       Done (FAILED, auth_request)
         (add_log [Log [CONTROL] "parsing body of message" [];
                   Log [ERROR] "could not get supported payloads" []] empty_world).
Proof. apply (parse_body_without_rule auth_request empty_world). discriminate. Defined.

(** C2 as stated fails: the lookup answers [NOT_FOUND] for the IKE_AUTH request, yet [parse_body] does not fail with [NOT_FOUND]. *)
Lemma parse_body_without_rule_counterexample :
  fst (get_supported_payloads auth_request) = NOT_FOUND
  /\ ~ exists this' w', parse_body auth_request empty_world = Done (NOT_FOUND, this') w'.
Proof.
  split; [reflexivity|]. intros (this' & w' & H). vm_compute in H. discriminate.
Qed.

Ltac decodes_demo :=
  repeat (split; [done|]; split; [reflexivity|]; eexists;
          split; [vm_compute; reflexivity|]; split; [reflexivity|]);
  split; reflexivity.



(** SA, NONCE: refused for the missing KEY_EXCHANGE. *)
Lemma parse_body_missing_key_exchange_witness :
  exists verdict,
    parse_body (inbound SECURITY_ASSOCIATION (body_bytes no_ke_body)) empty_world =
      Done (NOT_SUPPORTED,
            with_payloads [0; 1]
              (with_parser (Parser (body_bytes no_ke_body) (length (body_bytes no_ke_body)))
                 (inbound SECURITY_ASSOCIATION (body_bytes no_ke_body))))
        (World (map Some (link_chain no_ke_body)) [] []
           (body_entry :: map start_entry [SECURITY_ASSOCIATION; NONCE] ++ [verdict]))
    /\ verdict = too_few (SupportedPayload KEY_EXCHANGE 1 1).
Proof.
  destruct (parse_body_missing_key_exchange
              (inbound SECURITY_ASSOCIATION (body_bytes no_ke_body)) empty_world
              [] (link_chain no_ke_body)
              (Parser (body_bytes no_ke_body) (length (body_bytes no_ke_body))))
    as (verdict & Hrun & Hwhich & _).
  - reflexivity.
  - decodes_demo.
  - constructor.
  - constructor.
  - cbn. intros Hin. repeat (apply elem_of_cons in Hin as [Hin|Hin]; [discriminate|]).
    by apply elem_of_nil in Hin.
  - exists verdict. split; [exact Hrun|]. apply Hwhich; reflexivity.
Defined.

(** C4 as stated fails: a body of SECURITY_ASSOCIATION, SECURITY_ASSOCIATION, NONCE holds both types and no KEY_EXCHANGE and is refused with [NOT_SUPPORTED], but the one error reported is the second SECURITY_ASSOCIATION; the KEY_EXCHANGE rule is never looked at. *)
Lemma parse_body_missing_key_exchange_counterexample :
  exists this' w',
    parse_body (inbound SECURITY_ASSOCIATION (body_bytes sa_twice_body)) empty_world
      = Done (NOT_SUPPORTED, this') w'
    /\ chain_objects w' (payloads this') (link_chain sa_twice_body)
    /\ SECURITY_ASSOCIATION ∈ map get_type sa_twice_body
    /\ NONCE ∈ map get_type sa_twice_body
    /\ (KEY_EXCHANGE ∉ map get_type sa_twice_body)
    /\ errors (log w') = [too_many (SupportedPayload SECURITY_ASSOCIATION 1 1)]
    /\ errors (log w') <> [too_few (SupportedPayload KEY_EXCHANGE 1 1)].
Proof.
  eexists _, _. split; [vm_compute; reflexivity|].
  split; [repeat constructor|].
  split; [cbn; by left|].
  split; [cbn; right; right; by left|].
  split.
  { cbn. intros Hin. repeat (apply elem_of_cons in Hin as [Hin|Hin]; [discriminate|]).
    by apply elem_of_nil in Hin. }
  split; [vm_compute; reflexivity|vm_compute; discriminate].
Qed.

(** A message as the constructor leaves it: exchange type undefined. *)
Lemma generate_invalid_state_witness :
  generate (unparsed [] None) empty_world =
    Done (INVALID_STATE, unparsed [] None, None)
      (add_log [Log [CONTROL] "generating message, contains %d payloads" [ArgCount 0];
                Log [ERROR] "exchange type is not defined" []] empty_world).
Proof. apply (generate_invalid_state (unparsed [] None) empty_world). by left. Defined.

(** The sample request after [generate]: SA names KE, KE names NONCE, NONCE names nothing; and KE appended to a chain that holds SA: SA then names KE, and the chain is linked since KE names nothing. *)
Lemma chain_linkage_witness :
  (exists this' pkt w',
     generate sample_request sample_world = Done (SUCCESS, this', pkt) w'
     /\ payloads this' = [0; 1; 2]
     /\ chain_objects w' [0; 1; 2] (link_chain [sa_payload; ke_payload; nonce_payload])
     /\ chain_linked w' [0; 1; 2])
  /\ (exists this' w' p,
        add_payload half_built 1 sample_world = Done (SUCCESS, this') w'
        /\ object_at sample_world 1 = Some p
        /\ chain_objects w' (payloads this') (relink_last (get_type p) [sa_payload] ++ [p])
        /\ chain_linked w' (payloads this')).
Proof.
  split.
  - eexists _, _, _. split; [vm_compute; reflexivity|].
    eapply (proj1 chain_linkage sample_request sample_world
              [sa_payload; ke_payload; nonce_payload]).
    + repeat (constructor; [rewrite ?elem_of_cons, elem_of_nil; lia|]). constructor.
    + repeat constructor.
    + vm_compute. reflexivity.
  - eexists _, _.
    edestruct (proj2 (proj2 (proj2 chain_linkage)) half_built 1 sample_world [sa_payload])
      as (p & Hp & Hc & _ & _ & Hlinked).
    + repeat (constructor; [rewrite ?elem_of_cons, elem_of_nil; lia|]). constructor.
    + cbn. intros Hin. apply elem_of_cons in Hin as [Hin|Hin]; [discriminate|].
      by apply elem_of_nil in Hin.
    + repeat constructor.
    + vm_compute. reflexivity.
    + exists p. split; [reflexivity|]. split; [exact Hp|]. split; [exact Hc|].
      apply Hlinked. injection Hp as <-. split; [by split|reflexivity].
Defined.

(** C6 as stated fails: [add_payload] appends a KEY_EXCHANGE payload that names NONCE to a linked chain and leaves that next-type in place, so the last element of the chain does not name [NO_PAYLOAD]; and [generate] succeeds on a chain that holds one payload object twice and leaves it unlinked. *)
Lemma chain_linkage_counterexample :
  chain_linked half_built_world (payloads half_built)
  /\ (exists this' w',
        add_payload half_built 1 half_built_world = Done (SUCCESS, this') w'
        /\ payloads this' = [0; 1]
        /\ object_at w' 1 = Some ke_then_nonce
        /\ ~ chain_linked w' (payloads this'))
  /\ (exists this' pkt w',
        generate aliased_request sample_world = Done (SUCCESS, this', pkt) w'
        /\ payloads this' = [0; 0]
        /\ ~ chain_linked w' (payloads this')).
Proof.
  split; [|split].
  - cbn. split; [done|]. split; [by eexists|done].
  - eexists _, _. split; [vm_compute; reflexivity|].
    split; [reflexivity|]. split; [reflexivity|].
    cbn. intros (_ & _ & Hlast & _). discriminate.
  - eexists _, _, _. split; [vm_compute; reflexivity|].
    split; [reflexivity|].
    cbn. intros (Hfirst & _). discriminate.
Qed.



(** The sample request: the copy is at address 1, the original stays at 0. *)
Lemma get_ike_sa_id_copy_witness :
  exists w',
    get_ike_sa_id sample_request sample_world = Done (SUCCESS, Some 1) w'
    /\ 1 <> 0
    /\ sa_at w' 1 = Some sample_id
    /\ sa_at w' 0 = Some sample_id
    /\ objects w' = objects sample_world.
Proof.
  apply (proj1 (proj2 (get_ike_sa_id_copy sample_request sample_world)) 0 sample_id);
    reflexivity.
Defined.

(** C8 as stated fails: without ike_sa_id the status is [FAILED], not [NOT_FOUND]. *)
Lemma get_ike_sa_id_copy_counterexample :
  ike_sa_id (unparsed [] None) = None
  /\ get_ike_sa_id (unparsed [] None) empty_world = Done (FAILED, None) empty_world
  /\ ~ exists r w', get_ike_sa_id (unparsed [] None) empty_world = Done (NOT_FOUND, r) w'.
Proof.
  split; [reflexivity|]. split; [reflexivity|].
  intros (r & w' & H). vm_compute in H. discriminate.
Qed.

(** The sample request without and with its ike_sa_id. *)
Lemma generate_ike_sa_id_unchecked_witness :
  generate anonymous_request sample_world = Fault NULL_POINTER
  /\ generate sample_request sample_world <> Fault NULL_POINTER.
Proof.
  split.
  - apply (proj1 generate_ike_sa_id_unchecked anonymous_request sample_world);
      (discriminate || reflexivity).
  - apply (proj2 generate_ike_sa_id_unchecked sample_request sample_world). discriminate.
Defined.

(** A body that is valid by itself, parsed into a message that already holds a NONCE: the old payload stays first and is counted with the new ones, so the second NONCE is one too many. *)
Lemma parse_body_keeps_chain_witness :
  exists w',
    parse_body preloaded nonce_world =
      Done (NOT_SUPPORTED,
            with_payloads [0; 1; 2; 3]
              (with_parser (Parser (body_bytes full_body) (length (body_bytes full_body)))
                 preloaded)) w'
    /\ chain_objects w' [0; 1; 2; 3] (nonce_payload :: link_chain full_body).
Proof.
  apply (proj1 (proj2 parse_body_keeps_chain) preloaded nonce_world
           supported_ike_sa_init_i_payloads [nonce_payload] (link_chain full_body)
           (Parser (body_bytes full_body) (length (body_bytes full_body)))).
  - reflexivity.
  - decodes_demo.
  - repeat constructor.
  - constructor.
Defined.

(** *** The further properties on concrete messages *)

Lemma parse_body_unsupported_type_witness :
  exists this' w',
    parse_body (inbound SECURITY_ASSOCIATION (encoding (sa_then (PAYLOAD_TYPE_OTHER 41))))
      empty_world = Done (NOT_SUPPORTED, this') w'
    /\ payloads this' = [0]
    /\ position (parser this') = 5
    /\ errors (log w') =
         [Log [ERROR] "payload type %s not supported" [ArgType (PAYLOAD_TYPE_OTHER 41)]].
Proof.
  eexists _, _. split.
  - apply (parse_body_unsupported_type
             (inbound SECURITY_ASSOCIATION (encoding (sa_then (PAYLOAD_TYPE_OTHER 41))))
             empty_world supported_ike_sa_init_i_payloads
             [sa_then (PAYLOAD_TYPE_OTHER 41)]
             (Parser (encoding (sa_then (PAYLOAD_TYPE_OTHER 41))) 5)
             (PAYLOAD_TYPE_OTHER 41)).
    + reflexivity.
    + decodes_demo.
    + constructor.
    + discriminate.
    + reflexivity.
  - repeat split.
Defined.

Lemma parse_body_parser_failure_witness :
  exists this' w',
    parse_body (inbound SECURITY_ASSOCIATION (encoding (sa_then KEY_EXCHANGE) ++ [Byte.x00]))
      empty_world = Done (PARSE_ERROR, this') w'
    /\ payloads this' = [0]
    /\ position (parser this') = 5.
Proof.
  eexists _, _. split.
  - apply (parse_body_parser_failure
             (inbound SECURITY_ASSOCIATION (encoding (sa_then KEY_EXCHANGE) ++ [Byte.x00]))
             empty_world supported_ike_sa_init_i_payloads
             [sa_then KEY_EXCHANGE]
             (Parser (encoding (sa_then KEY_EXCHANGE) ++ [Byte.x00]) 5)
             KEY_EXCHANGE PARSE_ERROR).
    + reflexivity.
    + decodes_demo.
    + constructor.
    + discriminate.
    + reflexivity.
    + reflexivity.
    + discriminate.
  - repeat split.
Defined.

Lemma parse_body_verify_failure_witness :
  exists w',
    @parse_body strict_codec (inbound SECURITY_ASSOCIATION (encoding empty_sa)) empty_world
      = Done (VERIFY_ERROR,
              with_parser (Parser (encoding empty_sa) 4)
                (inbound SECURITY_ASSOCIATION (encoding empty_sa))) w'
    /\ @verify strict_codec empty_sa = FAILED
    /\ object_at w' 0 = Some empty_sa.
Proof.
  destruct (@parse_body_verify_failure strict_codec
              (inbound SECURITY_ASSOCIATION (encoding empty_sa)) empty_world
              supported_ike_sa_init_i_payloads [] (Parser (encoding empty_sa) 0)
              SECURITY_ASSOCIATION empty_sa 4)
    as (w' & Hrun & Hobj & _).
  - reflexivity.
  - split; reflexivity.
  - constructor.
  - discriminate.
  - reflexivity.
  - reflexivity.
  - discriminate.
  - exists w'. split; [exact Hrun|]. split; [reflexivity|exact Hobj].
Defined.

Lemma parse_body_insert_refused_witness :
  exists w',
    parse_body (inbound SECURITY_ASSOCIATION (body_bytes full_body))
      (answering [false] empty_world)
      = Done (OUT_OF_RES,
              with_parser (Parser (body_bytes full_body) 5)
                (inbound SECURITY_ASSOCIATION (body_bytes full_body))) w'
    /\ object_at w' 0 = Some (sa_then KEY_EXCHANGE).
Proof.
  destruct (parse_body_insert_refused
              (inbound SECURITY_ASSOCIATION (body_bytes full_body))
              (answering [false] empty_world)
              supported_ike_sa_init_i_payloads [] (Parser (body_bytes full_body) 0)
              SECURITY_ASSOCIATION (sa_then KEY_EXCHANGE) 5)
    as (w' & Hrun & Hobj & _).
  - reflexivity.
  - split; reflexivity.
  - constructor.
  - discriminate.
  - reflexivity.
  - reflexivity.
  - reflexivity.
  - reflexivity.
  - exists w'. split; [exact Hrun|exact Hobj].
Defined.

Lemma parse_body_iterator_refused_witness :
  exists this' w',
    parse_body (inbound SECURITY_ASSOCIATION (body_bytes two_nonce_body))
      (answering [true; true; true; true; false] empty_world)
      = Done (OUT_OF_RES, this') w'
    /\ payloads this' = [0; 1; 2; 3]
    /\ errors (log w') =
         [Log [ERROR] "Could not create iterator to check supported payloads" []].
Proof.
  eexists _, _. split.
  - apply (parse_body_iterator_refused
             (inbound SECURITY_ASSOCIATION (body_bytes two_nonce_body))
             (answering [true; true; true; true; false] empty_world)
             supported_ike_sa_init_i_payloads (link_chain two_nonce_body)
             (Parser (body_bytes two_nonce_body) (length (body_bytes two_nonce_body)))).
    + reflexivity.
    + decodes_demo.
    + repeat constructor.
    + reflexivity.
  - repeat split.
Defined.

Lemma parse_body_success_sound_witness :
  exists this' w',
    parse_body (inbound SECURITY_ASSOCIATION (body_bytes full_body)) empty_world
      = Done (SUCCESS, this') w'
    /\ exists objs,
         chain_objects w' (payloads this') objs
         /\ occurrences SECURITY_ASSOCIATION (map get_type objs) = 1
         /\ occurrences KEY_EXCHANGE (map get_type objs) = 1
         /\ occurrences NONCE (map get_type objs) = 1.
Proof.
  eexists _, _.
  match goal with |- ?A /\ _ => assert A as Hrun by (vm_compute; reflexivity) end.
  split; [exact Hrun|].
  exact (proj2 (parse_body_success_sound _ _ _ _ Hrun)).
Defined.

Lemma parse_body_returns_witness :
  exists st this' w', parse_body preloaded nonce_world = Done (st, this') w'.
Proof.
  apply (parse_body_returns preloaded nonce_world).
  - exact demo_decode_status.
  - repeat constructor. by eexists.
Defined.

Lemma check_occurences_order_witness :
  check_occurences supported_ike_sa_init_i_payloads [0; 1; 2] sample_world
  = check_occurences supported_ike_sa_init_i_payloads [2; 0; 1] sample_world.
Proof.
  apply (check_occurences_order supported_ike_sa_init_i_payloads sample_world
           [0; 1; 2] [2; 0; 1] [sa_payload; ke_payload; nonce_payload]
           [nonce_payload; sa_payload; ke_payload]).
  - repeat constructor.
  - repeat constructor.
  - symmetry. apply (Permutation_cons_append [SECURITY_ASSOCIATION; KEY_EXCHANGE] NONCE).
Defined.

Lemma parse_header_success_witness :
  exists this' w',
    parse_header (with_parser (Parser header_bytes 28) (unparsed header_bytes (Some 0)))
      sample_world = Done (SUCCESS, this') w'
    /\ exchange_type this' = IKE_SA_INIT
    /\ is_request this' = true
    /\ message_id this' = 5%Z
    /\ position (parser this') = 28
    /\ ike_sa_id this' = Some 1
    /\ sa_at w' 1 = Some sample_id
    /\ sa_at w' 0 = None
    /\ object_at w' 3 = None.
Proof.
  eexists _, _. split.
  - apply (parse_header_success
             (with_parser (Parser header_bytes 28) (unparsed header_bytes (Some 0)))
             sample_world sample_header 28).
    + vm_compute. reflexivity.
    + reflexivity.
    + intros old [= <-]. by eexists.
    + constructor.
  - repeat split.
Defined.

Lemma destroy_frees_witness :
  exists w',
    destroy sample_request sample_world = Done SUCCESS w'
    /\ object_at w' 0 = None /\ object_at w' 1 = None /\ object_at w' 2 = None
    /\ sa_at w' 0 = None.
Proof.
  destruct (destroy_frees sample_request sample_world
              [sa_payload; ke_payload; nonce_payload])
    as (w' & Hrun & Hobj & Hsa & _).
  - repeat (constructor; [rewrite ?elem_of_cons, elem_of_nil; lia|]). constructor.
  - repeat constructor.
  - intros id [= <-]. by eexists.
  - constructor.
  - exists w'. split; [exact Hrun|].
    rewrite (Hobj 0), (Hobj 1), (Hobj 2), (Hsa 0). repeat split.
Defined.

Lemma destroy_aliased_witness :
  exists f, destroy aliased_request sample_world = Fault f.
Proof.
  apply (destroy_aliased aliased_request sample_world).
  intros [Hni _]%NoDup_cons. apply Hni. left.
Defined.

Lemma generate_out_of_resources_witness :
  generate sample_request (answering [true; false] sample_world) =
    Done (OUT_OF_RES, sample_request, None)
      (World (objects sample_world ++ [Some (Header (generated_header sample_request sample_id))])
         (sa_ids sample_world) [] [generating_entry sample_request]).
Proof.
  apply (proj1 (proj2 (generate_out_of_resources sample_request
                         (answering [true; false] sample_world) 0 sample_id
                         ltac:(discriminate) ltac:(discriminate) ltac:(discriminate)
                         eq_refl eq_refl))).
  - repeat constructor.
  - reflexivity.
Defined.

Lemma generate_wire_layout_witness :
  exists this' pkt w',
    generate odd_response sample_world = Done (SUCCESS, this', Some pkt) w'
    /\ data pkt =
         Some (encoding (Header (set_hdr_next_payload NONCE
                                   (generated_header odd_response sample_id)))
               ++ encoding (payload_set_next_type SECURITY_ASSOCIATION nonce_payload)
               ++ encoding sa_payload).
Proof.
  destruct (generate_wire_layout odd_response sample_world 0 sample_id
              [nonce_payload; sa_payload])
    as (this' & pkt & w' & Hrun & Hdata & _ & _ & _ & Hpkt).
  - discriminate.
  - discriminate.
  - discriminate.
  - reflexivity.
  - reflexivity.
  - constructor.
  - repeat (constructor; [rewrite ?elem_of_cons, elem_of_nil; lia|]). constructor.
  - repeat constructor.
  - repeat constructor.
  - exists this', (packet this'), w'. cbn in Hpkt. subst pkt.
    split; [exact Hrun|]. rewrite Hdata. cbn. by rewrite app_nil_r.
Defined.

Lemma add_payload_refused_witness :
  add_payload half_built 7 (answering [false] half_built_world) =
    Done (OUT_OF_RES, half_built) (answering [] half_built_world).
Proof.
  apply (proj1 (add_payload_refused half_built 7 (answering [false] half_built_world))).
  reflexivity.
Defined.

Lemma set_get_ike_sa_id_witness :
  exists this' w1 w2,
    set_ike_sa_id (unparsed [] (Some 0)) (Some 0) sample_world = Done (SUCCESS, this') w1
    /\ this' = with_ike_sa_id (Some 1) (unparsed [] (Some 0))
    /\ get_ike_sa_id this' w1 = Done (SUCCESS, Some 2) w2
    /\ 0 < 1
    /\ sa_at w2 0 = Some sample_id /\ sa_at w2 1 = Some sample_id
    /\ sa_at w2 2 = Some sample_id
    /\ (forall old, old < 1 -> sa_at w2 old = sa_at sample_world old)
    /\ objects w2 = objects sample_world.
Proof.
  apply (set_get_ike_sa_id (unparsed [] (Some 0)) sample_world 0 sample_id).
  - reflexivity.
  - constructor.
Defined.
